(** * AgriChatbot: retrieval and query-routing pipeline

    A shallow embedding of the TypeScript services

      - [DataProcessor]       (server/services/dataProcessor.ts)
      - [MemStorage]          (server/storage.ts)
      - [VectorSearchService] (server/services/vectorSearch.ts)
      - [HuggingFaceApiService] (server/services/huggingFaceApi.ts)
      - [RAGPipelineService]  (server/services/ragPipeline.ts)

    together with the properties of the design document that concern them.

    Conventions.  A JavaScript string is a [string]: each character stands
    for one UTF-16 code unit below 256.  A JavaScript number is a binary64
    [float] (the kernel's primitive floats), except where the source only
    ever holds a small non-negative integer (lengths, indices, four-digit
    years), which is a [nat].  Asynchronous calls are awaited one after the
    other in the source, so they are sequenced in a small exception monad
    that also records the calls made to the outside world.  A promise of a
    collaborator is fulfilled or rejected ([Reply]); a function of the
    services returns, throws, or never resumes because the process exits
    on a stream error that nothing listens for ([Outcome]).
    [Array.prototype.sort] belongs to the engine and is a parameter of the
    model ([Engine]); what is assumed of it is ECMAScript's contract
    ([SortContract]), stated with the reference definitions. *)

From Stdlib Require Import List String Ascii Bool Arith ZArith Lia.
From Stdlib Require Import DecimalString Floats Sorting.Sorted Sorting.Permutation.
Import ListNotations.

Local Open Scope string_scope.
Local Open Scope list_scope.
Local Open Scope nat_scope.

(** String concatenation, the [+] of the source on strings. *)
Infix "+++" := String.append (right associativity, at level 60).

(** ** JavaScript string primitives *)

Module JsString.

(** [WhiteSpace] and [LineTerminator] code units below 256: TAB, LF, VT,
    FF, CR, SP and NBSP. *)
Definition isWhiteSpace (c : ascii) : bool :=
  let n := nat_of_ascii c in
  ((9 <=? n) && (n <=? 13)) || (n =? 32) || (n =? 160).

Fixpoint trimStart (s : string) : string :=
  match s with
  | EmptyString => EmptyString
  | String c r => if isWhiteSpace c then trimStart r else s
  end.

Fixpoint trimEnd (s : string) : string :=
  match s with
  | EmptyString => EmptyString
  | String c r =>
      match trimEnd r with
      | EmptyString => if isWhiteSpace c then EmptyString else String c EmptyString
      | r' => String c r'
      end
  end.

Definition trim (s : string) : string := trimEnd (trimStart s).

(** [String.prototype.toLowerCase] on code units below 256: the ASCII
    capitals and the Latin-1 capitals other than the multiplication
    sign. *)
Definition lowerChar (c : ascii) : ascii :=
  let n := nat_of_ascii c in
  if ((65 <=? n) && (n <=? 90))
     || ((192 <=? n) && (n <=? 222) && negb (n =? 215))
  then ascii_of_nat (n + 32) else c.

Fixpoint toLowerCase (s : string) : string :=
  match s with
  | EmptyString => EmptyString
  | String c r => String (lowerChar c) (toLowerCase r)
  end.

(** [toUpperCase] is only ever applied to the first letter of a word of
    the closed crop and state vocabularies, which are ASCII. *)
Definition upperChar (c : ascii) : ascii :=
  let n := nat_of_ascii c in
  if (97 <=? n) && (n <=? 122) then ascii_of_nat (n - 32) else c.

(** [s.charAt(0).toUpperCase() + s.slice(1)] *)
Definition capitalize (s : string) : string :=
  match s with
  | EmptyString => EmptyString
  | String c r => String (upperChar c) r
  end.

(** [s.includes(sub)] *)
Fixpoint includes (s sub : string) : bool :=
  String.prefix sub s
  || match s with
     | EmptyString => false
     | String _ r => includes r sub
     end.

(** [arr.join(sep)] *)
Definition join (sep : string) (l : list string) : string :=
  String.concat sep l.

(** [s.startsWith(p)] *)
Definition startsWith (s p : string) : bool := String.prefix p s.

(** [s.substring(n)] for [0 <= n]: the string without its first [n]
    code units. *)
Fixpoint drop (n : nat) (s : string) : string :=
  match n, s with
  | O, _ => s
  | S _, EmptyString => EmptyString
  | S k, String _ r => drop k r
  end.

(** [s.slice(-n)] for a count [n]: the last [n] code units, the whole
    string when it is shorter; [s.slice(-0)] is [s.slice(0)], the whole
    string. *)
Definition sliceLast (n : nat) (s : string) : string :=
  match n with
  | O => s
  | _ => drop (String.length s - n) s
  end.

(** Decimal rendering of a non-negative integer, as [String(n)] and
    template literals give it. *)
Definition ofN (n : N) : string := NilZero.string_of_uint (N.to_uint n).

Definition ofNat (n : nat) : string := ofN (N.of_nat n).

End JsString.

Import JsString.

(** ** JavaScript number primitives *)

Module JsNumber.

Local Open Scope Z_scope.

(** The binary64 number nearest to an integer (ties to even). *)
Definition ofZ (z : Z) : float :=
  SF2Prim (binary_normalize prec emax z 0 false).

Definition ofNat (n : nat) : float := ofZ (Z.of_nat n).

(** The binary64 number nearest to [m / d], for [0 < m] and [0 < d]. *)
Definition ofRatio (neg : bool) (m d : Z) : float :=
  let '(q, e, l) := SFdiv_core_binary prec emax m 0 d 0 in
  SF2Prim (binary_round_aux prec emax neg q e l).

(** The binary64 number nearest to [m * 10 ^ e10], with the sign [neg]. *)
Definition ofDecimal (neg : bool) (m e10 : Z) : float :=
  if m =? 0 then (if neg then (-0)%float else 0%float)
  else if 0 <=? e10
       then SF2Prim (binary_normalize prec emax
                       ((if neg then Z.opp m else m) * 10 ^ e10) 0 false)
       else ofRatio neg m (10 ^ (- e10)).

Definition isDigit (c : ascii) : bool :=
  let n := nat_of_ascii c in (48 <=? n)%nat && (n <=? 57)%nat.

Definition digitVal (c : ascii) : Z := Z.of_nat (nat_of_ascii c - 48).

(** The longest run of decimal digits at the head of [s]: its value read
    after [acc], the number of digits, and the rest of the string. *)
Fixpoint takeDigits (s : string) (acc : Z) (n : Z) : Z * Z * string :=
  match s with
  | String c r =>
      if isDigit c then takeDigits r (10 * acc + digitVal c) (n + 1)
      else (acc, n, s)
  | EmptyString => (acc, n, s)
  end.

Definition takeSign (s : string) : bool * string :=
  match s with
  | String "-"%char r => (true, r)
  | String "+"%char r => (false, r)
  | _ => (false, s)
  end.

(** The [ExponentPart] at the head of [s], 0 when there is none. *)
Definition takeExponent (s : string) : Z :=
  match s with
  | String c r =>
      if (Ascii.eqb c "e" || Ascii.eqb c "E")%bool then
        let '(eneg, r1) := takeSign r in
        let '(e, n, _) := takeDigits r1 0 0 in
        if n =? 0 then 0 else if eneg then - e else e
      else 0
  | EmptyString => 0
  end.

(** [parseFloat(s)]: leading white space is skipped, the longest prefix
    that is a [StrDecimalLiteral] is read, and its value is rounded to
    the nearest number; [NaN] when no prefix is one. *)
Definition parseFloat (s : string) : float :=
  let '(neg, s1) := takeSign (trimStart s) in
  if String.prefix "Infinity" s1
  then (if neg then neg_infinity else infinity)
  else
    let '(ip, ni, s2) := takeDigits s1 0 0 in
    let '(m, nf, s3) :=
      match s2 with
      | String "."%char r =>
          let '(m, nf, s3) := takeDigits r ip 0 in
          if (ni =? 0) && (nf =? 0) then (ip, 0, s2) else (m, nf, s3)
      | _ => (ip, 0, s2)
      end in
    if (ni =? 0) && (nf =? 0) then nan
    else ofDecimal neg m (takeExponent s3 - nf).

(** The exact value of a finite number, as a signed integer times a
    power of two. *)
Definition exact (x : float) : option (bool * Z * Z) :=
  match Prim2SF x with
  | S754_zero s => Some (s, 0, 0)
  | S754_finite s m e => Some (s, Zpos m, e)
  | _ => None
  end.

(** The integer nearest to [m * 2 ^ e * 100], the larger one on a tie. *)
Definition hundredths (m e : Z) : Z :=
  if 0 <=? e then m * 2 ^ e * 100
  else (2 * (m * 100) + 2 ^ (- e)) / (2 * 2 ^ (- e)).

Definition natString (z : Z) : string := JsString.ofN (Z.to_N z).

(** Strips the zeros at the end of a digit string. *)
Fixpoint stripZeros (s : string) : string :=
  match s with
  | EmptyString => EmptyString
  | String c r =>
      match stripZeros r with
      | EmptyString => if Ascii.eqb c "0" then EmptyString else String c EmptyString
      | r' => String c r'
      end
  end.

(** Exponent notation of the integer [v], whose significant digits are
    the shortest that denote the number: [d.ddde+n]. *)
Definition exponential (v : Z) : string :=
  let ds := natString v in
  let n := Nat.pred (String.length ds) in
  match stripZeros ds with
  | String d EmptyString => String d ("e+" +++ JsString.ofNat n)
  | String d r => String d ("." +++ r +++ "e+" +++ JsString.ofNat n)
  | EmptyString => "0"
  end.

(** [Number::toString] on an integer [x] of at least 22 digits: the
    fewest significant digits [k] such that some [k]-digit decimal rounds
    to the number, the nearest such decimal when there are two. *)
Fixpoint shortest (x : Z) (n : nat) (k : nat) (fuel : nat) : Z :=
  match fuel with
  | O => x
  | S f =>
      let p := 10 ^ Z.of_nat (n - k) in
      let lo := (x / p) * p in
      let hi := lo + p in
      let okLo := PrimFloat.eqb (ofZ lo) (ofZ x) in
      let okHi := PrimFloat.eqb (ofZ hi) (ofZ x) in
      if (okLo && okHi)%bool then (if x - lo <=? hi - x then lo else hi)
      else if okLo then lo
      else if okHi then hi
      else shortest x n (S k) f
  end.

Definition toStringLarge (m e : Z) : string :=
  let x := m * 2 ^ e in
  let n := String.length (natString x) in
  exponential (shortest x n 1 n).

(** Inserts the decimal point before the last two digits. *)
Definition pointTwo (n : Z) : string :=
  let ds := natString n in
  let ds := match String.length ds with
            | 1%nat => "00" +++ ds
            | 2%nat => "0" +++ ds
            | _ => ds
            end in
  let k := (String.length ds - 2)%nat in
  String.substring 0 k ds +++ "." +++ JsString.drop k ds.

(** [x.toFixed(2)] *)
Definition toFixed2 (x : float) : string :=
  match exact x with
  | None =>
      if PrimFloat.is_nan x then "NaN"
      else if PrimFloat.ltb x 0 then "-Infinity" else "Infinity"
  | Some (s, m, e) =>
      if PrimFloat.leb 1e21 (PrimFloat.abs x)
      then (if s then "-" else "") +++ toStringLarge m e
      else (if PrimFloat.ltb x 0 then "-" else "") +++ pointTwo (hundredths m e)
  end.

End JsNumber.

(** ** Data model *)

(** A parsed CSV row: the entries of the row object in the order
    [Object.entries] enumerates them, values as the parser yields them. *)
Definition Row : Type := list (string * string).

(** The metadata [chunkText] receives from its caller. *)
Inductive DocMetadata : Type :=
| NoDoc
| TextDoc
| PdfDoc (totalPages : nat).

(** The metadata the data processor attaches to a chunk. *)
Inductive ChunkMetadata : Type :=
| CsvRowMeta (rowIndex : nat) (originalData : Row)
| CsvSummaryMeta (headers : list string) (totalRows : nat)
| TextMeta (doc : DocMetadata) (chunkIndex : nat) (length : nat).

Record TextChunk : Type := mkTextChunk {
  tc_content : string;
  tc_metadata : ChunkMetadata
}.

(** ** DataProcessor *)

Module DataProcessor.

(** *** processCSV, on the rows the CSV parser delivered *)

Definition rowContent (row : Row) : string :=
  join ", " (map (fun kv => fst kv +++ ": " +++ snd kv) row).

(** [rows.forEach((row, index) => chunks.push(...))], from index [i]. *)
Fixpoint rowChunks (i : nat) (rows : list Row) : list TextChunk :=
  match rows with
  | [] => []
  | row :: rest =>
      mkTextChunk (rowContent row) (CsvRowMeta i row) :: rowChunks (S i) rest
  end.

Definition summaryContent (headers : list string) (n : nat) : string :=
  "CSV Dataset with columns: " +++ join ", " headers
    +++ ". Total rows: " +++ JsString.ofNat n.

Definition processCSV (rows : list Row) : list TextChunk :=
  rowChunks 0 rows
  ++ match rows with
     | [] => []
     | first :: _ =>
         let headers := map fst first in
         [mkTextChunk (summaryContent headers (List.length rows))
                      (CsvSummaryMeta headers (List.length rows))]
     end.

(** *** chunkText *)

Definition isTerminator (c : ascii) : bool :=
  Ascii.eqb c "." || Ascii.eqb c "!" || Ascii.eqb c "?".

(** [text.split(/[.!?]+/)]: [inRun] tells that the preceding character
    belonged to a run of terminators, which separates two pieces once. *)
Fixpoint splitSentences (inRun : bool) (s : string) : list string :=
  match s with
  | EmptyString => [EmptyString]
  | String c r =>
      if isTerminator c then
        if inRun then splitSentences true r
        else EmptyString :: splitSentences true r
      else
        match splitSentences false r with
        | piece :: rest => String c piece :: rest
        | [] => [String c EmptyString]
        end
  end.

Definition sentencesOf (text : string) : list string :=
  filter (fun s => 0 <? String.length (trim s)) (splitSentences false text).

(** The variables of the loop of [chunkText]. *)
Record ChunkState : Type := mkChunkState {
  chunks : list TextChunk;
  currentChunk : string;
  currentLength : nat
}.

Definition pushChunk (doc : DocMetadata) (st : ChunkState) : list TextChunk :=
  chunks st
  ++ [mkTextChunk (trim (currentChunk st))
        (TextMeta doc (List.length (chunks st)) (String.length (currentChunk st)))].

(** One iteration of [for (const sentence of sentences)]. *)
Definition chunkStep (doc : DocMetadata) (chunkSize overlap : nat)
           (st : ChunkState) (sentence : string) : ChunkState :=
  let sentenceLength := String.length sentence in
  if (chunkSize <? currentLength st + sentenceLength)
     && (0 <? String.length (currentChunk st))
  then
    let overlapText := sliceLast overlap (currentChunk st) in
    mkChunkState (pushChunk doc st)
                 (overlapText +++ sentence)
                 (String.length overlapText + sentenceLength)
  else
    mkChunkState (chunks st)
                 (currentChunk st +++ sentence +++ ". ")
                 (currentLength st + sentenceLength).

Definition chunkLoop (doc : DocMetadata) (chunkSize overlap : nat)
           (sentences : list string) : ChunkState :=
  fold_left (chunkStep doc chunkSize overlap) sentences
            (mkChunkState [] EmptyString 0).

Definition chunkText (text : string) (doc : DocMetadata)
           (chunkSize overlap : nat) : list TextChunk :=
  let st := chunkLoop doc chunkSize overlap (sentencesOf text) in
  if 0 <? String.length (trim (currentChunk st))
  then pushChunk doc st
  else chunks st.

Definition defaultChunkSize : nat := 1000.
Definition defaultOverlap : nat := 200.

(** *** detectComputationalQuery *)

Definition computationKeywords : list string :=
  ["sum"; "total"; "average"; "mean"; "calculate"; "computation";
   "between"; "from"; "till"; "combined"; "aggregate"; "statistics"].

Definition detectComputationalQuery (query : string) : bool :=
  existsb (fun keyword => includes (toLowerCase query) keyword)
          computationKeywords.

(** *** performAgriculturalComputation *)

Definition crops : list string :=
  ["rice"; "wheat"; "maize"; "jowar"; "bajra"; "ragi"; "cotton"; "sugarcane"].

Definition states : list string :=
  ["andhra pradesh"; "assam"; "kerala"; "manipur"; "maharashtra";
   "madhya pradesh"; "punjab"; "tamil nadu"; "orissa"; "karnataka";
   "gujarat"].

Definition digitOf (c : ascii) : option nat :=
  if JsNumber.isDigit c then Some (nat_of_ascii c - 48) else None.

(** [query.match(/\d{4}/g)] followed by [parseInt] on each match: the
    scan resumes after a match, and one character further otherwise. *)
Fixpoint yearMatches (fuel : nat) (s : string) : list nat :=
  match fuel with
  | O => []
  | S f =>
      match s with
      | String a (String b (String c (String d r))) =>
          match digitOf a, digitOf b, digitOf c, digitOf d with
          | Some x, Some y, Some z, Some w =>
              (1000 * x + 100 * y + 10 * z + w) :: yearMatches f r
          | _, _, _, _ => yearMatches f (String b (String c (String d r)))
          end
      | _ => []
      end
  end.

Definition extractYears (query : string) : list nat :=
  yearMatches (String.length query) query.

Definition rowText (row : Row) : string :=
  toLowerCase (join " " (map snd row)).

Definition rowMatches (crop : string) (state : option string) (row : Row) : bool :=
  let hasCrop := includes (rowText row) crop in
  let hasState := match state with
                  | None => true
                  | Some s => includes (rowText row) s
                  end in
  hasCrop && hasState.

Definition keyHasYear (years : list nat) (key : string) : bool :=
  match years with
  | [] => true
  | _ => existsb (fun year => includes key (JsString.ofNat year)) years
  end.

(** The numbers pushed onto [values] while one row is visited. *)
Definition rowValues (years : list nat) (row : Row) : list float :=
  flat_map (fun kv =>
              if keyHasYear years (fst kv) then
                let numValue := JsNumber.parseFloat (snd kv) in
                if PrimFloat.is_nan numValue then [] else [numValue]
              else [])
           row.

Definition minYear (years : list nat) : nat :=
  match years with
  | [] => 0
  | y :: r => fold_left Nat.min r y
  end.

Definition maxYear (years : list nat) : nat :=
  match years with
  | [] => 0
  | y :: r => fold_left Nat.max r y
  end.

Definition performAgriculturalComputation (query : string)
           (csvData : list Row) : string :=
  let queryLower := toLowerCase query in
  let crop := find (fun c => includes queryLower c) crops in
  let state := find (fun s => includes queryLower s) states in
  let years := extractYears query in
  match crop with
  | None => "Please specify a crop for computation (e.g., rice, wheat, maize)."
  | Some crop =>
      let filteredData := filter (rowMatches crop state) csvData in
      match filteredData with
      | [] =>
          "No data found for " +++ crop
            +++ match state with
                | Some s => " in " +++ s
                | None => ""
                end +++ "."
      | _ =>
          let values := flat_map (rowValues years) filteredData in
          match values with
          | [] => "No numeric data found for computation."
          | _ =>
              let total := fold_left PrimFloat.add values 0%float in
              let average :=
                PrimFloat.div total (JsNumber.ofNat (List.length values)) in
              let yearRange :=
                match years with
                | [] => "available years"
                | _ => JsString.ofNat (minYear years) +++ "-"
                         +++ JsString.ofNat (maxYear years)
                end in
              let stateText :=
                match state with
                | Some s => " in " +++ capitalize s
                | None => ""
                end in
              "Computation Results for " +++ capitalize crop +++ stateText
                +++ " (" +++ yearRange +++ "):" +++ String "010" (
              "Total: " +++ JsNumber.toFixed2 total +++ String "010" (
              "Average: " +++ JsNumber.toFixed2 average +++ String "010" (
              "Data points: " +++ JsString.ofNat (List.length values))))
          end
      end
  end.

End DataProcessor.

(** ** MemStorage: chunks and their similarity search *)

(** The fields of the open JSON metadata of a stored chunk that the
    pipeline reads back. *)
Record Metadata : Type := mkMetadata {
  md_fileName : option string;
  md_type : option string
}.

Record Chunk : Type := mkChunk {
  ch_id : string;
  ch_datasetId : option string;
  ch_content : string;
  ch_embedding : option (list float);
  ch_metadata : option Metadata
}.

Record Dataset : Type := mkDataset {
  ds_id : string;
  ds_name : string;
  ds_fileType : string;
  ds_filePath : string;
  ds_status : string
}.

(** [Array.prototype.sort] is the engine's: a function from a comparator
    and an array to an array. *)
Record Engine : Type := mkEngine {
  arraySort : forall A : Type, (A -> A -> float) -> list A -> list A
}.
Arguments arraySort _ {A} _ _.

Module MemStorage.

Local Open Scope float_scope.

(** [a.reduce((sum, ai, i) => sum + ai * b[i], 0)], from index [i]: an
    index past the end of [b] reads [undefined], which multiplies to
    [NaN]. *)
Fixpoint dotFrom (i : nat) (a b : list float) (sum : float) : float :=
  match a with
  | [] => sum
  | ai :: r => dotFrom (S i) r b (sum + ai * nth i b nan)
  end.

Definition dotProduct (a b : list float) : float := dotFrom 0 a b 0.

Definition magnitude (a : list float) : float :=
  sqrt (fold_left (fun sum ai => sum + ai * ai) a 0).

Definition cosineSimilarity (a b : list float) : float :=
  dotProduct a b / (magnitude a * magnitude b).

(** An item of [chunksWithScores]. *)
Record Scored : Type := mkScored {
  sc_chunk : Chunk;
  sc_score : float
}.

(** The comparator handed to [sort]. *)
Definition compareScores (a b : Scored) : float := sc_score b - sc_score a.

(** [arr.slice(0, limit)] for an integer [limit]: a negative limit counts
    from the end. *)
Definition sliceTo {A : Type} (limit : Z) (l : list A) : list A :=
  if (0 <=? limit)%Z then firstn (Z.to_nat limit) l
  else firstn (List.length l - Z.to_nat (- limit)) l.

(** [chunk.embedding && chunk.embedding.length > 0] *)
Definition hasEmbedding (chunk : Chunk) : bool :=
  match ch_embedding chunk with
  | Some (_ :: _) => true
  | _ => false
  end.

Definition embeddingOf (chunk : Chunk) : list float :=
  match ch_embedding chunk with
  | Some e => e
  | None => []
  end.

Definition scoreChunk (embedding : list float) (chunk : Chunk) : Scored :=
  mkScored chunk (cosineSimilarity embedding (embeddingOf chunk)).

(** [searchChunksByEmbedding]; [chunks] are the values of the chunk map,
    which a [Map] enumerates in insertion order, and the sort is the
    engine's. *)
Definition searchChunksByEmbedding (engine : Engine) (chunks : list Chunk)
           (embedding : list float) (limit : Z) : list Chunk :=
  let chunksWithScores :=
    sliceTo limit
      (arraySort engine compareScores
         (map (scoreChunk embedding) (filter hasEmbedding chunks))) in
  map sc_chunk chunksWithScores.

Definition defaultLimit : Z := 5.

(** [getAllDatasets] is the list of values of the dataset map. *)

End MemStorage.

(** ** Effects: exceptions and calls to the outside world *)

(** How the promise of a collaborator settles. *)
Inductive Reply (A : Type) : Type :=
| Fulfilled (a : A)
| Rejected (message : string).
Arguments Fulfilled {A} a.
Arguments Rejected {A} message.

(** What [fs.createReadStream(path).pipe(csvParser())] comes to.  The
    parser ends, with the rows; or the parser emits ['error'], the one
    stream on which the code listens for it; or the file stream emits
    ['error'] (the file cannot be opened or read), for which no listener
    is installed. *)
Inductive CsvStream : Type :=
| StreamEnd (rows : list Row)
| ParserError (message : string)
| FileError (message : string).

(** How a function of the services ends: it returns, it throws, or the
    process exits on an ['error'] event without listener, so that the
    function never resumes and no caller sees an outcome. *)
Inductive Outcome (A : Type) : Type :=
| Returned (a : A)
| Thrown (message : string)
| Exited.
Arguments Returned {A} a.
Arguments Thrown {A} message.
Arguments Exited {A}.

(** The calls that leave the process. *)
Inductive Event : Type :=
| EvEmbed (text : string)
| EvReadCsv (filePath : string)
| EvPost (model prompt : string).

(** A computation takes the calls made so far and gives its outcome and
    the calls made once it is over. *)
Definition Eff (A : Type) : Type := list Event -> Outcome A * list Event.

Definition ret {A} (a : A) : Eff A := fun log => (Returned a, log).

Definition throw {A} (message : string) : Eff A := fun log => (Thrown message, log).

Definition bind {A B} (m : Eff A) (k : A -> Eff B) : Eff B :=
  fun log =>
    match m log with
    | (Returned a, log') => k a log'
    | (Thrown e, log') => (Thrown e, log')
    | (Exited, log') => (Exited, log')
    end.

(** [try { body } catch (error) { handler }]: the handler sees what is
    thrown; nothing runs once the process has exited. *)
Definition tryCatch {A} (body : Eff A) (handler : string -> Eff A) : Eff A :=
  fun log =>
    match body log with
    | (Returned a, log') => (Returned a, log')
    | (Thrown e, log') => handler e log'
    | (Exited, log') => (Exited, log')
    end.

(** [await promise]: a fulfilled promise gives its value, a rejected one
    throws. *)
Definition await {A} (reply : Reply A) : Outcome A :=
  match reply with
  | Fulfilled a => Returned a
  | Rejected e => Thrown e
  end.

(** The promise built around a CSV stream: resolved on the parser's
    ['end'], rejected on the parser's ['error']; an ['error'] of the file
    stream is thrown out of the event loop. *)
Definition awaitStream (stream : CsvStream) : Outcome (list Row) :=
  match stream with
  | StreamEnd rows => Returned rows
  | ParserError e => Thrown e
  | FileError _ => Exited
  end.

(** A call that leaves the process: the call is recorded, then its outcome
    is the computation's. *)
Definition call {A} (ev : Event) (result : Outcome A) : Eff A :=
  fun log => (result, log ++ [ev]).

Notation "x <- m ;; k" := (bind m (fun x => k))
  (at level 61, m at next level, right associativity).

(** The payload of a reply of the inference endpoint. *)
Record Generation : Type := mkGeneration {
  generated_text : option string;
  text : option string
}.

Inductive HFData : Type :=
| DataArray (items : list Generation)
| DataObject (item : Generation).

(** The outside world of one request: the engine, the configured key, the
    embedding service, the inference endpoint and the file system, and the
    contents of the store. *)
Record World : Type := mkWorld {
  engine : Engine;
  apiKey : string;
  generateEmbedding : string -> Reply (list float);
  post : string -> string -> Reply HFData;
  readCsv : string -> CsvStream;
  storedChunks : list Chunk;
  storedDatasets : list Dataset
}.

(** [a || b] on strings that may be undefined: the first that is neither
    undefined nor empty. *)
Definition truthy (o : option string) : bool :=
  match o with
  | Some s => negb (String.eqb s "")
  | None => false
  end.

Definition orElse (o : option string) (d : string) : string :=
  match o with
  | Some s => if String.eqb s "" then d else s
  | None => d
  end.

(** ** The services of one request *)

Section Services.

Variable w : World.

(** *** HuggingFaceApiService *)

Definition generateFallbackResponse (prompt : string) : string :=
  if includes (toLowerCase prompt) "computation"
     || includes (toLowerCase prompt) "calculate"
  then "I understand you're asking for computational analysis. Please provide your agricultural data and I'll help you calculate the statistics you need."
  else if includes (toLowerCase prompt) "crop"
          || includes (toLowerCase prompt) "farming"
  then "I'm here to help with agricultural questions. I can assist with crop information, farming practices, weather guidance, and data analysis. What specific agricultural topic would you like to know about?"
  else "I'm an agricultural AI assistant. I can help you with farming questions, crop data analysis, weather information, and agricultural best practices. How can I assist you today?".

Definition generatedText (data : HFData) : string :=
  match data with
  | DataArray (first :: _) =>
      if truthy (generated_text first)
      then orElse (generated_text first) ""
      else orElse (text first) ""
  | DataArray [] => "No response generated"
  | DataObject item =>
      if truthy (generated_text item)
      then orElse (generated_text item) ""
      else orElse (text item) "No response generated"
  end.

Definition generateResponse (prompt model : string) : Eff string :=
  tryCatch
    (data <- call (EvPost model prompt) (await (post w model prompt)) ;;
     ret (generatedText data))
    (fun _ =>
       if String.eqb (apiKey w) ""
       then ret (generateFallbackResponse prompt)
       else throw "Failed to generate response from Hugging Face API").

(** *** VectorSearchService *)

Definition searchSimilarChunks (query : string) (topK : Z) : Eff (list Chunk) :=
  tryCatch
    (queryEmbedding <- call (EvEmbed query) (await (generateEmbedding w query)) ;;
     ret (MemStorage.searchChunksByEmbedding (engine w) (storedChunks w)
            queryEmbedding topK))
    (fun _ => throw "Vector search failed").

(** *** RAGPipelineService *)

Inductive ResponseMetadata : Type :=
| ComputationInfo (datasetCount : nat) (computationType : string) (totalRows : nat)
| RetrievalInfo (chunksRetrieved : nat) (model : string).

Record RAGResponse : Type := mkRAGResponse {
  answer : string;
  sources : list string;
  isComputation : bool;
  metadata : option ResponseMetadata
}.

Definition noDatasetsAnswer : string :=
  "No CSV datasets available for computation. Please upload agricultural data first.".

Definition unableToLoadAnswer : string :=
  "Unable to load CSV data for computation. Please check your uploaded files.".

Definition computationErrorAnswer : string :=
  "Error processing computational query. Please check your query format and try again.".

Definition insufficientKnowledgeAnswer : string :=
  "I don't have enough information in my knowledge base to answer that question. Please provide more context or upload relevant documents.".

Definition loadCsvData (filePath : string) : Eff (list Row) :=
  call (EvReadCsv filePath) (awaitStream (readCsv w filePath)).

(** [for (const dataset of csvDatasets)]: a file whose promise is rejected
    is logged and skipped. *)
Fixpoint loadAll (csvDatasets : list Dataset) (allCsvData : list Row)
  : Eff (list Row) :=
  match csvDatasets with
  | [] => ret allCsvData
  | dataset :: rest =>
      allCsvData' <-
        tryCatch
          (csvData <- loadCsvData (ds_filePath dataset) ;;
           ret (allCsvData ++ csvData))
          (fun _ => ret allCsvData) ;;
      loadAll rest allCsvData'
  end.

Definition isReadyCsv (d : Dataset) : bool :=
  String.eqb (ds_fileType d) "csv" && String.eqb (ds_status d) "ready".

Definition handleComputationalQuery (query : string) : Eff RAGResponse :=
  tryCatch
    (let datasets := storedDatasets w in
     let csvDatasets := filter isReadyCsv datasets in
     match csvDatasets with
     | [] => ret (mkRAGResponse noDatasetsAnswer [] true None)
     | _ =>
         allCsvData <- loadAll csvDatasets [] ;;
         match allCsvData with
         | [] =>
             ret (mkRAGResponse unableToLoadAnswer
                    (map ds_name csvDatasets) true None)
         | _ =>
             let computationResult :=
               DataProcessor.performAgriculturalComputation query allCsvData in
             ret (mkRAGResponse computationResult
                    (map ds_name csvDatasets) true
                    (Some (ComputationInfo (List.length csvDatasets)
                             "agricultural_statistics"
                             (List.length allCsvData))))
         end
     end)
    (fun _ => ret (mkRAGResponse computationErrorAnswer [] true None)).

Definition createRAGPrompt (query context language : string) : string :=
  let languageInstruction :=
    if String.eqb language "english" then ""
    else "Please respond in " +++ language +++ ". " in
  "You are an expert agricultural assistant with access to agricultural datasets and research documents. 
" +++ languageInstruction +++ "Use the following context to answer the user's question clearly and accurately.

Context:
" +++ context +++ "

Question: " +++ query +++ "

Instructions:
- Provide accurate, helpful information based on the context
- If the context doesn't contain enough information, say so clearly
- Focus on practical agricultural advice and data-driven insights
- Be concise but comprehensive
- If relevant, mention specific data points or statistics from the context

Answer:".

Definition unwantedPrefixes : list string := ["Answer:"; "Response:"; "A:"].

Definition postProcessResponse (response : string) : string :=
  fold_left
    (fun cleanedResponse prefix =>
       if startsWith cleanedResponse prefix
       then trim (JsString.drop (String.length prefix) cleanedResponse)
       else cleanedResponse)
    unwantedPrefixes (trim response).

(** [metadata?.fileName] and [metadata?.type] *)
Definition fileNameOf (chunk : Chunk) : option string :=
  match ch_metadata chunk with
  | Some md => md_fileName md
  | None => None
  end.

Definition typeOf (chunk : Chunk) : option string :=
  match ch_metadata chunk with
  | Some md => md_type md
  | None => None
  end.

(** The label of one retrieved chunk. *)
Definition sourceOf (chunk : Chunk) : string :=
  if truthy (fileNameOf chunk) then orElse (fileNameOf chunk) ""
  else
    match typeOf chunk with
    | Some t =>
        if String.eqb t "csv_summary" || String.eqb t "csv_row"
        then "CSV Dataset"
        else orElse (typeOf chunk) "Unknown source"
    | None => "Unknown source"
    end.

(** [arr.indexOf(x)], counted from [i]. *)
Fixpoint indexOfFrom (i : nat) (arr : list string) (x : string) : option nat :=
  match arr with
  | [] => None
  | y :: r => if String.eqb y x then Some i else indexOfFrom (S i) r x
  end.

Definition indexOf (arr : list string) (x : string) : option nat :=
  indexOfFrom 0 arr x.

(** [l.filter((source, index, arr) => arr.indexOf(source) === index)],
    visiting [l] from index [i]. *)
Fixpoint keepFirstFrom (i : nat) (arr l : list string) : list string :=
  match l with
  | [] => []
  | source :: r =>
      match indexOf arr source with
      | Some j => if j =? i then source :: keepFirstFrom (S i) arr r
                  else keepFirstFrom (S i) arr r
      | None => keepFirstFrom (S i) arr r
      end
  end.

Definition removeDuplicates (arr : list string) : list string :=
  keepFirstFrom 0 arr arr.

Definition extractSources (relevantChunks : list Chunk) : list string :=
  removeDuplicates (map sourceOf relevantChunks).

Definition handleRAGQuery (query model language : string) : Eff RAGResponse :=
  relevantChunks <- searchSimilarChunks query 5 ;;
  match relevantChunks with
  | [] => ret (mkRAGResponse insufficientKnowledgeAnswer [] false None)
  | _ =>
      let context := join (String "010" (String "010" EmptyString))
                          (map ch_content relevantChunks) in
      let prompt := createRAGPrompt query context language in
      response <- generateResponse prompt model ;;
      let processedResponse := postProcessResponse response in
      ret (mkRAGResponse processedResponse
             (extractSources relevantChunks) false
             (Some (RetrievalInfo (List.length relevantChunks) model)))
  end.

Definition processQuery (query model language : string) : Eff RAGResponse :=
  tryCatch
    (if DataProcessor.detectComputationalQuery query
     then handleComputationalQuery query
     else handleRAGQuery query model language)
    (fun _ => throw "Failed to process query").

End Services.

Definition defaultModel : string := "google/gemma-2b-it".
Definition defaultLanguage : string := "english".

(** ** Reference definitions and sample inputs *)

(** Deduplication as the design document words it: a label is kept when it
    has not been seen before, in the order of first appearance. *)
Fixpoint firstSeen (seen l : list string) : list string :=
  match l with
  | [] => []
  | x :: r =>
      if existsb (String.eqb x) seen then firstSeen seen r
      else x :: firstSeen (seen ++ [x]) r
  end.

(** A metadata field is present when it holds a non-empty string, which is
    what the source's test of the field accepts. *)
Definition present (o : option string) (s : string) : Prop :=
  o = Some s /\ s <> "".

Definition absent (o : option string) : Prop :=
  o = None \/ o = Some "".

(** A string of white space only. *)
Fixpoint blank (s : string) : bool :=
  match s with
  | EmptyString => true
  | String c r => isWhiteSpace c && blank r
  end.

(** A text with a character that is neither white space nor a sentence
    terminator. *)
Fixpoint hasContent (s : string) : bool :=
  match s with
  | EmptyString => false
  | String c r =>
      (negb (isWhiteSpace c) && negb (DataProcessor.isTerminator c)) || hasContent r
  end.

(** The sentences packed into one buffer, each followed by ". ". *)
Fixpoint packed (sentences : list string) : string :=
  match sentences with
  | [] => EmptyString
  | s :: r => s +++ ". " +++ packed r
  end.

(** The chunks pushed for the buffers [bs], the first with index [i]: the
    content of a chunk is its buffer trimmed, and its metadata records the
    index and the length of the buffer. *)
Fixpoint bufferChunks (doc : DocMetadata) (i : nat) (bs : list string) : list TextChunk :=
  match bs with
  | [] => []
  | b :: r =>
      mkTextChunk (trim b) (TextMeta doc i (String.length b))
        :: bufferChunks doc (S i) r
  end.

(** Each buffer after the first begins with the last [overlap] characters
    of the buffer before it. *)
Definition OverlapChain (overlap : nat) (bs : list string) : Prop :=
  forall i b1 b2,
    nth_error bs i = Some b1 ->
    nth_error bs (S i) = Some b2 ->
    exists rest, b2 = sliceLast overlap b1 +++ rest.

(** The lines of the context block of a retrieval. *)
Definition contextOf (relevantChunks : list Chunk) : string :=
  join (String "010" (String "010" EmptyString)) (map ch_content relevantChunks).


(** The file stream of a dataset fails, and the datasets a computational
    query reads of which this is so. *)
Definition fileFails (w : World) (d : Dataset) : bool :=
  match readCsv w (ds_filePath d) with
  | FileError _ => true
  | _ => false
  end.

Definition unreadableCsv (w : World) : bool :=
  existsb (fileFails w) (filter isReadyCsv (storedDatasets w)).

(** The buffers [chunkText] pushes, read off its loop: the value of
    [currentChunk] at each [chunks.push], in the loop and after it. *)
Fixpoint buffersFrom (chunkSize overlap : nat) (currentChunk : string)
         (currentLength : nat) (sentences : list string) : list string :=
  match sentences with
  | [] =>
      if 0 <? String.length (trim currentChunk) then [currentChunk] else []
  | sentence :: rest =>
      if (chunkSize <? currentLength + String.length sentence)
         && (0 <? String.length currentChunk)
      then
        currentChunk
          :: buffersFrom chunkSize overlap
               (sliceLast overlap currentChunk +++ sentence)
               (String.length (sliceLast overlap currentChunk)
                + String.length sentence)
               rest
      else
        buffersFrom chunkSize overlap (currentChunk +++ sentence +++ ". ")
                    (currentLength + String.length sentence) rest
  end.

Definition buffersOf (text : string) (chunkSize overlap : nat) : list string :=
  buffersFrom chunkSize overlap EmptyString 0 (DataProcessor.sentencesOf text).

(** The characters of a list of strings, counted. *)
Fixpoint totalLength (l : list string) : nat :=
  match l with
  | [] => 0
  | s :: r => String.length s + totalLength r
  end.

(** What holds between the variables of the loop of [chunkText] and the
    buffers pushed so far. *)
Definition ChunkInv (doc : DocMetadata) (overlap : nat)
           (st : DataProcessor.ChunkState) (bs : list string) : Prop :=
  DataProcessor.chunks st = bufferChunks doc 0 bs
  /\ OverlapChain overlap bs
  /\ (forall pre b, bs = pre ++ [b] ->
                    exists rest,
                      DataProcessor.currentChunk st = sliceLast overlap b +++ rest).

(** *** The order of numbers

    A number that is not [NaN] has a place in the lexicographic order of
    triples of integers: the infinities at the ends, the zeros in the
    middle, the finite numbers by sign, exponent and mantissa. *)
Module FloatOrder.

Local Open Scope Z_scope.

Definition key (f : spec_float) : Z * Z * Z :=
  match f with
  | S754_nan => (0, 0, 0)
  | S754_zero _ => (0, 0, 0)
  | S754_infinity true => (-2, 0, 0)
  | S754_infinity false => (2, 0, 0)
  | S754_finite true m e => (-1, - e, Zneg m)
  | S754_finite false m e => (1, e, Zpos m)
  end.

Definition lexCompare (a b : Z * Z * Z) : comparison :=
  let '(a1, a2, a3) := a in
  let '(b1, b2, b3) := b in
  match a1 ?= b1 with
  | Eq => match a2 ?= b2 with
          | Eq => a3 ?= b3
          | c => c
          end
  | c => c
  end.

Definition lexLe (a b : Z * Z * Z) : Prop := lexCompare a b <> Gt.

Definition isNaN (f : spec_float) : bool :=
  match f with S754_nan => true | _ => false end.

Definition isZero (f : spec_float) : bool :=
  match f with S754_zero _ => true | _ => false end.

Definition isZeroOrNaN (f : spec_float) : bool :=
  match f with S754_zero _ | S754_nan => true | _ => false end.

Definition isInfOrNaN (f : spec_float) : bool :=
  match f with S754_infinity _ | S754_nan => true | _ => false end.

End FloatOrder.

(** The similarity of a stored chunk to a query vector, and the chunks tied
    at a similarity [s]. *)
Definition similarityTo (q : list float) (chunk : Chunk) : float :=
  MemStorage.cosineSimilarity q (MemStorage.embeddingOf chunk).





(** A vector of zeros, of either sign. *)
Definition zeroVector (a : list float) : Prop :=
  Forall (fun x => PrimFloat.is_zero x = true) a.

(** The sum of the squares of a vector, as [magnitude] accumulates it. *)
Definition sumSquares (a : list float) : float :=
  fold_left (fun sum ai => (sum + ai * ai)%float) a 0%float.

(** *** The engine's sort

    What ECMAScript asks of [Array.prototype.sort] (ECMA-262, 23.1.3.30).
    The engine reads the comparator through [SortCompare], which turns a
    [NaN] into [+0]: only the sign of the result counts, and a [NaN] is a
    tie. *)
Section Comparator.
Context {A : Type} (comparefn : A -> A -> float).

(** [a <CF b], [a >CF b] and [a =CF b] *)
Definition sortsBefore (a b : A) : bool := (comparefn a b <? 0)%float.

Definition sortsAfter (a b : A) : bool := (0 <? comparefn a b)%float.

Definition sortsEqual (a b : A) : bool :=
  negb (sortsBefore a b) && negb (sortsAfter a b).

(** The comparator is consistent for the elements of [l]: the five
    conditions of the standard. *)
Definition ConsistentOn (l : list A) : Prop :=
  forall a b c, In a l -> In b l -> In c l ->
    sortsEqual a a = true
    /\ (sortsEqual a b = true -> sortsEqual b a = true)
    /\ (sortsEqual a b = true -> sortsEqual b c = true -> sortsEqual a c = true)
    /\ (sortsBefore a b = true -> sortsBefore b c = true -> sortsBefore a c = true)
    /\ (sortsAfter a b = true -> sortsAfter b c = true -> sortsAfter a c = true).

(** The sort order of the standard: [result] holds the elements of [l],
    no element stands before one that sorts before it, and the elements
    that compare equal keep the order they had in [l]. *)
Definition SortOrder (l result : list A) : Prop :=
  Permutation result l
  /\ StronglySorted (fun x y => sortsBefore y x = false) result
  /\ forall a, In a l -> filter (sortsEqual a) result = filter (sortsEqual a) l.

(** A stable sort by insertion, which the contract is compared with: each
    element is put into the sorted rest of the array, after the elements
    it sorts after. *)
Fixpoint insert (x : A) (l : list A) : list A :=
  match l with
  | [] => [x]
  | y :: r => if sortsAfter x y then y :: insert x r else x :: l
  end.

Fixpoint insertionSort (l : list A) : list A :=
  match l with
  | [] => []
  | x :: r => insert x (insertionSort r)
  end.
End Comparator.

(** The contract: the engine's sort only rearranges, and gives the sort
    order of the standard whenever the comparator is consistent for the
    array.  For a comparator that is not, nothing is said of the order: it
    is the implementation's. *)
Definition SortContract (engine : Engine) : Prop :=
  forall (A : Type) (comparefn : A -> A -> float) (l : list A),
    Permutation (arraySort engine comparefn l) l
    /\ (ConsistentOn comparefn l ->
        SortOrder comparefn l (arraySort engine comparefn l)).

(** An engine that sorts by insertion, for the sample deployments. *)
Definition referenceEngine : Engine := mkEngine (@insertionSort).

Ltac run_eff :=
  unfold bind, tryCatch, call, ret, throw, await, awaitStream in *; simpl in *.

Module Samples.

Definition wheatChunk : Chunk :=
  mkChunk "c-1" (Some "d-1") "Wheat is sown in November."
          (Some [1%float; 0%float])
          (Some (mkMetadata (Some "wheat.txt") (Some "text"))).



(** A deployment whose store holds no chunk. *)
Definition emptyIndex : World :=
  mkWorld referenceEngine "hf_key"
          (fun _ => Fulfilled [1%float; 1%float])
          (fun _ _ => Fulfilled (DataArray []))
          (fun _ => FileError "ENOENT")
          [] [].



Definition wheatQuestion : string :=
  "What are the best practices for wheat cultivation?".

Definition originQuestion : string := "Where does basmati rice come from?".

Definition riceQuery : string :=
  "What is the total rice production in Punjab from 2020 to 2022?".

(** The row of the example, its entries as written, and as a JavaScript
    object enumerates them (integer-like keys first). *)
Definition riceRow : Row :=
  [("crop", "rice"); ("state", "punjab"); ("2020", "100"); ("2021", "120")].

Definition riceRowEnumerated : Row :=
  [("2020", "100"); ("2021", "120"); ("crop", "rice"); ("state", "punjab")].

Definition riceResult : string :=
  "Computation Results for Rice in Punjab (2020-2022):
Total: 100.00
Average: 100.00
Data points: 1".

Definition wheatRow : Row :=
  [("crop", "wheat"); ("state", "kerala"); ("2020", "7.5")].

Fixpoint repeatChar (c : ascii) (n : nat) : string :=
  match n with
  | O => EmptyString
  | S k => String c (repeatChar c k)
  end.

(** Two sentences of 600 characters each. *)
Definition twoLongSentences : string :=
  repeatChar "a" 600 +++ "." +++ repeatChar "b" 600.

Definition spacesOnly : string := "   ".

Definition greeting : string := "Hello! World?".

(** Stored chunks for a search along the first axis. *)
Definition alongAxis : list float := [1%float; 0%float].

Definition diagonalChunk : Chunk :=
  mkChunk "c-low" None "diagonal" (Some [1%float; 1%float]) None.


Definition axisChunk : Chunk :=
  mkChunk "c-high" None "axis" (Some [1%float; 0%float]) None.

Definition pendingChunk : Chunk :=
  mkChunk "c-pending" None "not embedded" None None.

(** Retrieved chunks of mixed provenance. *)
Definition csvRowChunk : Chunk :=
  mkChunk "c-row" (Some "d-2") "crop: rice" (Some [1%float])
          (Some (mkMetadata None (Some "csv_row"))).

Definition csvSummaryChunk : Chunk :=
  mkChunk "c-sum" (Some "d-2") "CSV Dataset with columns: crop" (Some [1%float])
          (Some (mkMetadata None (Some "csv_summary"))).

Definition bareChunk : Chunk :=
  mkChunk "c-bare" None "notes" (Some [1%float]) None.

Definition retrieved : list Chunk :=
  [wheatChunk; csvRowChunk; wheatChunk; csvSummaryChunk; bareChunk].

Definition ranked : list Chunk :=
  [pendingChunk; diagonalChunk; axisChunk; wheatChunk].

Definition threeSentences : string := "aaaa.bbbb.cccc".

End Samples.

(** ** The routes, the store and the indexing pipeline

    The rest of this part embeds what surrounds the services above: the
    maps of [MemStorage] as a store that is threaded through the calls,
    [DataProcessor.processFile], the indexing functions of
    [VectorSearchService], the chat and upload routes (server/routes.ts)
    and the hash of [SimpleEmbeddingService] (server/services/embeddings.ts).
    It starts with the reference definitions the properties of the data
    processor are stated with. *)

(** [s] occurs in [b]. *)
Definition occursIn (s b : string) : Prop :=
  exists pre post, b = pre +++ s +++ post.

(** The buffer of the loop of [chunkText] is empty at the start and holds a
    sentence ever after; the chunks pushed so far have a content. *)
Definition Filled (st : DataProcessor.ChunkState) : Prop :=
  Forall (fun c => tc_content c <> EmptyString) (DataProcessor.chunks st)
  /\ (DataProcessor.currentChunk st = EmptyString
      \/ blank (DataProcessor.currentChunk st) = false).

(** The first, and the last, character of a string is not white space. *)
Definition startsNonWhite (s : string) : bool :=
  match s with
  | EmptyString => false
  | String c _ => negb (isWhiteSpace c)
  end.

Fixpoint endsNonWhite (s : string) : bool :=
  match s with
  | EmptyString => false
  | String c EmptyString => negb (isWhiteSpace c)
  | String _ r => endsNonWhite r
  end.

(** Every sentence of [done] is kept: trimmed, in the content of a chunk
    already pushed, or as it is in the buffer. *)
Definition Kept (st : DataProcessor.ChunkState) (done : list string) : Prop :=
  forall s, In s done ->
            (exists c, In c (DataProcessor.chunks st)
                       /\ occursIn (trim s) (tc_content c))
            \/ occursIn s (DataProcessor.currentChunk st).

(** The crop and the state a query names: the first word of each closed
    vocabulary that occurs in the lower-cased query. *)
Definition queryCrop (query : string) : option string :=
  find (fun c => includes (toLowerCase query) c) DataProcessor.crops.

Definition queryState (query : string) : option string :=
  find (fun s => includes (toLowerCase query) s) DataProcessor.states.

(** A row that does not mention the crop. *)
Definition mentions (crop : string) (row : Row) : bool :=
  includes (DataProcessor.rowText row) crop.

(** The rows a dataset contributes to a computation: those its parser ends
    with, none when the parser fails. *)
Definition rowsOfDataset (w : World) (d : Dataset) : list Row :=
  match readCsv w (ds_filePath d) with
  | StreamEnd rows => rows
  | _ => []
  end.

(** The datasets whose file is opened: all of them, or those up to the
    first whose file stream fails. *)
Fixpoint openedUntilFailure (w : World) (ds : list Dataset) : list Dataset :=
  match ds with
  | [] => []
  | d :: rest =>
      if fileFails w d then [d] else d :: openedUntilFailure w rest
  end.

(** ** The store, the indexing pipeline and the routes

    The values of each [Map] of [MemStorage] are kept in insertion order.
    Identifiers come from [randomUUID] and creation times from [new Date()]:
    both are read from the environment, one after the other, and the store
    counts how many were read. *)

Record Conversation : Type := mkConversation {
  cv_id : string;
  cv_title : option string;
  cv_createdAt : float
}.

(** The metadata the chat route stores with an assistant message. *)
Inductive MessageMetadata : Type :=
| AssistantMetadata (sources : list string) (isComputation : bool)
                    (info : option ResponseMetadata).

Record Message : Type := mkMessage {
  msg_id : string;
  msg_conversationId : option string;
  msg_role : string;
  msg_content : string;
  msg_metadata : option MessageMetadata;
  msg_createdAt : float
}.

(** The body of a request, as the validation of [POST /api/chat] sees it.
    A field is absent, a string, or a value of another type (a number,
    [null], an object); the body is a JSON object with its fields, or
    something else (an array, nothing at all). *)
Module Http.

Inductive Field : Type :=
| Absent
| Text (s : string)
| IllTyped.

Inductive ChatBody : Type :=
| JsonObject (message conversationId model language : Field)
| NotAnObject.

Definition cb_message (body : ChatBody) : Field :=
  match body with
  | JsonObject message _ _ _ => message
  | NotAnObject => Absent
  end.

Definition cb_conversationId (body : ChatBody) : Field :=
  match body with
  | JsonObject _ conversationId _ _ => conversationId
  | NotAnObject => Absent
  end.

Definition cb_model (body : ChatBody) : Field :=
  match body with
  | JsonObject _ _ model _ => model
  | NotAnObject => Absent
  end.

Definition cb_language (body : ChatBody) : Field :=
  match body with
  | JsonObject _ _ _ language => language
  | NotAnObject => Absent
  end.

(** The string a field holds, if it holds one. *)
Definition textOf (f : Field) : option string :=
  match f with
  | Text s => Some s
  | _ => None
  end.

End Http.

Record Store : Type := mkStore {
  st_datasets : list Dataset;
  st_chunks : list Chunk;
  st_conversations : list Conversation;
  st_messages : list Message;
  st_uuids : nat;
  st_ticks : nat;
  st_log : list Event
}.

(** The collaborators of the process: the engine, the configured key, the
    embedding service (one text, and a batch), the inference endpoint, the
    CSV streams, the synchronous readers of text and PDF files,
    [path.extname], the message of the error the request schema raises on a
    body, and the successive results of [randomUUID] and of
    [new Date().getTime()].  A failure of the text or PDF reader carries
    the error as a template literal renders it; the other failures carry
    the message of the error. *)
Record Env : Type := mkEnv {
  env_engine : Engine;
  env_apiKey : string;
  env_generateEmbedding : string -> Reply (list float);
  env_generateEmbeddings : list string -> Reply (list (list float));
  env_post : string -> string -> Reply HFData;
  env_readCsv : string -> CsvStream;
  env_readText : string -> Reply string;
  env_pdfAvailable : bool;
  env_parsePdf : string -> Reply (string * nat);
  env_extname : string -> string;
  env_zodMessage : Http.ChatBody -> string;
  env_uuid : nat -> string;
  env_now : nat -> float
}.

(** The world a query sees: the collaborators and the contents of the
    store. *)
Definition worldOf (env : Env) (st : Store) : World :=
  mkWorld (env_engine env) (env_apiKey env) (env_generateEmbedding env)
          (env_post env) (env_readCsv env) (st_chunks st) (st_datasets st).

(** A computation on the store that may raise. *)
Definition Op (A : Type) : Type := Store -> Outcome A * Store.

Definition oret {A} (a : A) : Op A := fun st => (Returned a, st).

Definition othrow {A} (message : string) : Op A := fun st => (Thrown message, st).

Definition obind {A B} (m : Op A) (k : A -> Op B) : Op B :=
  fun st =>
    match m st with
    | (Returned a, st') => k a st'
    | (Thrown e, st') => (Thrown e, st')
    | (Exited, st') => (Exited, st')
    end.

Definition otry {A} (body : Op A) (handler : string -> Op A) : Op A :=
  fun st =>
    match body st with
    | (Returned a, st') => (Returned a, st')
    | (Thrown e, st') => handler e st'
    | (Exited, st') => (Exited, st')
    end.

(** The outcome of a call that leaves the store alone, as the outcome of a
    computation. *)
Definition olift {A} (o : Outcome A) : Op A := fun st => (o, st).

Notation "x <~ m ;; k" := (obind m (fun x => k))
  (at level 61, m at next level, right associativity).

(** [map.set(key, v)]: the value of an existing key is replaced where it
    stands, a new key is added at the end. *)
Fixpoint mapSet {A : Type} (key : A -> string) (v : A) (l : list A) : list A :=
  match l with
  | [] => [v]
  | x :: r => if String.eqb (key x) (key v) then v :: r else x :: mapSet key v r
  end.

(** [map.get(id)] *)
Definition mapGet {A : Type} (key : A -> string) (id : string) (l : list A)
  : option A :=
  find (fun x => String.eqb (key x) id) l.

(** [s || null] on a string that may be undefined. *)
Definition nonEmpty (o : option string) : option string :=
  match o with
  | Some s => if String.eqb s "" then None else Some s
  | None => None
  end.

(** [t || 0] on a time value: zero and [NaN] count as absent. *)
Definition timeKey (t : float) : float :=
  if PrimFloat.is_nan t || PrimFloat.is_zero t then 0%float else t.

(** The [type] field of the metadata of a chunk of the data processor. *)
Definition chunkType (m : ChunkMetadata) : option string :=
  match m with
  | CsvRowMeta _ _ => Some "csv_row"
  | CsvSummaryMeta _ _ => Some "csv_summary"
  | TextMeta TextDoc _ _ => Some "text"
  | TextMeta (PdfDoc _) _ _ => Some "pdf"
  | TextMeta NoDoc _ _ => None
  end.

Module Storage.

Definition randomUUID (env : Env) : Op string :=
  fun st =>
    (Returned (env_uuid env (st_uuids st)),
     mkStore (st_datasets st) (st_chunks st) (st_conversations st)
             (st_messages st) (S (st_uuids st)) (st_ticks st) (st_log st)).

Definition newDate (env : Env) : Op float :=
  fun st =>
    (Returned (env_now env (st_ticks st)),
     mkStore (st_datasets st) (st_chunks st) (st_conversations st)
             (st_messages st) (st_uuids st) (S (st_ticks st)) (st_log st)).

Definition setDatasets (ds : list Dataset) : Op unit :=
  fun st =>
    (Returned tt,
     mkStore ds (st_chunks st) (st_conversations st) (st_messages st)
             (st_uuids st) (st_ticks st) (st_log st)).

Definition setChunks (cs : list Chunk) : Op unit :=
  fun st =>
    (Returned tt,
     mkStore (st_datasets st) cs (st_conversations st) (st_messages st)
             (st_uuids st) (st_ticks st) (st_log st)).

Definition setConversations (cs : list Conversation) : Op unit :=
  fun st =>
    (Returned tt,
     mkStore (st_datasets st) (st_chunks st) cs (st_messages st)
             (st_uuids st) (st_ticks st) (st_log st)).

Definition setMessages (ms : list Message) : Op unit :=
  fun st =>
    (Returned tt,
     mkStore (st_datasets st) (st_chunks st) (st_conversations st) ms
             (st_uuids st) (st_ticks st) (st_log st)).

Definition getStore : Op Store := fun st => (Returned st, st).

Definition getDataset (id : string) : Op (option Dataset) :=
  st <~ getStore ;; oret (mapGet ds_id id (st_datasets st)).

Definition getAllDatasets : Op (list Dataset) :=
  st <~ getStore ;; oret (st_datasets st).

(** The description and the creation time of a dataset are not read by the
    pipeline; the time is read from the clock all the same. *)
Definition createDataset (env : Env) (name fileType filePath : string)
  : Op Dataset :=
  id <~ randomUUID env ;;
  _ <~ newDate env ;;
  let dataset := mkDataset id name fileType filePath "processing" in
  st <~ getStore ;;
  _ <~ setDatasets (mapSet ds_id dataset (st_datasets st)) ;;
  oret dataset.

Definition updateDatasetStatus (id status : string) : Op unit :=
  st <~ getStore ;;
  match mapGet ds_id id (st_datasets st) with
  | Some dataset =>
      setDatasets
        (mapSet ds_id
           (mkDataset (ds_id dataset) (ds_name dataset) (ds_fileType dataset)
                      (ds_filePath dataset) status)
           (st_datasets st))
  | None => oret tt
  end.

Definition getChunk (id : string) : Op (option Chunk) :=
  st <~ getStore ;; oret (mapGet ch_id id (st_chunks st)).

Definition getChunksByDataset (datasetId : string) : Op (list Chunk) :=
  st <~ getStore ;;
  oret (filter (fun chunk =>
                  match ch_datasetId chunk with
                  | Some d => String.eqb d datasetId
                  | None => false
                  end)
               (st_chunks st)).

Definition createChunk (env : Env) (datasetId : option string) (content : string)
           (embedding : option (list float)) (metadata : option Metadata)
  : Op Chunk :=
  id <~ randomUUID env ;;
  _ <~ newDate env ;;
  let chunk := mkChunk id (nonEmpty datasetId) content embedding metadata in
  st <~ getStore ;;
  _ <~ setChunks (mapSet ch_id chunk (st_chunks st)) ;;
  oret chunk.

Definition searchChunksByEmbedding (env : Env) (embedding : list float)
           (limit : Z) : Op (list Chunk) :=
  st <~ getStore ;;
  oret (MemStorage.searchChunksByEmbedding (env_engine env) (st_chunks st)
          embedding limit).

Definition getConversation (id : string) : Op (option Conversation) :=
  st <~ getStore ;; oret (mapGet cv_id id (st_conversations st)).

Definition getAllConversations : Op (list Conversation) :=
  st <~ getStore ;; oret (st_conversations st).

Definition createConversation (env : Env) (title : option string)
  : Op Conversation :=
  id <~ randomUUID env ;;
  createdAt <~ newDate env ;;
  let conversation := mkConversation id (nonEmpty title) createdAt in
  st <~ getStore ;;
  _ <~ setConversations (mapSet cv_id conversation (st_conversations st)) ;;
  oret conversation.

Definition getMessage (id : string) : Op (option Message) :=
  st <~ getStore ;; oret (mapGet msg_id id (st_messages st)).

(** The comparator of [getMessagesByConversation]. *)
Definition compareTimes (a b : Message) : float :=
  (timeKey (msg_createdAt a) - timeKey (msg_createdAt b))%float.

Definition inConversation (conversationId : string) (message : Message) : bool :=
  match msg_conversationId message with
  | Some c => String.eqb c conversationId
  | None => false
  end.

Definition messagesOf (engine : Engine) (conversationId : string)
           (messages : list Message) : list Message :=
  arraySort engine compareTimes
            (filter (inConversation conversationId) messages).

Definition getMessagesByConversation (env : Env) (conversationId : string)
  : Op (list Message) :=
  st <~ getStore ;;
  oret (messagesOf (env_engine env) conversationId (st_messages st)).

Definition createMessage (env : Env) (conversationId : option string)
           (role content : string) (metadata : option MessageMetadata)
  : Op Message :=
  id <~ randomUUID env ;;
  createdAt <~ newDate env ;;
  let message :=
    mkMessage id (nonEmpty conversationId) role content metadata createdAt in
  st <~ getStore ;;
  _ <~ setMessages (mapSet msg_id message (st_messages st)) ;;
  oret message.

End Storage.

(** *** DataProcessor.processFile and its readers *)

Module FileProcessor.

(** The promise of [processCSV] is resolved on the parser's ['end'] and
    rejected on the parser's ['error']; the file stream has no listener
    for ['error']. *)
Definition processCSV (env : Env) (filePath : string) : Outcome (list TextChunk) :=
  match env_readCsv env filePath with
  | StreamEnd rows => Returned (DataProcessor.processCSV rows)
  | ParserError e => Thrown e
  | FileError _ => Exited
  end.

Definition processPDF (env : Env) (filePath : string) : Outcome (list TextChunk) :=
  if negb (env_pdfAvailable env)
  then Thrown "PDF parsing is not available in this environment"
  else
    match env_parsePdf env filePath with
    | Fulfilled (text, numpages) =>
        Returned (DataProcessor.chunkText text (PdfDoc numpages)
                    DataProcessor.defaultChunkSize DataProcessor.defaultOverlap)
    | Rejected e => Thrown ("Failed to process PDF: " +++ e)
    end.

Definition processText (env : Env) (filePath : string) : Outcome (list TextChunk) :=
  match env_readText env filePath with
  | Fulfilled content =>
      Returned (DataProcessor.chunkText content TextDoc
                  DataProcessor.defaultChunkSize DataProcessor.defaultOverlap)
  | Rejected e => Thrown ("Failed to process text file: " +++ e)
  end.

Definition processFile (env : Env) (filePath fileType : string)
  : Outcome (list TextChunk) :=
  let t := toLowerCase fileType in
  if String.eqb t "csv" then processCSV env filePath
  else if String.eqb t "pdf" then processPDF env filePath
  else if String.eqb t "txt" then processText env filePath
  else Thrown ("Unsupported file type: " +++ fileType).

Definition supported (fileType : string) : bool :=
  let t := toLowerCase fileType in
  String.eqb t "csv" || String.eqb t "pdf" || String.eqb t "txt".

End FileProcessor.

(** *** VectorSearchService on the store *)

Module VectorSearch.

(** The metadata stored with chunk [index] of a dataset. *)
Definition storedMetadata (fileName : string) (chunk : TextChunk) : Metadata :=
  mkMetadata (Some fileName) (chunkType (tc_metadata chunk)).

(** [chunks.map((chunk, index) => storage.createChunk(...))], from [index]. *)
Fixpoint storeChunks (env : Env) (datasetId fileName : string)
         (embeddings : list (list float)) (index : nat) (chunks : list TextChunk)
  : Op unit :=
  match chunks with
  | [] => oret tt
  | chunk :: rest =>
      _ <~ Storage.createChunk env (Some datasetId) (tc_content chunk)
             (nth_error embeddings index)
             (Some (storedMetadata fileName chunk)) ;;
      storeChunks env datasetId fileName embeddings (S index) rest
  end.

(** [dataset?.name || 'unknown'] *)
Definition fileNameFor (dataset : option Dataset) : string :=
  match dataset with
  | Some d => orElse (Some (ds_name d)) "unknown"
  | None => "unknown"
  end.

Definition buildIndexForDataset (env : Env) (datasetId : string)
           (chunks : list TextChunk) : Op unit :=
  otry
    (embeddings <~
       olift (await (env_generateEmbeddings env (map tc_content chunks))) ;;
     dataset <~ Storage.getDataset datasetId ;;
     _ <~ storeChunks env datasetId (fileNameFor dataset) embeddings 0 chunks ;;
     Storage.updateDatasetStatus datasetId "ready")
    (fun _ =>
       _ <~ Storage.updateDatasetStatus datasetId "error" ;;
       othrow "Failed to build index for dataset").

Definition addChunkToIndex (env : Env) (content datasetId : string)
           (metadata : option Metadata) : Op Chunk :=
  otry
    (embedding <~ olift (await (env_generateEmbedding env content)) ;;
     Storage.createChunk env (Some datasetId) content (Some embedding) metadata)
    (fun _ => othrow "Failed to add chunk to index").

End VectorSearch.

(** *** The routes *)

Module Routes.

Record UploadedFile : Type := mkUploadedFile {
  uf_originalname : string;
  uf_path : string
}.

Inductive UploadResult : Type :=
| UploadReady (id name : string) (chunksCreated : nat)
| UploadError (name error : string).

Inductive UploadResponse : Type :=
| UploadBadRequest
| UploadOk (results : list UploadResult)
| UploadFailed (details : string).

(** The filter of the upload middleware: the extension of the name, in
    lower case, is one of the allowed ones. *)
Definition allowedTypes : list string :=
  [".csv"; ".pdf"; ".txt"; ".jpg"; ".jpeg"; ".png"].

Definition fileFilter (env : Env) (originalname : string) : bool :=
  existsb (String.eqb (toLowerCase (env_extname env originalname))) allowedTypes.

(** The body of [for (const file of req.files)]. *)
Definition uploadFile (env : Env) (file : UploadedFile) : Op UploadResult :=
  otry
    (let fileType := JsString.drop 1 (env_extname env (uf_originalname file)) in
     dataset <~ Storage.createDataset env (uf_originalname file) fileType
                  (uf_path file) ;;
     chunks <~ olift (FileProcessor.processFile env (uf_path file) fileType) ;;
     _ <~ VectorSearch.buildIndexForDataset env (ds_id dataset) chunks ;;
     oret (UploadReady (ds_id dataset) (ds_name dataset) (List.length chunks)))
    (fun e => oret (UploadError (uf_originalname file) e)).

Fixpoint uploadFiles (env : Env) (files : list UploadedFile)
         (results : list UploadResult) : Op (list UploadResult) :=
  match files with
  | [] => oret results
  | file :: rest =>
      result <~ uploadFile env file ;;
      uploadFiles env rest (results ++ [result])
  end.

(** [POST /api/upload], on the files the upload middleware accepted. *)
Definition upload (env : Env) (files : list UploadedFile) : Op UploadResponse :=
  otry
    (match files with
     | [] => oret UploadBadRequest
     | _ =>
         results <~ uploadFiles env files [] ;;
         oret (UploadOk results)
     end)
    (fun e => oret (UploadFailed e)).

Record QueryRequest : Type := mkQueryRequest {
  qr_message : string;
  qr_conversationId : option string;
  qr_model : string;
  qr_language : string
}.

(** [z.string().optional()] *)
Definition isOptionalString (f : Http.Field) : bool :=
  match f with
  | Http.IllTyped => false
  | _ => true
  end.

(** [.default(d)] on a field that passed [z.string().optional()]. *)
Definition withDefault (f : Http.Field) (d : string) : string :=
  match f with
  | Http.Text s => s
  | _ => d
  end.

(** [querySchema.parse]: the body is an object; the message is a string of
    at least one character; the conversation, the model and the language
    are strings when they are there; the model and the language have
    defaults.  Anything else raises the error of the schema. *)
Definition parseQuery (env : Env) (body : Http.ChatBody) : Outcome QueryRequest :=
  match body with
  | Http.JsonObject (Http.Text message) conversationId model language =>
      if (1 <=? String.length message) && isOptionalString conversationId
         && isOptionalString model && isOptionalString language
      then Returned (mkQueryRequest message
                       (Http.textOf conversationId)
                       (withDefault model "gemma-2b-it")
                       (withDefault language "english"))
      else Thrown (env_zodMessage env body)
  | _ => Thrown (env_zodMessage env body)
  end.

Inductive ChatResponse : Type :=
| ChatOk (conversationId answer : string) (sources : list string)
         (isComputation : bool) (metadata : option ResponseMetadata)
| ChatFailed (details : string).

(** [ragPipelineService.processQuery], on the store as it stands. *)
Definition runQuery (env : Env) (query model language : string) : Op RAGResponse :=
  fun st =>
    let '(out, log) :=
      processQuery (worldOf env st) query model language (st_log st) in
    (out,
     mkStore (st_datasets st) (st_chunks st) (st_conversations st)
             (st_messages st) (st_uuids st) (st_ticks st) log).

(** [POST /api/chat] *)
Definition chat (env : Env) (body : Http.ChatBody) : Op ChatResponse :=
  otry
    (validatedData <~ olift (parseQuery env body) ;;
     conversationId <~
       (if truthy (qr_conversationId validatedData)
        then oret (orElse (qr_conversationId validatedData) "")
        else
          conversation <~
            Storage.createConversation env
              (Some (String.substring 0 50 (qr_message validatedData) +++ "...")) ;;
          oret (cv_id conversation)) ;;
     _ <~ Storage.createMessage env (Some conversationId) "user"
            (qr_message validatedData) None ;;
     ragResponse <~ runQuery env (qr_message validatedData)
                      (qr_model validatedData) (qr_language validatedData) ;;
     _ <~ Storage.createMessage env (Some conversationId) "assistant"
            (answer ragResponse)
            (Some (AssistantMetadata (sources ragResponse)
                     (isComputation ragResponse) (metadata ragResponse))) ;;
     oret (ChatOk conversationId (answer ragResponse) (sources ragResponse)
             (isComputation ragResponse) (metadata ragResponse)))
    (fun e => oret (ChatFailed e)).

End Routes.

(** *** Reference definitions for the store *)

(** [a] was created no later than [b], on the times the comparator of
    [getMessagesByConversation] reads. *)
Definition notAfter (a b : Message) : Prop :=
  (timeKey (msg_createdAt a) <=? timeKey (msg_createdAt b))%float = true.

Definition sameTime (t : float) (m : Message) : bool :=
  (timeKey (msg_createdAt m) =? t)%float.

(** A dataset with another status. *)
Definition withStatus (status : string) (d : Dataset) : Dataset :=
  mkDataset (ds_id d) (ds_name d) (ds_fileType d) (ds_filePath d) status.

(** The identifiers [ids], taken one after the other, are new: none is
    among [old] nor among the ones taken before it. *)
Fixpoint distinctFrom (old ids : list string) : bool :=
  match ids with
  | [] => true
  | i :: r => negb (existsb (String.eqb i) old) && distinctFrom (old ++ [i]) r
  end.

(** The chunks [buildIndexForDataset] stores for the chunks of a file: chunk
    [index] gets the [u]-th identifier, the content of the chunk, the
    vector of its index when there is one, and the name of the dataset. *)
Fixpoint indexedChunks (env : Env) (datasetId fileName : string)
         (embeddings : list (list float)) (index u : nat)
         (chunks : list TextChunk) : list Chunk :=
  match chunks with
  | [] => []
  | chunk :: rest =>
      mkChunk (env_uuid env u) (nonEmpty (Some datasetId)) (tc_content chunk)
              (nth_error embeddings index)
              (Some (VectorSearch.storedMetadata fileName chunk))
        :: indexedChunks env datasetId fileName embeddings (S index) (S u) rest
  end.

Definition uploadName (r : Routes.UploadResult) : string :=
  match r with
  | Routes.UploadReady _ name _ => name
  | Routes.UploadError name _ => name
  end.

(** The dataset [uploadFile] creates for a file, with a given status. *)
Definition uploadedDataset (env : Env) (file : Routes.UploadedFile) (st : Store)
           (status : string) : Dataset :=
  mkDataset (env_uuid env (st_uuids st)) (Routes.uf_originalname file)
            (JsString.drop 1 (env_extname env (Routes.uf_originalname file)))
            (Routes.uf_path file) status.

(** The file of an upload is read as a CSV file and its file stream fails:
    the file cannot be opened or read. *)
Definition streamFails (env : Env) (file : Routes.UploadedFile) : bool :=
  String.eqb
    (toLowerCase (JsString.drop 1 (env_extname env (Routes.uf_originalname file))))
    "csv"
  && match env_readCsv env (Routes.uf_path file) with
     | FileError _ => true
     | _ => false
     end.

(** *** Sample deployments *)

Module Fixtures.

Definition ids (k : nat) : string := "id-" +++ JsString.ofNat k.

Definition clock (k : nat) : float := JsNumber.ofNat (1000 + k).

Fixpoint lastExtension (s : string) (found : string) : string :=
  match s with
  | EmptyString => found
  | String c r =>
      if Ascii.eqb c "."%char then lastExtension r (String c r)
      else lastExtension r found
  end.

Definition notes : string := "Wheat is sown in winter. Rice needs standing water.".

(** A deployment without API key: embeddings are computed locally, the
    inference endpoint cannot be reached, text files can be read. *)
Definition localEnv : Env :=
  mkEnv referenceEngine ""
        (fun _ => Fulfilled [1%float; 0%float])
        (fun texts => Fulfilled (map (fun _ => [1%float; 0%float]) texts))
        (fun _ _ => Rejected "Request failed with status code 401")
        (fun _ => FileError "ENOENT: no such file or directory")
        (fun _ => Fulfilled notes)
        false
        (fun _ => Rejected "Error: ENOENT: no such file or directory")
        (fun name => lastExtension name "")
        (fun _ => "Required")
        ids clock.


Definition emptyStore : Store := mkStore [] [] [] [] 0 0 [].

Definition notesFile : Routes.UploadedFile :=
  Routes.mkUploadedFile "notes.txt" "uploads/3f2a".

Definition photoFile : Routes.UploadedFile :=
  Routes.mkUploadedFile "field.JPG" "uploads/77b0".

Definition notesDataset : Dataset :=
  mkDataset "d-1" "notes.txt" "txt" "uploads/3f2a" "processing".

Definition oneDataset : Store := mkStore [notesDataset] [] [] [] 0 0 [].

Definition notesChunks : list TextChunk :=
  DataProcessor.chunkText notes TextDoc
    DataProcessor.defaultChunkSize DataProcessor.defaultOverlap.

End Fixtures.

(** The model and the language a chat request asks for, with the defaults
    of the request schema. *)
Definition requestedModel (body : Http.ChatBody) : string :=
  Routes.withDefault (Http.cb_model body) "gemma-2b-it".

Definition requestedLanguage (body : Http.ChatBody) : string :=
  Routes.withDefault (Http.cb_language body) "english".

(** A body the request schema accepts: an object whose message is a
    string of at least one character, and whose conversation, model and
    language are strings when they are there. *)
Definition acceptedBody (body : Http.ChatBody) : Prop :=
  (exists message, Http.cb_message body = Http.Text message /\ message <> "")
  /\ Http.cb_conversationId body <> Http.IllTyped
  /\ Http.cb_model body <> Http.IllTyped
  /\ Http.cb_language body <> Http.IllTyped.

(** A message stored for an assistant's answer. *)
Definition answerOf (r : RAGResponse) (conversationId : string) (m : Message)
  : Prop :=
  msg_role m = "assistant"
  /\ msg_content m = answer r
  /\ msg_conversationId m = nonEmpty (Some conversationId)
  /\ msg_metadata m
     = Some (AssistantMetadata (sources r) (isComputation r) (metadata r)).

(** A message stored for the question of a user. *)
Definition questionOf (message : string) (m : Message) : Prop :=
  msg_role m = "user" /\ msg_content m = message /\ msg_metadata m = None.

(** A store with the two messages of a conversation, the answer stored
    before the question. *)
Definition twoMessages : Store :=
  mkStore [] [] []
          [mkMessage "m-2" (Some "c-1") "assistant" "Sow it in November." None
                     2000%float;
           mkMessage "m-1" (Some "c-1") "user" "When is wheat sown?" None
                     1000%float]
          2 2 [].

Definition totalRiceBody : Http.ChatBody :=
  Http.JsonObject (Http.Text "What is the total rice production?")
                  Http.Absent Http.Absent Http.Absent.

(** The three sentences of [generateFallbackResponse]. *)
Definition fallbackAnswers : list string :=
  ["I understand you're asking for computational analysis. Please provide your agricultural data and I'll help you calculate the statistics you need.";
   "I'm here to help with agricultural questions. I can assist with crop information, farming practices, weather guidance, and data analysis. What specific agricultural topic would you like to know about?";
   "I'm an agricultural AI assistant. I can help you with farming questions, crop data analysis, weather information, and agricultural best practices. How can I assist you today?"].

(** A store that holds one indexed chunk, and a question on it. *)
Definition wheatStore : Store := mkStore [] [Samples.wheatChunk] [] [] 0 0 [].

Definition cropQuestion : string := "Which crop is sown in November?".

(** *** SimpleEmbeddingService.simpleHash *)

Module SimpleEmbedding.

(** [ToInt32]: the integer of the same residue modulo 2^32 that lies in
    [-2^31, 2^31). *)
Definition toInt32 (z : Z) : Z :=
  ((z + 2147483648) mod 4294967296 - 2147483648)%Z.

(** One turn of the loop: [hash = ((hash << 5) - hash) + char] and then
    [hash = hash & hash].  The subtraction and the addition are those of
    numbers; their operands are below 2^32 in absolute value, so that they
    are exact. *)
Definition hashStep (hash : Z) (c : ascii) : Z :=
  let char := Z.of_nat (nat_of_ascii c) in
  let hash := (toInt32 (Z.shiftl (toInt32 hash) 5) - hash + char)%Z in
  Z.land (toInt32 hash) (toInt32 hash).

Fixpoint hashFrom (hash : Z) (str : string) : Z :=
  match str with
  | EmptyString => hash
  | String c rest => hashFrom (hashStep hash c) rest
  end.

Definition simpleHash (str : string) : Z := hashFrom 0%Z str.

End SimpleEmbedding.

(** The polynomial of the character codes of a string in base 31, from
    [acc]: the last character has weight 1, the one before it 31, and so
    on. *)
Fixpoint polynomialFrom (acc : Z) (str : string) : Z :=
  match str with
  | EmptyString => acc
  | String c rest =>
      polynomialFrom (31 * acc + Z.of_nat (nat_of_ascii c))%Z rest
  end.
(** * Properties *)

(** ** The orchestrator *)

(** The loop over the CSV datasets: the files are opened in order up to
    the first whose file stream fails, at which the process exits; the rows
    are those of the parsers that ended. *)
Lemma loadAll_outcome (w : World) (csvDatasets : list Dataset) :
  forall allCsvData log,
    loadAll w csvDatasets allCsvData log
    = (if existsb (fileFails w) csvDatasets
       then Exited
       else Returned (allCsvData ++ flat_map (rowsOfDataset w) csvDatasets),
       log ++ map (fun d => EvReadCsv (ds_filePath d))
                  (openedUntilFailure w csvDatasets)).
Proof.
  induction csvDatasets as [|d rest IH]; intros acc log; simpl.
  - unfold ret. now rewrite !app_nil_r.
  - unfold loadCsvData, rowsOfDataset at 1, fileFails at 1 3. run_eff.
    destruct (readCsv w (ds_filePath d)) as [rows|e|e]; simpl.
    + rewrite IH. rewrite <- !app_assoc. reflexivity.
    + rewrite IH. rewrite <- !app_assoc. reflexivity.
    + reflexivity.
Qed.

Lemma handleComputationalQuery_ends (w : World) (query : string) (log : list Event) :
  exists log',
    (unreadableCsv w = false ->
     exists r, handleComputationalQuery w query log = (Returned r, log')
               /\ isComputation r = true)
    /\ (unreadableCsv w = true ->
        handleComputationalQuery w query log = (Exited, log')).
Proof.
  unfold handleComputationalQuery, unreadableCsv.
  destruct (filter isReadyCsv (storedDatasets w)) as [|d ds].
  - exists log. split; [|discriminate]. intros _. run_eff. eauto.
  - unfold tryCatch, bind. rewrite loadAll_outcome.
    eexists. split; intros U; rewrite U.
    + destruct ([] ++ flat_map (rowsOfDataset w) (d :: ds));
        unfold ret; eauto.
    + reflexivity.
Qed.

Lemma searchSimilarChunks_outcome (w : World) (query : string) (topK : Z) (log : list Event) :
  searchSimilarChunks w query topK log =
  (match generateEmbedding w query with
   | Fulfilled v =>
       Returned (MemStorage.searchChunksByEmbedding (engine w) (storedChunks w)
                   v topK)
   | Rejected _ => Thrown "Vector search failed"
   end, log ++ [EvEmbed query]).
Proof.
  unfold searchSimilarChunks. run_eff.
  destruct (generateEmbedding w query); reflexivity.
Qed.

Lemma generateResponse_outcome (w : World) (prompt model : string) (log : list Event) :
  generateResponse w prompt model log =
  (match post w model prompt with
   | Fulfilled data => Returned (generatedText data)
   | Rejected _ =>
       if String.eqb (apiKey w) ""
       then Returned (generateFallbackResponse prompt)
       else Thrown "Failed to generate response from Hugging Face API"
   end, log ++ [EvPost model prompt]).
Proof.
  unfold generateResponse. run_eff.
  destruct (post w model prompt); [reflexivity|].
  destruct (String.eqb (apiKey w) ""); reflexivity.
Qed.

(** The conversational branch, outcome by outcome. *)
Lemma handleRAGQuery_outcome (w : World) (query model language : string) (log : list Event) :
  handleRAGQuery w query model language log =
  match generateEmbedding w query with
  | Rejected _ => (Thrown "Vector search failed", log ++ [EvEmbed query])
  | Fulfilled v =>
      match MemStorage.searchChunksByEmbedding (engine w) (storedChunks w) v 5 with
      | [] => (Returned (mkRAGResponse insufficientKnowledgeAnswer [] false None),
               log ++ [EvEmbed query])
      | c :: cs =>
          let prompt := createRAGPrompt query (contextOf (c :: cs)) language in
          (match post w model prompt with
           | Fulfilled data =>
               Returned (mkRAGResponse (postProcessResponse (generatedText data))
                           (extractSources (c :: cs)) false
                           (Some (RetrievalInfo (List.length (c :: cs)) model)))
           | Rejected _ =>
               if String.eqb (apiKey w) ""
               then Returned (mkRAGResponse
                                (postProcessResponse (generateFallbackResponse prompt))
                                (extractSources (c :: cs)) false
                                (Some (RetrievalInfo (List.length (c :: cs)) model)))
               else Thrown "Failed to generate response from Hugging Face API"
           end, (log ++ [EvEmbed query]) ++ [EvPost model prompt])
      end
  end.
Proof.
  unfold handleRAGQuery, bind. rewrite searchSimilarChunks_outcome.
  destruct (generateEmbedding w query) as [v|e]; [|reflexivity].
  destruct (MemStorage.searchChunksByEmbedding (engine w) (storedChunks w) v 5)
    as [|c cs]; [reflexivity|].
  rewrite generateResponse_outcome. cbv zeta. fold (contextOf (c :: cs)).
  destruct (post w model _); [reflexivity|].
  destruct (String.eqb (apiKey w) ""); reflexivity.
Qed.




(** C8.  A conversational query for which the index yields no chunk gets
    the fixed insufficient-knowledge answer, no source, [isComputation]
    unset; the only call made is the embedding of the query, so the
    language-model provider is not called. *)
Theorem empty_retrieval_fixed_answer
        (w : World) (query model language : string) (log : list Event)
        (v : list float) :
  DataProcessor.detectComputationalQuery query = false ->
  generateEmbedding w query = Fulfilled v ->
  MemStorage.searchChunksByEmbedding (engine w) (storedChunks w) v 5 = [] ->
  processQuery w query model language log
  = (Returned (mkRAGResponse insufficientKnowledgeAnswer [] false None),
     log ++ [EvEmbed query])
  /\ forall m p, In (EvPost m p) (snd (processQuery w query model language log)) ->
                 In (EvPost m p) log.
Proof.
  intros D E S.
  assert (P : processQuery w query model language log
              = (Returned (mkRAGResponse insufficientKnowledgeAnswer [] false None),
                 log ++ [EvEmbed query])).
  { unfold processQuery, tryCatch. rewrite D, handleRAGQuery_outcome, E, S.
    reflexivity. }
  split; [exact P|].
  intros m p. rewrite P. simpl. intros H.
  apply in_app_or in H. destruct H as [H|[H|[]]]; [exact H|discriminate].
Qed.

Lemma empty_retrieval_fixed_answer_witness :
  processQuery Samples.emptyIndex Samples.wheatQuestion defaultModel defaultLanguage []
  = (Returned (mkRAGResponse insufficientKnowledgeAnswer [] false None),
     [] ++ [EvEmbed Samples.wheatQuestion])
  /\ forall m p,
      In (EvPost m p)
         (snd (processQuery Samples.emptyIndex Samples.wheatQuestion
                            defaultModel defaultLanguage [])) ->
      In (EvPost m p) [].
Proof.
  apply (empty_retrieval_fixed_answer Samples.emptyIndex Samples.wheatQuestion
           defaultModel defaultLanguage [] [1%float; 1%float]);
    vm_compute; reflexivity.
Defined.

(** C10.  A query whose lower-cased text contains "from" or "till" is
    classified as computational, whatever it asks, and [processQuery]
    routes it to the computational branch: what [processQuery] does is
    what [handleComputationalQuery] does, call for call.  The branch
    answers with [isComputation] set, or the process exits when the file of
    a ready CSV dataset cannot be opened or read. *)
Theorem from_till_is_computational (query : string) :
  includes (toLowerCase query) "from" = true
  \/ includes (toLowerCase query) "till" = true ->
  DataProcessor.detectComputationalQuery query = true
  /\ forall w model language log,
      processQuery w query model language log = handleComputationalQuery w query log
      /\ (forall m p,
            In (EvPost m p) (snd (processQuery w query model language log)) ->
            In (EvPost m p) log)
      /\ (forall text,
            In (EvEmbed text) (snd (processQuery w query model language log)) ->
            In (EvEmbed text) log)
      /\ if unreadableCsv w
         then fst (processQuery w query model language log) = Exited
         else exists r, fst (processQuery w query model language log) = Returned r
                        /\ isComputation r = true.
Proof.
  intros H.
  assert (D : DataProcessor.detectComputationalQuery query = true).
  { unfold DataProcessor.detectComputationalQuery, DataProcessor.computationKeywords.
    simpl. destruct H as [H|H]; rewrite H; repeat rewrite orb_true_r; reflexivity. }
  split; [exact D|].
  intros w model language log.
  assert (L : snd (handleComputationalQuery w query log)
              = log ++ map (fun d => EvReadCsv (ds_filePath d))
                           (openedUntilFailure w
                              (filter isReadyCsv (storedDatasets w)))).
  { unfold handleComputationalQuery.
    destruct (filter isReadyCsv (storedDatasets w)) as [|d ds].
    - run_eff. now rewrite app_nil_r.
    - unfold tryCatch, bind. rewrite loadAll_outcome.
      destruct (existsb (fileFails w) (d :: ds)); [reflexivity|].
      destruct ([] ++ flat_map (rowsOfDataset w) (d :: ds)); reflexivity. }
  assert (N : forall ev,
             (forall path, ev <> EvReadCsv path) ->
             In ev (snd (handleComputationalQuery w query log)) -> In ev log).
  { intros ev Hev. rewrite L. intros I. apply in_app_or in I.
    destruct I as [I|I]; [exact I|].
    apply in_map_iff in I. destruct I as (d & E & _).
    exfalso. apply (Hev (ds_filePath d)). now symmetry. }
  destruct (handleComputationalQuery_ends w query log) as (log' & R & X).
  assert (P : processQuery w query model language log
              = handleComputationalQuery w query log).
  { unfold processQuery, tryCatch. rewrite D.
    destruct (unreadableCsv w) eqn:U.
    - now rewrite (X eq_refl).
    - destruct (R eq_refl) as (r & E & _). now rewrite E. }
  rewrite P. split; [reflexivity|].
  split; [intros m p; apply N; discriminate|].
  split; [intros text; apply N; discriminate|].
  destruct (unreadableCsv w) eqn:U.
  - now rewrite (X eq_refl).
  - destruct (R eq_refl) as (r & E & C). rewrite E. exists r. now split.
Qed.

Lemma from_till_is_computational_witness :
  DataProcessor.detectComputationalQuery Samples.originQuestion = true
  /\ forall w model language log,
      processQuery w Samples.originQuestion model language log
      = handleComputationalQuery w Samples.originQuestion log
      /\ (forall m p,
            In (EvPost m p)
               (snd (processQuery w Samples.originQuestion model language log)) ->
            In (EvPost m p) log)
      /\ (forall text,
            In (EvEmbed text)
               (snd (processQuery w Samples.originQuestion model language log)) ->
            In (EvEmbed text) log)
      /\ if unreadableCsv w
         then fst (processQuery w Samples.originQuestion model language log)
              = Exited
         else exists r,
             fst (processQuery w Samples.originQuestion model language log)
             = Returned r
             /\ isComputation r = true.
Proof.
  apply (from_till_is_computational Samples.originQuestion).
  left. vm_compute. reflexivity.
Defined.

(** ** Sources of the conversational branch *)

Lemma indexOfFrom_fresh (k : nat) (pre : list string) (x : string) (r : list string) :
  existsb (String.eqb x) pre = false ->
  indexOfFrom k (pre ++ x :: r) x = Some (k + List.length pre).
Proof.
  revert k. induction pre as [|y pre IH]; intros k H; simpl in *.
  - rewrite String.eqb_refl. f_equal. lia.
  - apply orb_false_elim in H. destruct H as [Hy Hpre].
    rewrite String.eqb_sym, Hy, IH by assumption. f_equal. lia.
Qed.

Lemma indexOfFrom_seen (k : nat) (pre : list string) (x : string) (l : list string) :
  existsb (String.eqb x) pre = true ->
  exists j, indexOfFrom k (pre ++ l) x = Some j /\ j < k + List.length pre.
Proof.
  revert k. induction pre as [|y pre IH]; intros k H; simpl in *; [discriminate|].
  rewrite (String.eqb_sym y x). destruct (String.eqb x y); simpl in H.
  - exists k. split; [reflexivity|lia].
  - destruct (IH (S k) H) as (j & E & L). exists j. split; [exact E|lia].
Qed.

Lemma firstSeen_ext (l : list string) :
  forall s1 s2,
    (forall y, existsb (String.eqb y) s1 = existsb (String.eqb y) s2) ->
    firstSeen s1 l = firstSeen s2 l.
Proof.
  induction l as [|x r IH]; intros s1 s2 H; simpl; [reflexivity|].
  rewrite <- (H x). destruct (existsb (String.eqb x) s1).
  - apply IH, H.
  - f_equal. apply IH. intros y. rewrite !existsb_app, H. reflexivity.
Qed.

Lemma keepFirstFrom_firstSeen (l : list string) :
  forall pre,
    keepFirstFrom (List.length pre) (pre ++ l) l = firstSeen pre l.
Proof.
  induction l as [|x r IH]; intros pre; simpl; [reflexivity|].
  unfold indexOf.
  assert (Enext : keepFirstFrom (S (List.length pre)) (pre ++ x :: r) r
                  = firstSeen (pre ++ [x]) r).
  { specialize (IH (pre ++ [x])).
    rewrite <- app_assoc, length_app in IH. simpl in IH.
    rewrite Nat.add_1_r in IH. exact IH. }
  destruct (existsb (String.eqb x) pre) eqn:S.
  - destruct (indexOfFrom_seen 0 pre x (x :: r) S) as (j & E & L).
    rewrite E. simpl in L.
    destruct (Nat.eqb_spec j (List.length pre)) as [->|_]; [lia|].
    rewrite Enext. apply firstSeen_ext. intros y.
    rewrite existsb_app. simpl. rewrite orb_false_r.
    destruct (String.eqb_spec y x) as [->|_].
    + rewrite S. reflexivity.
    + apply orb_false_r.
  - rewrite (indexOfFrom_fresh 0 pre x r S). simpl.
    rewrite Nat.eqb_refl, Enext. reflexivity.
Qed.

Lemma removeDuplicates_firstSeen (arr : list string) :
  removeDuplicates arr = firstSeen [] arr.
Proof. exact (keepFirstFrom_firstSeen arr []). Qed.

Lemma firstSeen_In (l : list string) :
  forall seen s,
    In s (firstSeen seen l) <-> In s l /\ existsb (String.eqb s) seen = false.
Proof.
  induction l as [|x r IH]; intros seen s; simpl.
  - tauto.
  - destruct (existsb (String.eqb x) seen) eqn:S.
    + rewrite IH. split.
      * intros [H1 H2]. auto.
      * intros [[->|H1] H2]; [congruence|auto].
    + simpl. rewrite IH, existsb_app. simpl. rewrite orb_false_r.
      split.
      * intros [->|[H1 H2]]; [auto|].
        apply orb_false_elim in H2. tauto.
      * intros [[->|H1] H2]; [auto|].
        destruct (String.eqb_spec s x) as [->|N]; [auto|].
        right. rewrite H2. auto.
Qed.

Lemma firstSeen_NoDup (l : list string) :
  forall seen, NoDup (firstSeen seen l).
Proof.
  induction l as [|x r IH]; intros seen; simpl; [constructor|].
  destruct (existsb (String.eqb x) seen); [apply IH|].
  constructor; [|apply IH].
  rewrite firstSeen_In, existsb_app. simpl.
  rewrite String.eqb_refl, orb_true_r. intros [_ H]. discriminate.
Qed.

(** C9.  The sources of the conversational branch are the labels of the
    retrieved chunks, each kept at its first appearance only and in
    retrieval order, so the list has no duplicate.  The label of a chunk is
    its metadata [fileName] when present; else "CSV Dataset" when its type
    is [csv_summary] or [csv_row]; else its metadata type when present;
    else "Unknown source".  The response of a conversational query carries
    exactly these sources. *)
Theorem sources_first_seen_without_duplicates (relevantChunks : list Chunk) :
  extractSources relevantChunks = firstSeen [] (map sourceOf relevantChunks)
  /\ NoDup (extractSources relevantChunks)
  /\ (forall s, In s (extractSources relevantChunks)
                <-> exists c, In c relevantChunks /\ sourceOf c = s)
  /\ (forall c f, present (fileNameOf c) f -> sourceOf c = f)
  /\ (forall c, absent (fileNameOf c) ->
                (typeOf c = Some "csv_summary" \/ typeOf c = Some "csv_row") ->
                sourceOf c = "CSV Dataset")
  /\ (forall c t, absent (fileNameOf c) -> present (typeOf c) t ->
                  t <> "csv_summary" -> t <> "csv_row" -> sourceOf c = t)
  /\ (forall c, absent (fileNameOf c) -> absent (typeOf c) ->
                sourceOf c = "Unknown source")
  /\ (forall w query model language log r,
        DataProcessor.detectComputationalQuery query = false ->
        fst (processQuery w query model language log) = Returned r ->
        exists v, generateEmbedding w query = Fulfilled v
                  /\ sources r = extractSources
                       (MemStorage.searchChunksByEmbedding (engine w) (storedChunks w) v 5)).
Proof.
  assert (E : extractSources relevantChunks
              = firstSeen [] (map sourceOf relevantChunks))
    by apply removeDuplicates_firstSeen.
  split; [exact E|]. rewrite E.
  split; [apply firstSeen_NoDup|].
  split.
  { intros s. rewrite firstSeen_In, in_map_iff. simpl. split.
    - intros [(c & H1 & H2) _]. eauto.
    - intros (c & H1 & H2). eauto. }
  unfold present, absent, sourceOf.
  split.
  { intros c f [-> N]. simpl. apply String.eqb_neq in N. rewrite N. reflexivity. }
  split.
  { intros c [->| ->] [-> | ->]; reflexivity. }
  split.
  { intros c t A [-> N] N1 N2.
    apply String.eqb_neq in N, N1, N2.
    destruct A as [-> | ->]; simpl; rewrite N, N1, N2; reflexivity. }
  split.
  { intros c [->| ->] [-> | ->]; reflexivity. }
  intros w query model language log r D.
  unfold processQuery, tryCatch. rewrite D, handleRAGQuery_outcome.
  destruct (generateEmbedding w query) as [v|e]; simpl; [|discriminate].
  destruct (MemStorage.searchChunksByEmbedding (engine w) (storedChunks w) v 5)
    as [|c cs] eqn:S; simpl.
  - intros [= <-]. exists v. rewrite S. split; reflexivity.
  - destruct (post w model _); simpl.
    + intros [= <-]. exists v. rewrite S. split; reflexivity.
    + destruct (String.eqb (apiKey w) ""); simpl; [|discriminate].
      intros [= <-]. exists v. rewrite S. split; reflexivity.
Qed.

Lemma sources_first_seen_without_duplicates_witness :
  extractSources Samples.retrieved
  = firstSeen [] (map sourceOf Samples.retrieved)
  /\ NoDup (extractSources Samples.retrieved)
  /\ sourceOf Samples.wheatChunk = "wheat.txt"
  /\ sourceOf Samples.csvRowChunk = "CSV Dataset"
  /\ sourceOf Samples.bareChunk = "Unknown source".
Proof.
  destruct (sources_first_seen_without_duplicates Samples.retrieved)
    as (E & N & _ & F & C & _ & U & _).
  split; [exact E|]. split; [exact N|]. split; [|split].
  - apply F. split; [reflexivity|discriminate].
  - apply C; [left; reflexivity|right; reflexivity].
  - apply U; left; reflexivity.
Defined.

Example extractSources_retrieved :
  extractSources Samples.retrieved = ["wheat.txt"; "CSV Dataset"; "Unknown source"].
Proof. reflexivity. Qed.

(** ** The data processor on tabular data *)

Lemma rowChunks_length (rows : list Row) :
  forall i, List.length (DataProcessor.rowChunks i rows) = List.length rows.
Proof.
  induction rows as [|row rest IH]; intros i; simpl; [reflexivity|].
  now rewrite IH.
Qed.

Lemma rowChunks_nth (rows : list Row) :
  forall i k row,
    nth_error rows k = Some row ->
    nth_error (DataProcessor.rowChunks i rows) k
    = Some (mkTextChunk (DataProcessor.rowContent row) (CsvRowMeta (i + k) row)).
Proof.
  induction rows as [|r rest IH]; intros i k row H.
  - destruct k; discriminate.
  - destruct k as [|k]; simpl in *.
    + injection H as ->. now rewrite Nat.add_0_r.
    + rewrite (IH (S i) k row H).
      replace (S i + k) with (i + S k) by lia. reflexivity.
Qed.

(** C5, as amended.  From [N >= 1] parsed rows [processCSV] makes exactly
    [N + 1] chunks: the chunk of index [i] is the row chunk of row [i], its
    content the flattened "column: value, ..." string, and the last chunk
    is the one summary chunk, which names the columns of the first row and
    the number of rows.  From no row at all it makes no chunk, so a dataset
    without rows has no summary chunk. *)
Theorem processCSV_row_chunks_and_summary (rows : list Row) :
  (rows = [] -> DataProcessor.processCSV rows = [])
  /\ (rows <> [] ->
      List.length (DataProcessor.processCSV rows) = List.length rows + 1
      /\ (forall i row,
            nth_error rows i = Some row ->
            nth_error (DataProcessor.processCSV rows) i
            = Some (mkTextChunk (DataProcessor.rowContent row) (CsvRowMeta i row)))
      /\ (exists first rest,
            rows = first :: rest
            /\ nth_error (DataProcessor.processCSV rows) (List.length rows)
               = Some (mkTextChunk
                         (DataProcessor.summaryContent (map fst first) (List.length rows))
                         (CsvSummaryMeta (map fst first) (List.length rows))))).
Proof.
  split; [intros ->; reflexivity|].
  intros N. destruct rows as [|first rest]; [contradiction|].
  unfold DataProcessor.processCSV.
  split; [|split].
  - rewrite length_app, rowChunks_length. reflexivity.
  - intros i row H.
    rewrite nth_error_app1.
    + apply (rowChunks_nth (first :: rest) 0 i row H).
    + rewrite rowChunks_length. apply nth_error_Some. congruence.
  - exists first, rest. split; [reflexivity|].
    rewrite nth_error_app2; rewrite rowChunks_length; [|lia].
    rewrite Nat.sub_diag. reflexivity.
Qed.

Lemma processCSV_row_chunks_and_summary_witness :
  List.length (DataProcessor.processCSV [Samples.riceRow; Samples.wheatRow])
  = List.length [Samples.riceRow; Samples.wheatRow] + 1.
Proof.
  destruct (processCSV_row_chunks_and_summary [Samples.riceRow; Samples.wheatRow])
    as [_ H].
  destruct H as (L & _); [discriminate|exact L].
Defined.

(** C5, as stated, fails on a CSV input without rows: it yields no chunk,
    where the claim counts [0 + 1] chunks and a summary chunk. *)
Lemma processCSV_no_rows_no_summary :
  List.length (DataProcessor.processCSV []) = 0
  /\ List.length (DataProcessor.processCSV []) <> List.length (@nil Row) + 1.
Proof. split; [reflexivity|discriminate]. Qed.

Example processCSV_rice :
  map tc_content (DataProcessor.processCSV [Samples.riceRow; Samples.wheatRow])
  = ["crop: rice, state: punjab, 2020: 100, 2021: 120";
     "crop: wheat, state: kerala, 2020: 7.5";
     "CSV Dataset with columns: crop, state, 2020, 2021. Total rows: 2"].
Proof. reflexivity. Qed.

(** C2, as amended.  For the query "What is the total rice production in
    Punjab from 2020 to 2022?" on the row [{crop: rice, state: punjab,
    2020: 100, 2021: 120}], the years read from the query are 2020 and
    2022, a column counts only when its name contains one of them, so only
    the column [2020] is summed: the result reports total 100.00, average
    100.00, 1 data point and the year range 2020-2022.  The order in which
    the entries of the row are enumerated does not matter, nor does a
    second row about another crop. *)
Theorem rice_computation_result :
  DataProcessor.performAgriculturalComputation Samples.riceQuery [Samples.riceRow]
  = Samples.riceResult
  /\ DataProcessor.performAgriculturalComputation Samples.riceQuery
       [Samples.riceRowEnumerated]
     = Samples.riceResult
  /\ DataProcessor.performAgriculturalComputation Samples.riceQuery
       [Samples.wheatRow; Samples.riceRow]
     = Samples.riceResult
  /\ DataProcessor.extractYears Samples.riceQuery = [2020; 2022]
  /\ DataProcessor.keyHasYear [2020; 2022] "2021" = false.
Proof. repeat split; vm_compute; reflexivity. Qed.

(** C2, as stated, fails: the result reports neither total 220.00, nor
    average 110.00, nor 2 data points. *)
Lemma rice_computation_not_220 :
  let result :=
    DataProcessor.performAgriculturalComputation Samples.riceQuery [Samples.riceRow] in
  includes result "Total: 220.00" = false
  /\ includes result "Average: 110.00" = false
  /\ includes result "Data points: 2" = false
  /\ includes result "Total: 100.00" = true
  /\ includes result "Data points: 1" = true.
Proof. repeat split; vm_compute; reflexivity. Qed.

(** ** The data processor on free text *)

Lemma length_append (s t : string) :
  String.length (s +++ t) = String.length s + String.length t.
Proof. induction s as [|c s IH]; simpl; [reflexivity|now rewrite IH]. Qed.

Lemma append_assoc (s t u : string) : (s +++ t) +++ u = s +++ t +++ u.
Proof. induction s as [|c s IH]; simpl; [reflexivity|now rewrite IH]. Qed.

Lemma append_empty_r (s : string) : s +++ EmptyString = s.
Proof. induction s as [|c s IH]; simpl; [reflexivity|now rewrite IH]. Qed.

Lemma blank_append (s t : string) : blank (s +++ t) = blank s && blank t.
Proof.
  induction s as [|c s IH]; simpl; [reflexivity|].
  now rewrite IH, andb_assoc.
Qed.

Lemma trimStart_blank (s : string) :
  blank s = true -> trimStart s = EmptyString.
Proof.
  induction s as [|c s IH]; simpl; [reflexivity|].
  intros H. apply andb_prop in H. destruct H as [-> H]. auto.
Qed.

Lemma trimStart_not_blank (s : string) :
  blank s = false -> blank (trimStart s) = false /\ trimStart s <> EmptyString.
Proof.
  induction s as [|c s IH]; simpl; [discriminate|].
  destruct (isWhiteSpace c) eqn:W; simpl.
  - exact IH.
  - intros _. simpl. rewrite W. split; [reflexivity|discriminate].
Qed.

Lemma trimEnd_not_blank (s : string) :
  blank s = false -> trimEnd s <> EmptyString.
Proof.
  induction s as [|c s IH]; simpl; [discriminate|].
  destruct (isWhiteSpace c) eqn:W; simpl.
  - intros H. specialize (IH H). destruct (trimEnd s); [contradiction|discriminate].
  - intros _. destruct (trimEnd s); discriminate.
Qed.

Lemma trimEnd_blank (s : string) :
  blank s = true -> trimEnd s = EmptyString.
Proof.
  induction s as [|c s IH]; simpl; [reflexivity|].
  intros H. apply andb_prop in H. destruct H as [-> H]. now rewrite IH.
Qed.

(** A string trims to a non-empty string exactly when it is not blank. *)
Lemma trim_length_pos (s : string) :
  (0 <? String.length (trim s)) = negb (blank s).
Proof.
  unfold trim. destruct (blank s) eqn:B; simpl.
  - now rewrite trimStart_blank.
  - destruct (trimStart_not_blank s B) as [B' _].
    pose proof (trimEnd_not_blank _ B') as N.
    destruct (trimEnd (trimStart s)); [contradiction|reflexivity].
Qed.

Lemma splitSentences_cons (s : string) :
  forall inRun, exists piece rest,
    DataProcessor.splitSentences inRun s = piece :: rest.
Proof.
  induction s as [|c s IH]; intros inRun; simpl; [eauto|].
  destruct (DataProcessor.isTerminator c).
  - destruct inRun; [apply IH|eauto].
  - destruct (IH false) as (piece & rest & ->). eauto.
Qed.

Lemma splitSentences_totalLength (s : string) :
  forall inRun,
    totalLength (DataProcessor.splitSentences inRun s) <= String.length s.
Proof.
  induction s as [|c s IH]; intros inRun; simpl; [lia|].
  destruct (DataProcessor.isTerminator c).
  - destruct inRun; simpl; specialize (IH true); lia.
  - specialize (IH false).
    destruct (splitSentences_cons s false) as (piece & rest & E).
    rewrite E in *. simpl in *. lia.
Qed.

Lemma filter_totalLength (f : string -> bool) (l : list string) :
  totalLength (filter f l) <= totalLength l.
Proof.
  induction l as [|s r IH]; simpl; [lia|].
  destruct (f s); simpl; lia.
Qed.

Lemma sentencesOf_totalLength (text : string) :
  totalLength (DataProcessor.sentencesOf text) <= String.length text.
Proof.
  unfold DataProcessor.sentencesOf.
  etransitivity; [apply filter_totalLength|apply splitSentences_totalLength].
Qed.

Lemma splitSentences_hasContent (s : string) :
  forall inRun,
    existsb (fun p => negb (blank p)) (DataProcessor.splitSentences inRun s)
    = hasContent s.
Proof.
  induction s as [|c s IH]; intros inRun; simpl; [reflexivity|].
  destruct (DataProcessor.isTerminator c) eqn:T; simpl.
  - rewrite andb_false_r. simpl. destruct inRun; simpl; apply IH.
  - rewrite andb_true_r.
    destruct (splitSentences_cons s false) as (piece & rest & E).
    specialize (IH false). rewrite E in *. simpl in *.
    rewrite <- IH, negb_andb, orb_assoc. reflexivity.
Qed.

Lemma sentencesOf_nil_iff (text : string) :
  DataProcessor.sentencesOf text = [] <-> hasContent text = false.
Proof.
  unfold DataProcessor.sentencesOf.
  rewrite <- (splitSentences_hasContent text false).
  generalize (DataProcessor.splitSentences false text) as l.
  induction l as [|p r IH]; simpl; [tauto|].
  rewrite trim_length_pos. destruct (blank p); simpl; [exact IH|].
  split; discriminate.
Qed.

Lemma chunkLoop_no_split (doc : DocMetadata) (chunkSize overlap : nat)
      (sentences : list string) :
  forall cur len,
    len + totalLength sentences <= chunkSize ->
    fold_left (DataProcessor.chunkStep doc chunkSize overlap) sentences
              (DataProcessor.mkChunkState [] cur len)
    = DataProcessor.mkChunkState [] (cur +++ packed sentences)
                                 (len + totalLength sentences).
Proof.
  induction sentences as [|s r IH]; intros cur len H; simpl in *.
  - now rewrite append_empty_r, Nat.add_0_r.
  - unfold DataProcessor.chunkStep at 2. simpl.
    replace (chunkSize <? len + String.length s) with false
      by (symmetry; apply Nat.ltb_ge; lia).
    simpl. rewrite IH by lia.
    rewrite !append_assoc. f_equal. lia.
Qed.

Lemma packed_blank (sentences : list string) :
  blank (packed sentences) = match sentences with [] => true | _ => false end.
Proof.
  destruct sentences as [|s r]; simpl; [reflexivity|].
  rewrite blank_append. simpl. apply andb_false_r.
Qed.

(** C6, as amended.  For a text shorter than the chunk size, [chunkText]
    returns no chunk when the text has nothing but white space and sentence
    terminators, and exactly one chunk otherwise.  The content of that
    chunk is the trimmed form of the sentences of the text packed together,
    each followed by ". " in place of the terminators it had in the text;
    it has index 0. *)
Theorem chunkText_short_text
        (text : string) (doc : DocMetadata) (chunkSize overlap : nat) :
  String.length text < chunkSize ->
  let body := packed (DataProcessor.sentencesOf text) in
  DataProcessor.chunkText text doc chunkSize overlap
  = (if hasContent text
     then [mkTextChunk (trim body) (TextMeta doc 0 (String.length body))]
     else [])
  /\ List.length (DataProcessor.chunkText text doc chunkSize overlap) <= 1
  /\ (hasContent text = true -> trim body <> EmptyString).
Proof.
  intros H body.
  pose proof (sentencesOf_totalLength text) as L.
  pose proof (sentencesOf_nil_iff text) as N.
  assert (E : DataProcessor.chunkText text doc chunkSize overlap
              = if hasContent text
                then [mkTextChunk (trim body) (TextMeta doc 0 (String.length body))]
                else []).
  { unfold DataProcessor.chunkText, DataProcessor.chunkLoop.
    rewrite chunkLoop_no_split by (simpl; lia). simpl.
    rewrite trim_length_pos, packed_blank. fold body.
    destruct (DataProcessor.sentencesOf text) as [|s r] eqn:S.
    - destruct N as [N _]. rewrite (N eq_refl). reflexivity.
    - destruct (hasContent text) eqn:C.
      + reflexivity.
      + destruct N as [_ N]. discriminate (N eq_refl). }
  split; [exact E|]. split.
  - rewrite E. destruct (hasContent text); simpl; lia.
  - intros C. subst body.
    destruct (DataProcessor.sentencesOf text) as [|s r] eqn:S.
    + destruct N as [N _]. rewrite (N eq_refl) in C. discriminate.
    + pose proof (trim_length_pos (packed (s :: r))) as P.
      rewrite packed_blank in P. simpl negb in P.
      intros Z. rewrite Z in P. discriminate.
Qed.

Lemma chunkText_short_text_witness :
  let body := packed (DataProcessor.sentencesOf Samples.greeting) in
  DataProcessor.chunkText Samples.greeting TextDoc
    DataProcessor.defaultChunkSize DataProcessor.defaultOverlap
  = (if hasContent Samples.greeting
     then [mkTextChunk (trim body) (TextMeta TextDoc 0 (String.length body))]
     else [])
  /\ List.length (DataProcessor.chunkText Samples.greeting TextDoc
                    DataProcessor.defaultChunkSize DataProcessor.defaultOverlap) <= 1
  /\ (hasContent Samples.greeting = true -> trim body <> EmptyString).
Proof.
  apply (chunkText_short_text Samples.greeting TextDoc
           DataProcessor.defaultChunkSize DataProcessor.defaultOverlap).
  vm_compute. lia.
Defined.

(** C6, as stated, fails twice: a non-empty text of spaces, shorter than
    the chunk size, gives no chunk at all; and the one chunk of "Hello!
    World?" has the content "Hello.  World.", which is not the input
    trimmed. *)
Lemma chunkText_short_text_not_input :
  Samples.spacesOnly <> EmptyString
  /\ String.length Samples.spacesOnly < DataProcessor.defaultChunkSize
  /\ DataProcessor.chunkText Samples.spacesOnly TextDoc
       DataProcessor.defaultChunkSize DataProcessor.defaultOverlap = []
  /\ map tc_content
         (DataProcessor.chunkText Samples.greeting TextDoc
            DataProcessor.defaultChunkSize DataProcessor.defaultOverlap)
     = ["Hello.  World."]
  /\ trim Samples.greeting = "Hello! World?".
Proof.
  split; [discriminate|]. split; [vm_compute; lia|].
  repeat split; vm_compute; reflexivity.
Qed.

Lemma bufferChunks_length (doc : DocMetadata) (bs : list string) :
  forall i, List.length (bufferChunks doc i bs) = List.length bs.
Proof.
  induction bs as [|b r IH]; intros i; simpl; [reflexivity|now rewrite IH].
Qed.

Lemma bufferChunks_snoc (doc : DocMetadata) (bs : list string) (b : string) :
  forall i,
    bufferChunks doc i (bs ++ [b])
    = bufferChunks doc i bs
      ++ [mkTextChunk (trim b) (TextMeta doc (i + List.length bs) (String.length b))].
Proof.
  induction bs as [|b0 r IH]; intros i; simpl.
  - now rewrite Nat.add_0_r.
  - rewrite IH. replace (S i + List.length r) with (i + S (List.length r)) by lia.
    reflexivity.
Qed.

Lemma bufferChunks_nth (doc : DocMetadata) (bs : list string) :
  forall i k c,
    nth_error (bufferChunks doc i bs) k = Some c ->
    exists b, nth_error bs k = Some b
              /\ c = mkTextChunk (trim b) (TextMeta doc (i + k) (String.length b)).
Proof.
  induction bs as [|b r IH]; intros i k c H.
  - destruct k; discriminate.
  - destruct k as [|k]; simpl in *.
    + injection H as <-. exists b. now rewrite Nat.add_0_r.
    + destruct (IH (S i) k c H) as (b' & E & ->). exists b'.
      split; [exact E|]. replace (S i + k) with (i + S k) by lia. reflexivity.
Qed.

Lemma OverlapChain_snoc (overlap : nat) (bs : list string) (c : string) :
  OverlapChain overlap bs ->
  (forall pre b, bs = pre ++ [b] -> exists rest, c = sliceLast overlap b +++ rest) ->
  OverlapChain overlap (bs ++ [c]).
Proof.
  intros Hc Hl i b1 b2 H1 H2.
  destruct (Nat.lt_ge_cases (S i) (List.length bs)) as [L|L].
  - rewrite nth_error_app1 in H1, H2 by lia. eauto.
  - assert (Li : i < List.length bs).
    { destruct (Nat.lt_ge_cases i (List.length bs)) as [L'|L']; [exact L'|].
      rewrite nth_error_app2 in H2 by lia.
      destruct (S i - List.length bs) as [|[|n]] eqn:D; simpl in H2;
        try discriminate; lia. }
    rewrite nth_error_app1 in H1 by lia.
    rewrite nth_error_app2 in H2 by lia.
    replace (S i - List.length bs) with 0 in H2 by lia.
    injection H2 as <-.
    destruct (nth_error_split bs i H1) as (l1 & l2 & E & Len).
    destruct l2 as [|x l2].
    + apply (Hl l1 b1 E).
    + subst bs. rewrite length_app in L. simpl in L. lia.
Qed.

Lemma pushChunk_buffers (doc : DocMetadata) (overlap : nat)
      (st : DataProcessor.ChunkState) (bs : list string) :
  ChunkInv doc overlap st bs ->
  DataProcessor.pushChunk doc st
  = bufferChunks doc 0 (bs ++ [DataProcessor.currentChunk st])
  /\ OverlapChain overlap (bs ++ [DataProcessor.currentChunk st]).
Proof.
  intros (Hc & Ho & Hl). split.
  - unfold DataProcessor.pushChunk.
    rewrite bufferChunks_snoc, Hc, bufferChunks_length. reflexivity.
  - apply OverlapChain_snoc; assumption.
Qed.

Lemma chunkStep_inv (doc : DocMetadata) (chunkSize overlap : nat)
      (st : DataProcessor.ChunkState) (bs : list string) (sentence : string) :
  ChunkInv doc overlap st bs ->
  exists bs',
    ChunkInv doc overlap (DataProcessor.chunkStep doc chunkSize overlap st sentence) bs'.
Proof.
  intros I. unfold DataProcessor.chunkStep.
  destruct ((chunkSize <? _) && _).
  - exists (bs ++ [DataProcessor.currentChunk st]).
    destruct (pushChunk_buffers doc overlap st bs I) as [P O].
    split; [exact P|]. split; [exact O|]. simpl.
    intros pre b E. apply app_inj_tail in E. destruct E as [_ <-]. eauto.
  - exists bs. destruct I as (Hc & Ho & Hl).
    split; [exact Hc|]. split; [exact Ho|]. simpl.
    intros pre b E. destruct (Hl pre b E) as (rest & ->).
    exists (rest +++ sentence +++ ". "). apply append_assoc.
Qed.

Lemma chunkLoop_inv (doc : DocMetadata) (chunkSize overlap : nat)
      (sentences : list string) :
  forall st bs,
    ChunkInv doc overlap st bs ->
    exists bs',
      ChunkInv doc overlap
        (fold_left (DataProcessor.chunkStep doc chunkSize overlap) sentences st) bs'.
Proof.
  induction sentences as [|s r IH]; intros st bs I; simpl; [eauto|].
  destruct (chunkStep_inv doc chunkSize overlap st bs s I) as (bs' & I').
  apply (IH _ bs' I').
Qed.

(** The chunks of [chunkText], from any state of its loop, are the chunks
    already pushed followed by the chunks of the buffers still to push. *)
Lemma chunkLoop_buffers (doc : DocMetadata) (chunkSize overlap : nat)
      (sentences : list string) :
  forall st,
    (let st' := fold_left (DataProcessor.chunkStep doc chunkSize overlap)
                          sentences st in
     if 0 <? String.length (trim (DataProcessor.currentChunk st'))
     then DataProcessor.pushChunk doc st'
     else DataProcessor.chunks st')
    = DataProcessor.chunks st
      ++ bufferChunks doc (List.length (DataProcessor.chunks st))
           (buffersFrom chunkSize overlap (DataProcessor.currentChunk st)
                        (DataProcessor.currentLength st) sentences).
Proof.
  induction sentences as [|s r IH]; intros st.
  - simpl. unfold DataProcessor.pushChunk.
    destruct (0 <? _); simpl; [reflexivity|now rewrite app_nil_r].
  - cbv zeta in *. simpl fold_left. rewrite IH.
    unfold DataProcessor.chunkStep. cbv zeta. simpl buffersFrom.
    destruct ((chunkSize <? _) && _).
    + cbn [DataProcessor.chunks DataProcessor.currentChunk
           DataProcessor.currentLength bufferChunks].
      unfold DataProcessor.pushChunk.
      rewrite length_app, <- app_assoc. simpl.
      now rewrite Nat.add_1_r.
    + reflexivity.
Qed.

Lemma buffersFrom_head (chunkSize overlap : nat) (sentences : list string) :
  forall currentChunk currentLength b r,
    buffersFrom chunkSize overlap currentChunk currentLength sentences = b :: r ->
    exists more, b = currentChunk +++ more.
Proof.
  induction sentences as [|s rest IH]; intros cur len b r; simpl.
  - destruct (0 <? _); [|discriminate].
    intros H. injection H as <- _. exists EmptyString.
    now rewrite append_empty_r.
  - destruct ((chunkSize <? _) && _).
    + intros H. injection H as <- _. exists EmptyString.
      now rewrite append_empty_r.
    + intros H. destruct (IH _ _ _ _ H) as (more & ->).
      exists (s +++ ". " +++ more). now rewrite !append_assoc.
Qed.

(** Each buffer after the first is the last [overlap] characters of the
    buffer before it, then the sentence that did not fit, then what was
    added to it. *)
Lemma buffersFrom_chain (chunkSize overlap : nat) (sentences : list string) :
  forall currentChunk currentLength i b1 b2,
    nth_error (buffersFrom chunkSize overlap currentChunk currentLength sentences) i
    = Some b1 ->
    nth_error (buffersFrom chunkSize overlap currentChunk currentLength sentences)
              (S i)
    = Some b2 ->
    exists sentence more,
      In sentence sentences /\ b2 = sliceLast overlap b1 +++ sentence +++ more.
Proof.
  induction sentences as [|s rest IH]; intros cur len i b1 b2; simpl buffersFrom.
  - destruct (0 <? _); intros _ H; [|discriminate].
    destruct i; discriminate.
  - destruct ((chunkSize <? _) && _).
    + destruct i as [|i]; simpl nth_error.
      * intros H1 H2. injection H1 as <-.
        destruct (buffersFrom chunkSize overlap _ _ rest) as [|b r] eqn:E;
          [discriminate|].
        injection H2 as <-.
        destruct (buffersFrom_head _ _ _ _ _ _ _ E) as (more & ->).
        exists s, more. split; [now left|]. now rewrite append_assoc.
      * intros H1 H2. destruct (IH _ _ _ _ _ H1 H2) as (x & more & I & ->).
        exists x, more. split; [now right|reflexivity].
    + intros H1 H2. destruct (IH _ _ _ _ _ H1 H2) as (x & more & I & ->).
      exists x, more. split; [now right|reflexivity].
Qed.

(** C7, as amended.  The chunks of [chunkText] are the trimmed forms of the
    buffers of the loop, the values of [currentChunk] at each push, and the
    metadata of a chunk records its index and the length of its buffer.
    Each buffer after the first is the last [overlap] characters of the
    buffer before it, untrimmed, followed by a sentence of the text and by
    what the loop added after it: a chunk after the first is the trimmed
    form of a text that begins with the last [overlap] characters of the
    untrimmed buffer of its predecessor. *)
Theorem chunkText_overlap_of_buffers
        (text : string) (doc : DocMetadata) (chunkSize overlap : nat) :
  let result := DataProcessor.chunkText text doc chunkSize overlap in
  let buffers := buffersOf text chunkSize overlap in
  result = bufferChunks doc 0 buffers
  /\ OverlapChain overlap buffers
  /\ (forall i c1 c2,
        nth_error result i = Some c1 ->
        nth_error result (S i) = Some c2 ->
        exists b1 sentence more,
          nth_error buffers i = Some b1
          /\ In sentence (DataProcessor.sentencesOf text)
          /\ nth_error buffers (S i)
             = Some (sliceLast overlap b1 +++ sentence +++ more)
          /\ c1 = mkTextChunk (trim b1) (TextMeta doc i (String.length b1))
          /\ c2 = mkTextChunk
                    (trim (sliceLast overlap b1 +++ sentence +++ more))
                    (TextMeta doc (S i)
                       (String.length
                          (sliceLast overlap b1 +++ sentence +++ more)))).
Proof.
  cbv zeta.
  assert (B : DataProcessor.chunkText text doc chunkSize overlap
              = bufferChunks doc 0 (buffersOf text chunkSize overlap)).
  { unfold DataProcessor.chunkText, DataProcessor.chunkLoop, buffersOf.
    pose proof (chunkLoop_buffers doc chunkSize overlap
                  (DataProcessor.sentencesOf text)
                  (DataProcessor.mkChunkState [] EmptyString 0)) as H.
    cbv zeta in H. exact H. }
  split; [exact B|]. split.
  - intros i b1 b2 H1 H2.
    destruct (buffersFrom_chain _ _ _ _ _ _ _ _ H1 H2) as (x & more & _ & ->).
    eauto.
  - rewrite B. intros i c1 c2 H1 H2.
    destruct (bufferChunks_nth doc _ 0 i c1 H1) as (b1 & E1 & ->).
    destruct (bufferChunks_nth doc _ 0 (S i) c2 H2) as (b2 & E2 & ->).
    destruct (buffersFrom_chain _ _ _ _ _ _ _ _ E1 E2) as (x & more & I & ->).
    exists b1, x, more. repeat split; assumption.
Qed.

Lemma chunkText_overlap_of_buffers_witness :
  DataProcessor.chunkText Samples.threeSentences NoDoc 6 3
  = bufferChunks NoDoc 0 ["aaaa. "; "a. bbbb"; "bbbcccc"]
  /\ exists b1 sentence more,
      nth_error (buffersOf Samples.threeSentences 6 3) 0 = Some b1
      /\ In sentence (DataProcessor.sentencesOf Samples.threeSentences)
      /\ nth_error (buffersOf Samples.threeSentences 6 3) 1
         = Some (sliceLast 3 b1 +++ sentence +++ more)
      /\ mkTextChunk "aaaa." (TextMeta NoDoc 0 6)
         = mkTextChunk (trim b1) (TextMeta NoDoc 0 (String.length b1))
      /\ mkTextChunk "a. bbbb" (TextMeta NoDoc 1 7)
         = mkTextChunk
             (trim (sliceLast 3 b1 +++ sentence +++ more))
             (TextMeta NoDoc 1
                (String.length (sliceLast 3 b1 +++ sentence +++ more))).
Proof.
  destruct (chunkText_overlap_of_buffers Samples.threeSentences NoDoc 6 3)
    as (B & _ & H).
  split; [exact B|].
  apply (H 0 (mkTextChunk "aaaa." (TextMeta NoDoc 0 6))
           (mkTextChunk "a. bbbb" (TextMeta NoDoc 1 7)));
    vm_compute; reflexivity.
Defined.

(** C7, as stated, fails: with the default sizes, the second chunk of two
    sentences of 600 characters begins with the last 200 characters of the
    untrimmed first buffer (198 letters, a full stop and a space), which is
    not how the last 200 characters of the first chunk's content read (199
    letters and a full stop). *)
Lemma chunkText_overlap_not_of_content :
  map tc_content
      (DataProcessor.chunkText Samples.twoLongSentences TextDoc
         DataProcessor.defaultChunkSize DataProcessor.defaultOverlap)
  = [Samples.repeatChar "a" 600 +++ ".";
     Samples.repeatChar "a" 198 +++ ". " +++ Samples.repeatChar "b" 600]
  /\ sliceLast DataProcessor.defaultOverlap (Samples.repeatChar "a" 600 +++ ".")
     = Samples.repeatChar "a" 199 +++ "."
  /\ startsWith (Samples.repeatChar "a" 198 +++ ". " +++ Samples.repeatChar "b" 600)
                (sliceLast DataProcessor.defaultOverlap
                           (Samples.repeatChar "a" 600 +++ "."))
     = false.
Proof. repeat split; vm_compute; reflexivity. Qed.

(** ** Binary64 arithmetic *)

Module FloatFacts.

Import FloatOrder.

Local Open Scope Z_scope.

Lemma SF64mul_comm (a b : spec_float) : SF64mul a b = SF64mul b a.
Proof.
  unfold SF64mul.
  destruct a as [sa|sa| |sa ma ea], b as [sb|sb| |sb mb eb]; simpl;
    try reflexivity; try (now rewrite xorb_comm).
  now rewrite xorb_comm, Pos.mul_comm, Z.add_comm.
Qed.

Lemma mul_comm (x y : float) : (x * y)%float = (y * x)%float.
Proof.
  apply Prim2SF_inj. rewrite !mul_spec. apply SF64mul_comm.
Qed.

Lemma SFcompare_key (a b : spec_float) :
  isNaN a = false -> isNaN b = false ->
  SFcompare a b = Some (lexCompare (key a) (key b)).
Proof.
  destruct a as [sa|sa| |sa ma ea], b as [sb|sb| |sb mb eb];
    try discriminate; intros _ _; simpl;
    repeat match goal with s : bool |- _ => destruct s end;
    simpl; try reflexivity.
  rewrite Z.compare_opp, (Z.compare_antisym ea eb).
  destruct (ea ?= eb); reflexivity.
Qed.

Lemma lexCompare_refl a : lexCompare a a = Eq.
Proof.
  destruct a as [[a1 a2] a3]. simpl. now rewrite !Z.compare_refl.
Qed.

Lemma lexCompare_antisym a b : lexCompare b a = CompOpp (lexCompare a b).
Proof.
  destruct a as [[a1 a2] a3], b as [[b1 b2] b3]. simpl.
  rewrite (Z.compare_antisym a1 b1), (Z.compare_antisym a2 b2),
    (Z.compare_antisym a3 b3).
  destruct (a1 ?= b1), (a2 ?= b2), (a3 ?= b3); reflexivity.
Qed.

Lemma lexLe_iff a1 a2 a3 b1 b2 b3 :
  lexLe (a1, a2, a3) (b1, b2, b3)
  <-> a1 < b1 \/ (a1 = b1 /\ (a2 < b2 \/ (a2 = b2 /\ a3 <= b3))).
Proof.
  unfold lexLe. simpl.
  destruct (Z.compare_spec a1 b1), (Z.compare_spec a2 b2), (Z.compare_spec a3 b3);
    split; intros G; try lia; try discriminate; try (exfalso; apply G; reflexivity).
Qed.

Lemma lexLe_trans a b c : lexLe a b -> lexLe b c -> lexLe a c.
Proof.
  destruct a as [[a1 a2] a3], b as [[b1 b2] b3], c as [[c1 c2] c3].
  rewrite !lexLe_iff. lia.
Qed.

Lemma lexCompare_eq a b : lexCompare a b = Eq <-> a = b.
Proof.
  destruct a as [[a1 a2] a3], b as [[b1 b2] b3]. simpl.
  destruct (Z.compare_spec a1 b1), (Z.compare_spec a2 b2), (Z.compare_spec a3 b3);
    split; intros G; try discriminate; try (injection G; lia); subst; reflexivity.
Qed.

(** [x <=? y] on numbers, through their keys. *)
Lemma leb_key (x y : float) :
  (x <=? y)%float = true <->
  isNaN (Prim2SF x) = false /\ isNaN (Prim2SF y) = false
  /\ lexLe (key (Prim2SF x)) (key (Prim2SF y)).
Proof.
  rewrite leb_spec. unfold SFleb, lexLe.
  destruct (isNaN (Prim2SF x)) eqn:Nx.
  { destruct (Prim2SF x); try discriminate. simpl. split; [discriminate|].
    intros [H _]; discriminate. }
  destruct (isNaN (Prim2SF y)) eqn:Ny.
  { destruct (Prim2SF y); try discriminate.
    destruct (Prim2SF x); simpl; (split; [discriminate|intros (_ & H & _); discriminate]). }
  rewrite (SFcompare_key _ _ Nx Ny).
  destruct (lexCompare _ _); split; intros H; try discriminate; auto;
    try (repeat split; auto; discriminate).
  destruct H as (_ & _ & H). contradiction.
Qed.

Lemma ltb_key (x y : float) :
  (x <? y)%float = true <->
  isNaN (Prim2SF x) = false /\ isNaN (Prim2SF y) = false
  /\ lexCompare (key (Prim2SF x)) (key (Prim2SF y)) = Lt.
Proof.
  rewrite ltb_spec. unfold SFltb.
  destruct (isNaN (Prim2SF x)) eqn:Nx.
  { destruct (Prim2SF x); try discriminate. simpl. split; [discriminate|].
    intros [H _]; discriminate. }
  destruct (isNaN (Prim2SF y)) eqn:Ny.
  { destruct (Prim2SF y); try discriminate.
    destruct (Prim2SF x); simpl; (split; [discriminate|intros (_ & H & _); discriminate]). }
  rewrite (SFcompare_key _ _ Nx Ny).
  destruct (lexCompare _ _); split; intros H; try discriminate; auto;
    try (destruct H as (_ & _ & H); discriminate).
Qed.

Lemma eqb_key (x y : float) :
  (x =? y)%float = true <->
  isNaN (Prim2SF x) = false /\ isNaN (Prim2SF y) = false
  /\ key (Prim2SF x) = key (Prim2SF y).
Proof.
  rewrite eqb_spec. unfold SFeqb. rewrite <- lexCompare_eq.
  destruct (isNaN (Prim2SF x)) eqn:Nx.
  { destruct (Prim2SF x); try discriminate. simpl. split; [discriminate|].
    intros [H _]; discriminate. }
  destruct (isNaN (Prim2SF y)) eqn:Ny.
  { destruct (Prim2SF y); try discriminate.
    destruct (Prim2SF x); simpl; (split; [discriminate|intros (_ & H & _); discriminate]). }
  rewrite (SFcompare_key _ _ Nx Ny).
  destruct (lexCompare _ _); split; intros H; try discriminate; auto;
    try (destruct H as (_ & _ & H); discriminate).
Qed.

Lemma is_nan_spec (x : float) : is_nan x = isNaN (Prim2SF x).
Proof.
  unfold is_nan. destruct (x =? x)%float eqn:E.
  - apply eqb_key in E. destruct E as [-> _]. reflexivity.
  - destruct (isNaN (Prim2SF x)) eqn:N; [reflexivity|].
    assert ((x =? x)%float = true) by (apply eqb_key; auto).
    congruence.
Qed.

Lemma leb_trans (x y z : float) :
  (x <=? y)%float = true -> (y <=? z)%float = true -> (x <=? z)%float = true.
Proof.
  rewrite !leb_key. intros (Nx & Ny & L1) (_ & Nz & L2).
  repeat split; auto. eapply lexLe_trans; eauto.
Qed.

Lemma leb_total (x y : float) :
  is_nan x = false -> is_nan y = false ->
  (x <? y)%float = false -> (y <=? x)%float = true.
Proof.
  rewrite !is_nan_spec. intros Nx Ny H.
  apply leb_key. repeat split; auto. unfold lexLe.
  rewrite lexCompare_antisym.
  destruct (lexCompare (key (Prim2SF x)) (key (Prim2SF y))) eqn:C;
    simpl; try discriminate.
  assert ((x <? y)%float = true) by (apply ltb_key; auto). congruence.
Qed.

Lemma ltb_leb (x y : float) : (x <? y)%float = true -> (x <=? y)%float = true.
Proof.
  rewrite ltb_key, leb_key. intros (Nx & Ny & C). repeat split; auto.
  unfold lexLe. rewrite C. discriminate.
Qed.

Lemma eqb_not_ltb (x y s : float) :
  (x =? s)%float = true -> (y =? s)%float = true -> (x <? y)%float = false.
Proof.
  rewrite !eqb_key. intros (Nx & _ & Kx) (Ny & _ & Ky).
  destruct (x <? y)%float eqn:L; [|reflexivity].
  apply ltb_key in L. destruct L as (_ & _ & L).
  rewrite Kx, Ky, lexCompare_refl in L. discriminate.
Qed.

(** ** The sign of a difference *)

Lemma digits2_pos_bounds (m : positive) :
  2 ^ (Zpos (digits2_pos m) - 1) <= Zpos m < 2 ^ Zpos (digits2_pos m).
Proof.
  induction m as [m IH|m IH|]; simpl digits2_pos.
  - rewrite Pos2Z.inj_succ, Z.pow_succ_r by lia.
    replace (Z.succ (Zpos (digits2_pos m)) - 1) with (Z.succ (Zpos (digits2_pos m) - 1)) by lia.
    rewrite Z.pow_succ_r by lia. lia.
  - rewrite Pos2Z.inj_succ, Z.pow_succ_r by lia.
    replace (Z.succ (Zpos (digits2_pos m)) - 1) with (Z.succ (Zpos (digits2_pos m) - 1)) by lia.
    rewrite Z.pow_succ_r by lia. lia.
  - simpl. lia.
Qed.

Lemma shr_1_m (r : shr_record) :
  0 <= shr_m r -> shr_m (shr_1 r) = Z.div2 (shr_m r).
Proof.
  destruct r as [m b s]. simpl. intros H.
  destruct m as [|[p|p|]|p]; simpl; try reflexivity; lia.
Qed.

Lemma iter_shr_1_m (p : positive) :
  forall r, 0 <= shr_m r ->
            shr_m (iter_pos shr_1 p r) = Z.shiftr (shr_m r) (Zpos p).
Proof.
  induction p as [p IH|p IH|]; intros r H; simpl iter_pos.
  - assert (H1 : 0 <= shr_m (shr_1 r)).
    { rewrite shr_1_m by exact H. apply Z.div2_nonneg. exact H. }
    assert (H2 : 0 <= shr_m (iter_pos shr_1 p (shr_1 r))).
    { rewrite IH by exact H1. apply Z.shiftr_nonneg. exact H1. }
    rewrite IH by exact H2. rewrite IH by exact H1.
    rewrite shr_1_m by exact H. rewrite Z.div2_spec.
    rewrite !Z.shiftr_shiftr by lia. f_equal. lia.
  - assert (H2 : 0 <= shr_m (iter_pos shr_1 p r)).
    { rewrite IH by exact H. apply Z.shiftr_nonneg. exact H. }
    rewrite IH by exact H2. rewrite IH by exact H.
    rewrite !Z.shiftr_shiftr by lia. f_equal. lia.
  - rewrite shr_1_m by exact H. apply Z.div2_spec.
Qed.

Lemma shr_fexp_pos (m e : Z) (l : location) :
  0 < m -> emin <= e ->
  0 < shr_m (fst (shr_fexp prec emax m e l))
  /\ emin <= snd (shr_fexp prec emax m e l).
Proof.
  intros Hm He. unfold shr_fexp, shr.
  assert (Hr : shr_m (shr_record_of_loc m l) = m).
  { destruct l as [|[]]; reflexivity. }
  destruct (fexp prec emax (Zdigits2 m + e) - e) as [|p|p] eqn:N; simpl;
    rewrite ?Hr; try (split; assumption).
  rewrite iter_shr_1_m by (rewrite Hr; lia). rewrite Hr.
  destruct m as [|m|m]; try lia. simpl Zdigits2 in N.
  pose proof (digits2_pos_bounds m) as [B1 B2].
  unfold fexp, SpecFloat.emin, prec, emax in *.
  split; [|lia].
  rewrite Z.shiftr_div_pow2 by lia.
  apply Z.div_str_pos. split; [apply Z.pow_pos_nonneg; lia|].
  etransitivity; [|exact B1].
  apply Z.pow_le_mono_r; lia.
Qed.

Lemma round_nearest_even_pos (m : Z) (l : location) :
  0 < m -> 0 < round_nearest_even m l.
Proof.
  intros H. destruct l as [|[]]; simpl; try lia.
  destruct (Z.even m); lia.
Qed.

(** Rounding a positive mantissa at an exponent that is not below the
    least one gives a number of the sign asked for, not a zero. *)
Lemma binary_round_aux_sign (s : bool) (m e : Z) (l : location) :
  0 < m -> emin <= e ->
  SFltb (S754_zero false) (binary_round_aux prec emax s m e l) = negb s.
Proof.
  intros Hm He. unfold binary_round_aux.
  pose proof (shr_fexp_pos m e l Hm He) as [P1 E1].
  destruct (shr_fexp prec emax m e l) as [mrs' e']. simpl in P1, E1.
  pose proof (round_nearest_even_pos (shr_m mrs') (loc_of_shr_record mrs') P1) as P2.
  pose proof (shr_fexp_pos _ e' loc_Exact P2 E1) as [P3 E3].
  destruct (shr_fexp prec emax _ e' loc_Exact) as [mrs'' e'']. simpl in P3, E3.
  destruct (shr_m mrs'') as [|q|q]; try lia.
  destruct (e'' <=? emax - prec); destruct s; reflexivity.
Qed.

Lemma shl_align_exponent (m : positive) (e e' : Z) :
  snd (shl_align m e e') = Z.min e e'.
Proof.
  unfold shl_align. destruct (e' - e) eqn:D; simpl; lia.
Qed.

Lemma binary_round_sign (s : bool) (m : positive) (e : Z) :
  emin <= e ->
  SFltb (S754_zero false) (binary_round prec emax s m e) = negb s.
Proof.
  intros He. unfold binary_round.
  pose proof (shl_align_exponent m e (fexp prec emax (Zpos (digits2_pos m) + e))) as A.
  destruct (shl_align m e _) as [mz ez]. simpl in A.
  apply binary_round_aux_sign; [lia|].
  unfold fexp, SpecFloat.emin in *. lia.
Qed.

Lemma binary_normalize_sign (d e : Z) :
  emin <= e ->
  SFltb (S754_zero false) (binary_normalize prec emax d e false) = (0 <? d).
Proof.
  intros He. destruct d as [|d|d]; simpl binary_normalize.
  - reflexivity.
  - now rewrite binary_round_sign.
  - now rewrite binary_round_sign.
Qed.

Lemma iter_xO_pow (m d : positive) :
  Zpos (Pos.iter xO m d) = Zpos m * 2 ^ Zpos d.
Proof.
  induction d as [|d IH] using Pos.peano_ind.
  - simpl. lia.
  - rewrite Pos.iter_succ, Pos2Z.inj_xO, IH, Pos2Z.inj_succ, Z.pow_succ_r by lia.
    lia.
Qed.

Lemma shl_align_mantissa (m : positive) (e ez : Z) :
  ez <= e -> Zpos (fst (shl_align m e ez)) = Zpos m * 2 ^ (e - ez).
Proof.
  intros H. unfold shl_align.
  destruct (ez - e) as [|d|d] eqn:D; simpl; try lia.
  - replace (e - ez) with 0 by lia. simpl. lia.
  - rewrite iter_xO_pow. pose proof (Pos2Z.opp_pos d) as O.
    replace (e - ez) with (Zpos d) by lia. reflexivity.
Qed.

Lemma valid_finite (s : bool) (m : positive) (e : Z) :
  valid_binary (S754_finite s m e) = true ->
  emin <= e
  /\ Zpos (digits2_pos m) <= prec
  /\ (emin < e -> Zpos (digits2_pos m) = prec).
Proof.
  simpl. unfold bounded, canonical_mantissa, fexp, SpecFloat.emin, prec, emax.
  intros H. apply andb_prop in H. destruct H as [H _].
  apply Z.eqb_eq in H. lia.
Qed.

(** Two valid finite numbers of the same sign compare as their
    mantissas do once aligned on the lesser exponent. *)
Lemma aligned_compare (sx sy : bool) (mx my : positive) (ex ey : Z) :
  valid_binary (S754_finite sx mx ex) = true ->
  valid_binary (S754_finite sy my ey) = true ->
  (Zpos (fst (shl_align mx ex (Z.min ey ex)))
   ?= Zpos (fst (shl_align my ey (Z.min ey ex))))
  = match ex ?= ey with
    | Eq => (mx ?= my)%positive
    | c => c
    end.
Proof.
  intros Vx Vy.
  apply valid_finite in Vx, Vy.
  destruct Vx as (Ex & Dx & Nx), Vy as (Ey & Dy & Ny).
  pose proof (digits2_pos_bounds mx) as [Lx Ux].
  pose proof (digits2_pos_bounds my) as [Ly Uy].
  rewrite !shl_align_mantissa by lia.
  assert (P53 : 2 ^ prec = 2 * 2 ^ (prec - 1)) by reflexivity.
  destruct (Z.compare_spec ex ey) as [E|L|G].
  - subst ey. rewrite Z.min_id, Z.sub_diag. simpl Z.pow.
    rewrite !Z.mul_1_r. reflexivity.
  - rewrite Z.min_r by lia. rewrite Z.sub_diag. simpl (2 ^ 0). rewrite Z.mul_1_r.
    apply Z.compare_lt_iff.
    rewrite (Ny ltac:(lia)) in Ly.
    assert (2 ^ Zpos (digits2_pos mx) <= 2 ^ prec) by (apply Z.pow_le_mono_r; lia).
    assert (2 ^ 1 <= 2 ^ (ey - ex)) by (apply Z.pow_le_mono_r; lia).
    change (2 ^ 1) with 2 in *. nia.
  - rewrite Z.min_l by lia. rewrite Z.sub_diag. simpl (2 ^ 0). rewrite Z.mul_1_r.
    apply Z.compare_gt_iff.
    rewrite (Nx ltac:(lia)) in Lx.
    assert (2 ^ Zpos (digits2_pos my) <= 2 ^ prec) by (apply Z.pow_le_mono_r; lia).
    assert (2 ^ 1 <= 2 ^ (ex - ey)) by (apply Z.pow_le_mono_r; lia).
    change (2 ^ 1) with 2 in *. nia.
Qed.

(** The difference [y - x] is positive exactly when [x < y], for valid
    numbers. *)
Lemma SF64sub_positive (x y : spec_float) :
  valid_binary x = true -> valid_binary y = true ->
  SFltb (S754_zero false) (SF64sub y x) = SFltb x y.
Proof.
  intros Vx Vy. unfold SF64sub.
  destruct y as [sy|sy| |sy my ey], x as [sx|sx| |sx mx ex];
    try (repeat match goal with s : bool |- _ => destruct s end; reflexivity).
  unfold SFsub.
  pose proof (valid_finite _ _ _ Vx) as (Ex & _).
  pose proof (valid_finite _ _ _ Vy) as (Ey & _).
  rewrite binary_normalize_sign by lia.
  pose proof (aligned_compare sx sy mx my ex ey Vx Vy) as C.
  set (MX := Zpos (fst (shl_align mx ex (Z.min ey ex)))) in *.
  set (MY := Zpos (fst (shl_align my ey (Z.min ey ex)))) in *.
  assert (PX : 0 < MX) by (subst MX; lia).
  assert (PY : 0 < MY) by (subst MY; lia).
  unfold SFltb, SFcompare. fold (Pos.compare mx my).
  destruct sx, sy; cbv [cond_Zopp].
  - replace (match ex ?= ey with
             | Eq => CompOpp (mx ?= my)%positive
             | Lt => Gt
             | Gt => Lt
             end)
      with (CompOpp (MX ?= MY))
      by (rewrite C; destruct (ex ?= ey); reflexivity).
    destruct (Z.compare_spec MX MY); cbv [CompOpp];
      [apply Z.ltb_ge|apply Z.ltb_ge|apply Z.ltb_lt]; lia.
  - apply Z.ltb_lt. lia.
  - apply Z.ltb_ge. lia.
  - replace (match ex ?= ey with
             | Eq => (mx ?= my)%positive
             | Lt => Lt
             | Gt => Gt
             end)
      with (MX ?= MY)
      by (rewrite C; destruct (ex ?= ey); reflexivity).
    destruct (Z.compare_spec MX MY);
      [apply Z.ltb_ge|apply Z.ltb_lt|apply Z.ltb_ge]; lia.
Qed.

Lemma sub_positive (x y : float) : (0 <? y - x)%float = (x <? y)%float.
Proof.
  rewrite !ltb_spec, sub_spec.
  change (Prim2SF 0) with (S754_zero false).
  apply SF64sub_positive; apply Prim2SF_valid.
Qed.

Lemma binary_round_aux_negative (s : bool) (m e : Z) (l : location) :
  0 < m -> emin <= e ->
  SFltb (binary_round_aux prec emax s m e l) (S754_zero false) = s.
Proof.
  intros Hm He. unfold binary_round_aux.
  pose proof (shr_fexp_pos m e l Hm He) as [P1 E1].
  destruct (shr_fexp prec emax m e l) as [mrs' e']. simpl in P1, E1.
  pose proof (round_nearest_even_pos (shr_m mrs') (loc_of_shr_record mrs') P1) as P2.
  pose proof (shr_fexp_pos _ e' loc_Exact P2 E1) as [P3 E3].
  destruct (shr_fexp prec emax _ e' loc_Exact) as [mrs'' e'']. simpl in P3, E3.
  destruct (shr_m mrs'') as [|q|q]; try lia.
  destruct (e'' <=? emax - prec); destruct s; reflexivity.
Qed.

Lemma binary_round_negative (s : bool) (m : positive) (e : Z) :
  emin <= e ->
  SFltb (binary_round prec emax s m e) (S754_zero false) = s.
Proof.
  intros He. unfold binary_round.
  pose proof (shl_align_exponent m e (fexp prec emax (Zpos (digits2_pos m) + e))) as A.
  destruct (shl_align m e _) as [mz ez]. simpl in A.
  apply binary_round_aux_negative; [lia|].
  unfold fexp, SpecFloat.emin in *. lia.
Qed.

Lemma binary_normalize_negative (d e : Z) :
  emin <= e ->
  SFltb (binary_normalize prec emax d e false) (S754_zero false) = (d <? 0).
Proof.
  intros He. destruct d as [|d|d]; simpl binary_normalize.
  - reflexivity.
  - now rewrite binary_round_negative.
  - now rewrite binary_round_negative.
Qed.

(** The difference [y - x] is negative exactly when [y < x]. *)
Lemma SF64sub_negative (x y : spec_float) :
  valid_binary x = true -> valid_binary y = true ->
  SFltb (SF64sub y x) (S754_zero false) = SFltb y x.
Proof.
  intros Vx Vy. unfold SF64sub.
  destruct y as [sy|sy| |sy my ey], x as [sx|sx| |sx mx ex];
    try (repeat match goal with s : bool |- _ => destruct s end; reflexivity).
  unfold SFsub.
  pose proof (valid_finite _ _ _ Vx) as (Ex & _).
  pose proof (valid_finite _ _ _ Vy) as (Ey & _).
  rewrite binary_normalize_negative by lia.
  pose proof (aligned_compare sx sy mx my ex ey Vx Vy) as C.
  set (MX := Zpos (fst (shl_align mx ex (Z.min ey ex)))) in *.
  set (MY := Zpos (fst (shl_align my ey (Z.min ey ex)))) in *.
  assert (PX : 0 < MX) by (subst MX; lia).
  assert (PY : 0 < MY) by (subst MY; lia).
  unfold SFltb, SFcompare. fold (Pos.compare my mx).
  rewrite (Z.compare_antisym ex ey), (Pos.compare_antisym mx my).
  destruct (Z.compare_spec MX MY) as [Q|Q|Q];
    destruct sx, sy; cbv [cond_Zopp];
    destruct (ex ?= ey) eqn:Ce, (mx ?= my)%positive eqn:Cm; cbv [CompOpp];
    try discriminate C;
    first [apply Z.ltb_lt; lia | apply Z.ltb_ge; lia].
Qed.

Lemma sub_negative (x y : float) : (y - x <? 0)%float = (y <? x)%float.
Proof.
  rewrite !ltb_spec, sub_spec.
  change (Prim2SF 0) with (S754_zero false).
  apply SF64sub_negative; apply Prim2SF_valid.
Qed.

Lemma ltb_irrefl (x : float) : (x <? x)%float = false.
Proof.
  destruct (x <? x)%float eqn:L; [|reflexivity].
  apply ltb_key in L. destruct L as (_ & _ & L).
  rewrite lexCompare_refl in L. discriminate.
Qed.

Lemma ltb_asym (x y : float) : (x <? y)%float = true -> (y <? x)%float = false.
Proof.
  intros L. destruct (y <? x)%float eqn:G; [|reflexivity].
  apply ltb_key in L, G. destruct L as (_ & _ & L), G as (_ & _ & G).
  rewrite lexCompare_antisym, L in G. discriminate.
Qed.

Lemma leb_not_ltb (x y : float) : (y <=? x)%float = true -> (x <? y)%float = false.
Proof.
  intros L. destruct (x <? y)%float eqn:G; [|reflexivity].
  apply leb_key in L. apply ltb_key in G.
  destruct L as (_ & _ & L), G as (_ & _ & G).
  unfold lexLe in L. rewrite lexCompare_antisym, G in L. now elim L.
Qed.

Lemma ltb_trans (x y z : float) :
  (x <? y)%float = true -> (y <? z)%float = true -> (x <? z)%float = true.
Proof.
  intros L1 L2.
  assert (Nx : is_nan x = false).
  { rewrite is_nan_spec. apply ltb_key in L1. tauto. }
  assert (Nz : is_nan z = false).
  { rewrite is_nan_spec. apply ltb_key in L2. tauto. }
  destruct (x <? z)%float eqn:G; [reflexivity|].
  pose proof (leb_total x z Nx Nz G) as L3.
  pose proof (leb_trans _ _ _ L3 (ltb_leb _ _ L1)) as L4.
  rewrite (leb_not_ltb _ _ L4) in L2. discriminate.
Qed.

End FloatFacts.

(** ** Cosine similarity *)

Module SimilarityFacts.

Import FloatOrder FloatFacts MemStorage.

Lemma is_zero_spec (x : float) : is_zero x = isZero (Prim2SF x).
Proof.
  unfold is_zero. rewrite eqb_spec.
  change (Prim2SF zero) with (S754_zero false).
  destruct (Prim2SF x) as [[]|[]| |[] m e]; reflexivity.
Qed.

Lemma is_infinity_spec (x : float) :
  is_infinity x = match Prim2SF x with S754_infinity _ => true | _ => false end.
Proof.
  unfold is_infinity. rewrite eqb_spec, abs_spec.
  change (Prim2SF infinity) with (S754_infinity false).
  destruct (Prim2SF x) as [[]|[]| |[] m e]; reflexivity.
Qed.

Lemma nan_of_spec (x : float) : Prim2SF x = S754_nan -> x = nan.
Proof. intros H. apply Prim2SF_inj. rewrite H. reflexivity. Qed.

(** A product with a zero or [NaN] factor is a zero or [NaN]. *)
Lemma mul_zero_or_nan (x y : float) :
  isZeroOrNaN (Prim2SF x) = true \/ isZeroOrNaN (Prim2SF y) = true ->
  isZeroOrNaN (Prim2SF (x * y)) = true.
Proof.
  rewrite mul_spec. unfold SF64mul.
  destruct (Prim2SF x) as [sx|sx| |sx mx ex], (Prim2SF y) as [sy|sy| |sy my ey];
    simpl; intros [H|H]; try discriminate; reflexivity.
Qed.

Lemma add_zero_or_nan (x y : float) :
  isZeroOrNaN (Prim2SF x) = true -> isZeroOrNaN (Prim2SF y) = true ->
  isZeroOrNaN (Prim2SF (x + y)) = true.
Proof.
  rewrite add_spec. unfold SF64add.
  destruct (Prim2SF x) as [[]|sx| |sx mx ex], (Prim2SF y) as [[]|sy| |sy my ey];
    simpl; intros H1 H2; try discriminate; reflexivity.
Qed.

(** A quotient by a zero or [NaN] is an infinity or [NaN]; it is [NaN]
    when the dividend is a zero or [NaN] too. *)
Lemma div_by_zero_or_nan (d p : float) :
  isZeroOrNaN (Prim2SF p) = true ->
  isInfOrNaN (Prim2SF (d / p)) = true
  /\ (isZeroOrNaN (Prim2SF d) = true -> Prim2SF (d / p) = S754_nan).
Proof.
  rewrite div_spec. unfold SF64div.
  destruct (Prim2SF d) as [sd|sd| |sd md ed], (Prim2SF p) as [sp|sp| |sp mp ep];
    simpl; intros H; try discriminate; split; try reflexivity;
    intros H'; try discriminate; reflexivity.
Qed.

Lemma dotFrom_zero_or_nan (a b : list float) :
  zeroVector a \/ zeroVector b ->
  forall i sum,
    isZeroOrNaN (Prim2SF sum) = true ->
    isZeroOrNaN (Prim2SF (dotFrom i a b sum)) = true.
Proof.
  intros Z. induction a as [|ai r IH]; intros i sum H; simpl; [exact H|].
  assert (Zr : zeroVector r \/ zeroVector b).
  { destruct Z as [Z|Z]; [left; inversion Z; assumption|right; exact Z]. }
  apply (IH Zr). apply add_zero_or_nan; [exact H|].
  apply mul_zero_or_nan. destruct Z as [Z|Z].
  - left. inversion Z as [|? ? Hz _]; subst.
    rewrite is_zero_spec in Hz. destruct (Prim2SF ai); try discriminate; reflexivity.
  - right. destruct (nth_in_or_default i b nan) as [I | ->]; [|reflexivity].
    unfold zeroVector in Z. rewrite Forall_forall in Z. specialize (Z _ I).
    rewrite is_zero_spec in Z.
    destruct (Prim2SF (nth i b nan)); try discriminate; reflexivity.
Qed.

Lemma sumSquares_zero (a : list float) :
  zeroVector a ->
  forall sum,
    Prim2SF sum = S754_zero false ->
    Prim2SF (fold_left (fun sum ai => (sum + ai * ai)%float) a sum)
    = S754_zero false.
Proof.
  induction 1 as [|ai r Hz _ IH]; intros sum H; simpl; [exact H|].
  apply IH. rewrite add_spec, mul_spec, H.
  rewrite is_zero_spec in Hz.
  destruct (Prim2SF ai) as [[]| | |]; try discriminate; reflexivity.
Qed.

Lemma magnitude_zeroVector (a : list float) :
  zeroVector a -> is_zero (magnitude a) = true.
Proof.
  intros Z. rewrite is_zero_spec. unfold magnitude. rewrite sqrt_spec.
  rewrite (sumSquares_zero a Z 0%float eq_refl). reflexivity.
Qed.

Lemma magnitudes_product (a b : list float) :
  is_zero (magnitude a) = true \/ is_zero (magnitude b) = true ->
  isZeroOrNaN (Prim2SF (magnitude a * magnitude b)) = true.
Proof.
  rewrite !is_zero_spec. intros H. apply mul_zero_or_nan.
  destruct H as [H|H]; [left|right];
    destruct (Prim2SF (magnitude _)); try discriminate; reflexivity.
Qed.

Lemma dotFrom_symmetric (a : list float) :
  forall b pa pb sum,
    List.length a = List.length b ->
    List.length pa = List.length pb ->
    dotFrom (List.length pa) a (pb ++ b) sum
    = dotFrom (List.length pa) b (pa ++ a) sum.
Proof.
  induction a as [|x a IH]; intros [|y b] pa pb sum La Lp;
    try discriminate; [reflexivity|].
  simpl. injection La as La.
  replace (nth (List.length pa) (pa ++ x :: a) nan) with x
    by (rewrite app_nth2, Nat.sub_diag; [reflexivity|lia]).
  replace (nth (List.length pa) (pb ++ y :: b) nan) with y
    by (rewrite Lp, app_nth2, Nat.sub_diag; [reflexivity|lia]).
  rewrite (mul_comm x y).
  specialize (IH b (pa ++ [x]) (pb ++ [y]) (sum + y * x)%float La).
  rewrite !length_app, <- !app_assoc in IH. simpl in IH.
  rewrite Nat.add_1_r in IH. apply IH. lia.
Qed.

Lemma dotFrom_self (a : list float) :
  forall pa sum,
    dotFrom (List.length pa) a (pa ++ a) sum
    = fold_left (fun sum ai => (sum + ai * ai)%float) a sum.
Proof.
  induction a as [|x a IH]; intros pa sum; [reflexivity|].
  simpl.
  replace (nth (List.length pa) (pa ++ x :: a) nan) with x
    by (rewrite app_nth2, Nat.sub_diag; [reflexivity|lia]).
  specialize (IH (pa ++ [x]) (sum + x * x)%float).
  rewrite length_app, <- app_assoc in IH. simpl in IH.
  rewrite Nat.add_1_r in IH. exact IH.
Qed.

End SimilarityFacts.

(** C3, as amended.  On two vectors of equal length [cosineSimilarity] is
    symmetric.  On a vector paired with itself it is [d / (sqrt d * sqrt d)]
    for the sum [d] of the squares, and this need not be 1 on a nonzero
    vector: it is [NaN] whenever [d] is zero, infinite or [NaN], as for the
    one-component vectors of 2^700, whose square overflows, and of 2^-1074,
    whose square underflows to zero; it is 1 for [3] and 1 - 2^-52, which
    prints as 0.9999999999999998, for [1, 1].  Whenever either argument has zero magnitude the result is
    [NaN] or an infinity, and never 0; it is [NaN] when either argument is
    a vector of zeros. *)
Theorem cosineSimilarity_symmetric_nan_on_zero :
  (forall a b, List.length a = List.length b ->
               MemStorage.cosineSimilarity a b = MemStorage.cosineSimilarity b a)
  /\ (forall v, MemStorage.cosineSimilarity v v
                = (sumSquares v / (sqrt (sumSquares v) * sqrt (sumSquares v)))%float)
  /\ (forall v,
        is_zero (sumSquares v) = true \/ is_infinity (sumSquares v) = true
        \/ is_nan (sumSquares v) = true ->
        MemStorage.cosineSimilarity v v = nan)
  /\ (MemStorage.cosineSimilarity [3%float] [3%float] = 1%float
      /\ MemStorage.cosineSimilarity [1%float; 1%float] [1%float; 1%float]
         = 0x1.ffffffffffffep-1%float
      /\ (MemStorage.cosineSimilarity [1%float; 1%float] [1%float; 1%float]
          <? 1)%float = true
      /\ is_zero 0x1p+700%float = false
      /\ MemStorage.cosineSimilarity [0x1p+700%float] [0x1p+700%float] = nan
      /\ is_zero 0x1p-1074%float = false
      /\ MemStorage.cosineSimilarity [0x1p-1074%float] [0x1p-1074%float] = nan)
  /\ (forall a b,
        is_zero (MemStorage.magnitude a) = true
        \/ is_zero (MemStorage.magnitude b) = true ->
        (is_nan (MemStorage.cosineSimilarity a b) = true
         \/ is_infinity (MemStorage.cosineSimilarity a b) = true)
        /\ is_zero (MemStorage.cosineSimilarity a b) = false)
  /\ (forall a b, zeroVector a \/ zeroVector b ->
                  MemStorage.cosineSimilarity a b = nan).
Proof.
  assert (Self : forall v,
             MemStorage.cosineSimilarity v v
             = (sumSquares v
                / (sqrt (sumSquares v) * sqrt (sumSquares v)))%float).
  { intros v. unfold MemStorage.cosineSimilarity, MemStorage.dotProduct.
    pose proof (SimilarityFacts.dotFrom_self v [] 0%float) as D.
    simpl in D. rewrite D. reflexivity. }
  split; [|split; [|split; [|split; [|split]]]].
  - intros a b L. unfold MemStorage.cosineSimilarity, MemStorage.dotProduct.
    pose proof (SimilarityFacts.dotFrom_symmetric a b [] [] 0%float L eq_refl) as D.
    simpl in D. rewrite D. now rewrite FloatFacts.mul_comm.
  - exact Self.
  - intros v H. rewrite Self. apply SimilarityFacts.nan_of_spec.
    rewrite FloatFacts.is_nan_spec, SimilarityFacts.is_infinity_spec,
      SimilarityFacts.is_zero_spec in H.
    rewrite div_spec, mul_spec, sqrt_spec.
    destruct (Prim2SF (sumSquares v)) as [[]|[]| |sd md ed]; simpl in *;
      try reflexivity; destruct H as [H|[H|H]]; discriminate H.
  - repeat split; vm_compute; reflexivity.
  - intros a b H. unfold MemStorage.cosineSimilarity.
    pose proof (SimilarityFacts.magnitudes_product a b H) as P.
    destruct (SimilarityFacts.div_by_zero_or_nan
                (MemStorage.dotProduct a b) _ P) as [Q _].
    rewrite FloatFacts.is_nan_spec, SimilarityFacts.is_infinity_spec,
      SimilarityFacts.is_zero_spec.
    revert Q.
    generalize (Prim2SF (MemStorage.dotProduct a b
                         / (MemStorage.magnitude a * MemStorage.magnitude b))).
    intros [s|s| |s m e]; simpl; intros Q; try discriminate; auto.
  - intros a b Z. unfold MemStorage.cosineSimilarity.
    apply SimilarityFacts.nan_of_spec.
    apply SimilarityFacts.div_by_zero_or_nan.
    + apply SimilarityFacts.magnitudes_product.
      destruct Z as [Z|Z]; [left|right];
        apply SimilarityFacts.magnitude_zeroVector; exact Z.
    + apply SimilarityFacts.dotFrom_zero_or_nan; [exact Z|reflexivity].
Qed.

Lemma cosineSimilarity_symmetric_nan_on_zero_witness :
  MemStorage.cosineSimilarity [1%float; 2%float] [3%float; 4%float]
  = MemStorage.cosineSimilarity [3%float; 4%float] [1%float; 2%float]
  /\ MemStorage.cosineSimilarity [0%float; (-0)%float] [1%float; 2%float] = nan
  /\ is_zero (MemStorage.cosineSimilarity [1%float; 2%float] [0%float; 0%float])
     = false
  /\ MemStorage.cosineSimilarity [0x1p+600%float; 0x1p+600%float]
                                 [0x1p+600%float; 0x1p+600%float] = nan.
Proof.
  destruct cosineSimilarity_symmetric_nan_on_zero as (S & _ & N & _ & M & Z).
  split; [apply S; reflexivity|]. split; [|split].
  - apply Z. left. repeat constructor.
  - apply M. right. vm_compute. reflexivity.
  - apply N. right. left. vm_compute. reflexivity.
Defined.

(** C3, as stated, fails: against a vector of zeros the similarity is
    [NaN], not 0; the similarity of [1, 1] with itself is
    0.9999999999999998, not 1; and the similarity with itself of a nonzero
    vector whose square overflows, or underflows to zero, is [NaN]. *)
Lemma cosineSimilarity_zero_is_nan :
  is_nan (MemStorage.cosineSimilarity [0%float; 0%float] [1%float; 2%float]) = true
  /\ PrimFloat.eqb (MemStorage.cosineSimilarity [0%float; 0%float] [1%float; 2%float])
                   0%float = false
  /\ PrimFloat.eqb (MemStorage.cosineSimilarity [1%float; 1%float] [1%float; 1%float])
                   1%float = false
  /\ PrimFloat.ltb (MemStorage.cosineSimilarity [1%float; 1%float] [1%float; 1%float])
                   1%float = true
  /\ is_nan (MemStorage.cosineSimilarity [0x1p+700%float] [0x1p+700%float]) = true
  /\ is_nan (MemStorage.cosineSimilarity [0x1p-1074%float] [0x1p-1074%float])
     = true.
Proof. repeat split; vm_compute; reflexivity. Qed.

(** ** Similarity search *)

(** ** The engine's sort *)

Module SortFacts.

Import FloatFacts.

Section Order.
Context {A : Type} (comparefn : A -> A -> float).

Lemma before_not_after (a b : A) :
  sortsBefore comparefn a b = true -> sortsAfter comparefn a b = false.
Proof. unfold sortsBefore, sortsAfter. apply ltb_asym. Qed.

Lemma sortsEqual_iff (a b : A) :
  sortsEqual comparefn a b = true
  <-> sortsBefore comparefn a b = false /\ sortsAfter comparefn a b = false.
Proof.
  unfold sortsEqual. rewrite andb_true_iff, !negb_true_iff. tauto.
Qed.

Lemma insert_perm (x : A) (l : list A) :
  Permutation (insert comparefn x l) (x :: l).
Proof.
  induction l as [|y r IH]; simpl; [reflexivity|].
  destruct (sortsAfter comparefn x y); [|reflexivity].
  rewrite IH. apply perm_swap.
Qed.

Lemma sort_perm (l : list A) : Permutation (insertionSort comparefn l) l.
Proof.
  induction l as [|x r IH]; simpl; [reflexivity|].
  rewrite insert_perm. now apply perm_skip.
Qed.

(** What follows from the five conditions, on the elements of [all]. *)
Variable all : list A.
Hypothesis consistent : ConsistentOn comparefn all.

Lemma tie_refl (a : A) : In a all -> sortsEqual comparefn a a = true.
Proof. intros Ha. now destruct (consistent a a a Ha Ha Ha) as (H & _). Qed.

Lemma tie_sym (a b : A) :
  In a all -> In b all ->
  sortsEqual comparefn a b = true -> sortsEqual comparefn b a = true.
Proof. intros Ha Hb. now destruct (consistent a b a Ha Hb Ha) as (_ & H & _). Qed.

Lemma tie_trans (a b c : A) :
  In a all -> In b all -> In c all ->
  sortsEqual comparefn a b = true -> sortsEqual comparefn b c = true ->
  sortsEqual comparefn a c = true.
Proof. intros Ha Hb Hc. now destruct (consistent a b c Ha Hb Hc) as (_ & _ & H & _). Qed.

Lemma before_trans (a b c : A) :
  In a all -> In b all -> In c all ->
  sortsBefore comparefn a b = true -> sortsBefore comparefn b c = true ->
  sortsBefore comparefn a c = true.
Proof. intros Ha Hb Hc. now destruct (consistent a b c Ha Hb Hc) as (_ & _ & _ & H & _). Qed.

Lemma after_trans (a b c : A) :
  In a all -> In b all -> In c all ->
  sortsAfter comparefn a b = true -> sortsAfter comparefn b c = true ->
  sortsAfter comparefn a c = true.
Proof. intros Ha Hb Hc. now destruct (consistent a b c Ha Hb Hc) as (_ & _ & _ & _ & H). Qed.

Lemma not_after_self (a : A) : In a all -> sortsAfter comparefn a a = false.
Proof. intros Ha. apply sortsEqual_iff. apply tie_refl, Ha. Qed.

Lemma not_before_self (a : A) : In a all -> sortsBefore comparefn a a = false.
Proof. intros Ha. apply sortsEqual_iff. apply tie_refl, Ha. Qed.

Lemma after_before (a b : A) :
  In a all -> In b all ->
  sortsAfter comparefn a b = true -> sortsBefore comparefn b a = true.
Proof.
  intros Ha Hb H.
  destruct (sortsBefore comparefn b a) eqn:B; [reflexivity|].
  destruct (sortsAfter comparefn b a) eqn:G.
  - pose proof (after_trans a b a Ha Hb Ha H G) as X.
    rewrite (not_after_self a Ha) in X. discriminate.
  - assert (T : sortsEqual comparefn b a = true) by (apply sortsEqual_iff; auto).
    apply (tie_sym b a Hb Ha) in T. apply sortsEqual_iff in T.
    destruct T as [_ T]. congruence.
Qed.

Lemma before_after (a b : A) :
  In a all -> In b all ->
  sortsBefore comparefn a b = true -> sortsAfter comparefn b a = true.
Proof.
  intros Ha Hb H.
  destruct (sortsAfter comparefn b a) eqn:G; [reflexivity|].
  destruct (sortsBefore comparefn b a) eqn:B.
  - pose proof (before_trans a b a Ha Hb Ha H B) as X.
    rewrite (not_before_self a Ha) in X. discriminate.
  - assert (T : sortsEqual comparefn b a = true) by (apply sortsEqual_iff; auto).
    apply (tie_sym b a Hb Ha) in T. apply sortsEqual_iff in T.
    destruct T as [T _]. congruence.
Qed.

Lemma before_tie (a b c : A) :
  In a all -> In b all -> In c all ->
  sortsBefore comparefn a b = true -> sortsEqual comparefn b c = true ->
  sortsBefore comparefn a c = true.
Proof.
  intros Ha Hb Hc H T.
  destruct (sortsBefore comparefn a c) eqn:B; [reflexivity|].
  destruct (sortsAfter comparefn a c) eqn:G.
  - pose proof (after_before a c Ha Hc G) as X.
    pose proof (before_trans c a b Hc Ha Hb X H) as Y.
    apply (tie_sym b c Hb Hc) in T. apply sortsEqual_iff in T.
    destruct T as [T _]. congruence.
  - assert (T' : sortsEqual comparefn a c = true) by (apply sortsEqual_iff; auto).
    apply (tie_sym b c Hb Hc) in T.
    pose proof (tie_trans a c b Ha Hc Hb T' T) as X.
    apply sortsEqual_iff in X. destruct X as [X _]. congruence.
Qed.

(** The insertion sort gives the sort order of the standard. *)
Lemma insert_sorted (x : A) (l : list A) :
  In x all -> incl l all ->
  StronglySorted (fun x y => sortsBefore comparefn y x = false) l ->
  StronglySorted (fun x y => sortsBefore comparefn y x = false)
                 (insert comparefn x l).
Proof.
  intros Hx Hl S. induction S as [|y r S IH F]; simpl.
  - constructor; constructor.
  - assert (Hy : In y all) by (apply Hl; now left).
    assert (Hr : incl r all) by (intros z Hz; apply Hl; now right).
    destruct (sortsAfter comparefn x y) eqn:G.
    + constructor; [apply IH, Hr|].
      rewrite (insert_perm x r). constructor; [|exact F].
      destruct (sortsBefore comparefn x y) eqn:B; [|reflexivity].
      rewrite (before_not_after _ _ B) in G. discriminate.
    + assert (R : sortsBefore comparefn y x = false).
      { destruct (sortsBefore comparefn y x) eqn:B; [|reflexivity].
        rewrite (before_after _ _ Hy Hx B) in G. discriminate. }
      constructor; [constructor; assumption|].
      constructor; [exact R|].
      rewrite Forall_forall in *. intros z Hz.
      assert (Hz' : In z all) by (apply Hr, Hz).
      destruct (sortsBefore comparefn z x) eqn:B; [|reflexivity].
      destruct (sortsBefore comparefn x y) eqn:Bxy.
      * specialize (F z Hz).
        rewrite (before_trans _ _ _ Hz' Hx Hy B Bxy) in F. discriminate.
      * assert (T : sortsEqual comparefn x y = true)
          by (apply sortsEqual_iff; auto).
        pose proof (before_tie _ _ _ Hz' Hx Hy B T) as X.
        specialize (F z Hz). congruence.
Qed.

Lemma sort_sorted (l : list A) :
  incl l all ->
  StronglySorted (fun x y => sortsBefore comparefn y x = false)
                 (insertionSort comparefn l).
Proof.
  induction l as [|x r IH]; intros Hl; simpl; [constructor|].
  apply insert_sorted.
  - apply Hl. now left.
  - intros z Hz. apply Hl. right. apply (Permutation_in _ (sort_perm r) Hz).
  - apply IH. intros z Hz. apply Hl. now right.
Qed.

Lemma insert_stable (a x : A) (l : list A) :
  In a all -> In x all -> incl l all ->
  filter (sortsEqual comparefn a) (insert comparefn x l)
  = filter (sortsEqual comparefn a) (x :: l).
Proof.
  intros Ha Hx Hl. induction l as [|y r IH]; [reflexivity|].
  assert (Hy : In y all) by (apply Hl; now left).
  assert (Hr : incl r all) by (intros z Hz; apply Hl; now right).
  simpl insert. destruct (sortsAfter comparefn x y) eqn:G; [|reflexivity].
  simpl in *. rewrite (IH Hr).
  destruct (sortsEqual comparefn a x) eqn:Tx,
           (sortsEqual comparefn a y) eqn:Ty; try reflexivity.
  pose proof (tie_trans x a y Hx Ha Hy (tie_sym a x Ha Hx Tx) Ty) as T.
  apply sortsEqual_iff in T. destruct T as [_ T]. congruence.
Qed.

Lemma sort_stable (a : A) (l : list A) :
  In a all -> incl l all ->
  filter (sortsEqual comparefn a) (insertionSort comparefn l)
  = filter (sortsEqual comparefn a) l.
Proof.
  intros Ha. induction l as [|x r IH]; intros Hl; [reflexivity|].
  simpl insertionSort. rewrite insert_stable.
  - simpl. rewrite IH; [reflexivity|]. intros z Hz. apply Hl. now right.
  - exact Ha.
  - apply Hl. now left.
  - intros z Hz. apply Hl. right. apply (Permutation_in _ (sort_perm r) Hz).
Qed.

(** Two arrays of the same elements that are both in sort order, with the
    elements that compare equal in the same order, are the same array. *)
Lemma sort_order_unique (r1 : list A) :
  forall r2,
    incl r1 all ->
    Permutation r1 r2 ->
    StronglySorted (fun x y => sortsBefore comparefn y x = false) r1 ->
    StronglySorted (fun x y => sortsBefore comparefn y x = false) r2 ->
    (forall a, In a r1 ->
               filter (sortsEqual comparefn a) r1
               = filter (sortsEqual comparefn a) r2) ->
    r1 = r2.
Proof.
  induction r1 as [|x t1 IH]; intros r2 Hall P S1 S2 F.
  - apply Permutation_nil in P. now subst.
  - destruct r2 as [|y t2].
    { apply Permutation_sym, Permutation_nil in P. discriminate. }
    assert (Hx : In x all) by (apply Hall; now left).
    assert (Hy1 : In y (x :: t1)).
    { apply (Permutation_in _ (Permutation_sym P)). now left. }
    assert (Hy : In y all) by (apply Hall, Hy1).
    assert (Hx2 : In x (y :: t2)) by (apply (Permutation_in _ P); now left).
    inversion S1 as [|? ? S1' F1]; subst. inversion S2 as [|? ? S2' F2]; subst.
    rewrite Forall_forall in F1, F2.
    assert (Byx : sortsBefore comparefn y x = false).
    { destruct Hy1 as [<-|H]; [apply not_before_self, Hx|apply F1, H]. }
    assert (Bxy : sortsBefore comparefn x y = false).
    { destruct Hx2 as [<-|H]; [apply not_before_self, Hy|apply F2, H]. }
    assert (T : sortsEqual comparefn x y = true).
    { apply sortsEqual_iff. split; [exact Bxy|].
      destruct (sortsAfter comparefn x y) eqn:G; [|reflexivity].
      rewrite (after_before _ _ Hx Hy G) in Byx. discriminate. }
    assert (E : x = y).
    { pose proof (F x ltac:(now left)) as Fx. simpl in Fx.
      rewrite (tie_refl x Hx), T in Fx. now injection Fx. }
    subst y. f_equal. apply IH.
    + intros z Hz. apply Hall. now right.
    + apply (Permutation_cons_inv P).
    + exact S1'.
    + exact S2'.
    + intros a Ha. pose proof (F a ltac:(now right)) as Fa. simpl in Fa.
      destruct (sortsEqual comparefn a x); [now injection Fa|exact Fa].
Qed.
End Order.

(** On a consistent comparator the engine's sort is determined: it gives
    what the insertion sort gives. *)
Lemma contract_insertion (engine : Engine) :
  SortContract engine ->
  forall (A : Type) (comparefn : A -> A -> float) (l : list A),
    ConsistentOn comparefn l ->
    arraySort engine comparefn l = insertionSort comparefn l.
Proof.
  intros K A comparefn l C.
  destruct (K A comparefn l) as [P O]. destruct (O C) as (_ & S & F).
  assert (I : incl (arraySort engine comparefn l) l).
  { intros z Hz. apply (Permutation_in _ P Hz). }
  apply (sort_order_unique comparefn l C); [exact I| |exact S| |].
  - rewrite P. symmetry. apply sort_perm.
  - apply (sort_sorted comparefn l C). apply incl_refl.
  - intros a Ha. rewrite (F a (I a Ha)).
    symmetry. apply (sort_stable comparefn l C); [apply I, Ha|apply incl_refl].
Qed.

Lemma referenceEngine_contract : SortContract referenceEngine.
Proof.
  intros A comparefn l. simpl. split; [apply sort_perm|].
  intros C. split; [apply sort_perm|].
  split; [apply (sort_sorted comparefn l C), incl_refl|].
  intros a Ha. apply (sort_stable comparefn l C a l Ha), incl_refl.
Qed.

(** Comparators that read a strict order: the five conditions hold. *)
Lemma consistent_by_order {A : Type} (comparefn : A -> A -> float)
      (lt : A -> A -> bool) (l : list A) :
  (forall a b, sortsBefore comparefn a b = lt a b) ->
  (forall a b, sortsAfter comparefn a b = lt b a) ->
  (forall a, In a l -> lt a a = false) ->
  (forall a b c, In a l -> In b l -> In c l ->
                 lt a b = true -> lt b c = true -> lt a c = true) ->
  (forall a b c, In a l -> In b l -> In c l ->
                 lt a b = false -> lt b c = false -> lt a c = false) ->
  ConsistentOn comparefn l.
Proof.
  intros B G I T N a b c Ha Hb Hc. unfold sortsEqual. rewrite !B, !G.
  split; [now rewrite (I a Ha)|].
  split; [intros H; apply andb_prop in H; destruct H as [-> ->]; reflexivity|].
  split.
  { rewrite !andb_true_iff, !negb_true_iff. intros [H1 H2] [H3 H4]. split.
    - apply (N a b c); assumption.
    - apply (N c b a); assumption. }
  split; [apply T; assumption|].
  intros H1 H2. apply (T c b a); assumption.
Qed.

(** The comparator [key b - key a], on keys none of which is [NaN]. *)
Lemma consistent_descending {A : Type} (key : A -> float) (l : list A) :
  Forall (fun a => is_nan (key a) = false) l ->
  ConsistentOn (fun a b => (key b - key a)%float) l.
Proof.
  intros F. rewrite Forall_forall in F.
  apply (consistent_by_order _ (fun a b => (key b <? key a)%float)).
  - intros a b. unfold sortsBefore. apply sub_negative.
  - intros a b. unfold sortsAfter. apply sub_positive.
  - intros a _. apply ltb_irrefl.
  - intros a b c _ _ _ H1 H2. apply (ltb_trans _ _ _ H2 H1).
  - intros a b c Ha Hb Hc H1 H2. apply leb_not_ltb.
    apply (leb_trans _ (key b)); apply leb_total; auto.
Qed.

(** The comparator [key a - key b], on keys none of which is [NaN]. *)
Lemma consistent_ascending {A : Type} (key : A -> float) (l : list A) :
  Forall (fun a => is_nan (key a) = false) l ->
  ConsistentOn (fun a b => (key a - key b)%float) l.
Proof.
  intros F. rewrite Forall_forall in F.
  apply (consistent_by_order _ (fun a b => (key a <? key b)%float)).
  - intros a b. unfold sortsBefore. apply sub_negative.
  - intros a b. unfold sortsAfter. apply sub_positive.
  - intros a _. apply ltb_irrefl.
  - intros a b c _ _ _ H1 H2. apply (ltb_trans _ _ _ H1 H2).
  - intros a b c Ha Hb Hc H1 H2. apply leb_not_ltb.
    apply (leb_trans _ (key b)); apply leb_total; auto.
Qed.

(** A comparator under which everything compares equal. *)
Lemma consistent_all_ties {A : Type} (comparefn : A -> A -> float) (l : list A) :
  (forall a b, In a l -> In b l -> sortsEqual comparefn a b = true) ->
  ConsistentOn comparefn l.
Proof.
  intros T a b c Ha Hb Hc.
  split; [apply T; assumption|].
  split; [intros _; apply T; assumption|].
  split; [intros _ _; apply T; assumption|].
  pose proof (T a b Ha Hb) as Tab. apply sortsEqual_iff in Tab.
  destruct Tab as [B G]. rewrite B, G. split; discriminate.
Qed.

(** The insertion sort leaves such an array as it is. *)
Lemma sort_all_ties {A : Type} (comparefn : A -> A -> float) (l : list A) :
  (forall a b, In a l -> In b l -> sortsEqual comparefn a b = true) ->
  insertionSort comparefn l = l.
Proof.
  induction l as [|x r IH]; intros T; [reflexivity|].
  simpl. rewrite IH by (intros a b Ha Hb; apply T; now right).
  destruct r as [|y r]; [reflexivity|]. simpl.
  pose proof (T x y ltac:(now left) ltac:(right; now left)) as Txy.
  apply sortsEqual_iff in Txy. destruct Txy as [_ G]. now rewrite G.
Qed.

End SortFacts.

Module SearchFacts.

Import FloatFacts MemStorage.

(** Stability of the insertion sort: the elements of a class that the
    comparator never reorders keep their order. *)
Section Stability.
Context {A : Type} (comparefn : A -> A -> float).
Variable P : A -> bool.
Hypothesis P_tied :
  forall x y, P x = true -> P y = true -> sortsAfter comparefn x y = false.

Lemma insert_filter (x : A) (l : list A) :
  filter P (insert comparefn x l) = filter P (x :: l).
Proof.
  induction l as [|y r IH]; [reflexivity|].
  simpl insert. destruct (sortsAfter comparefn x y) eqn:C; [|reflexivity].
  simpl in *. rewrite IH.
  destruct (P x) eqn:Px, (P y) eqn:Py; try reflexivity.
  rewrite (P_tied x y Px Py) in C. discriminate.
Qed.

Lemma sort_filter (l : list A) : filter P (insertionSort comparefn l) = filter P l.
Proof.
  induction l as [|x r IH]; [reflexivity|].
  simpl insertionSort. rewrite insert_filter. simpl. now rewrite IH.
Qed.
End Stability.







(** The comparator of the search is consistent when no candidate has the
    similarity [NaN]: the engine's sort is then the stable sort. *)
Lemma ranked_by_contract (engine : Engine) (q : list float) (cands : list Chunk) :
  SortContract engine ->
  (forall c, In c cands -> is_nan (similarityTo q c) = false) ->
  arraySort engine compareScores (map (scoreChunk q) cands)
  = insertionSort compareScores (map (scoreChunk q) cands).
Proof.
  intros K N. apply (SortFacts.contract_insertion engine K).
  apply (SortFacts.consistent_descending sc_score).
  apply Forall_forall. intros x Hx. apply in_map_iff in Hx.
  destruct Hx as (c & <- & Hc). apply (N c Hc).
Qed.

End SearchFacts.




(** On an engine that meets the contract, the two best of three ranked
    chunks; a negative limit makes [slice] count from the end, so that all
    candidates but the last one are returned. *)
Example searchChunksByEmbedding_ranked :
  forall engine,
    SortContract engine ->
    MemStorage.searchChunksByEmbedding engine Samples.ranked Samples.alongAxis 2
    = [Samples.axisChunk; Samples.wheatChunk]
    /\ MemStorage.searchChunksByEmbedding engine Samples.ranked
         Samples.alongAxis (-1)
       = [Samples.axisChunk; Samples.wheatChunk].
Proof.
  intros engine K. unfold MemStorage.searchChunksByEmbedding.
  rewrite (SearchFacts.ranked_by_contract engine Samples.alongAxis
             (filter MemStorage.hasEmbedding Samples.ranked) K).
  - split; vm_compute; reflexivity.
  - intros c Hc. simpl in Hc.
    destruct Hc as [<-|[<-|[<-|[]]]]; vm_compute; reflexivity.
Qed.

(** * Further properties of the data processor *)

Module ChunkFacts.

Lemma sentencesOf_not_blank (text : string) :
  Forall (fun s => blank s = false) (DataProcessor.sentencesOf text).
Proof.
  apply Forall_forall. intros s H. unfold DataProcessor.sentencesOf in H.
  apply filter_In in H. destruct H as [_ H].
  rewrite trim_length_pos in H. now destruct (blank s).
Qed.

Lemma blank_empty_length (s : string) :
  (0 <? String.length s) = false -> s = EmptyString.
Proof. destruct s; [reflexivity|discriminate]. Qed.

Lemma trim_not_blank (s : string) : blank s = false -> trim s <> EmptyString.
Proof.
  intros B E. pose proof (trim_length_pos s) as P. rewrite B, E in P. discriminate.
Qed.

Lemma chunkStep_filled (doc : DocMetadata) (chunkSize overlap : nat)
      (st : DataProcessor.ChunkState) (sentence : string) :
  blank sentence = false ->
  Filled st ->
  Filled (DataProcessor.chunkStep doc chunkSize overlap st sentence)
  /\ blank (DataProcessor.currentChunk
              (DataProcessor.chunkStep doc chunkSize overlap st sentence)) = false.
Proof.
  intros B [F C]. unfold DataProcessor.chunkStep.
  destruct (chunkSize <? _); simpl;
    [destruct (0 <? String.length (DataProcessor.currentChunk st)) eqn:L; simpl|].
  - assert (N : blank (DataProcessor.currentChunk st) = false).
    { destruct C as [C|C]; [rewrite C in L; discriminate|exact C]. }
    assert (B' : blank (sliceLast overlap (DataProcessor.currentChunk st) +++ sentence)
                 = false).
    { rewrite blank_append, B. apply andb_false_r. }
    split; [|exact B']. split; [|right; exact B'].
    unfold DataProcessor.pushChunk. apply Forall_app. split; [exact F|].
    constructor; [|constructor]. simpl. apply trim_not_blank, N.
  - assert (B' : blank (DataProcessor.currentChunk st +++ sentence +++ ". ") = false).
    { rewrite !blank_append, B. simpl. now rewrite andb_false_r. }
    split; [|exact B']. split; [exact F|right; exact B'].
  - assert (B' : blank (DataProcessor.currentChunk st +++ sentence +++ ". ") = false).
    { rewrite !blank_append, B. simpl. now rewrite andb_false_r. }
    split; [|exact B']. split; [exact F|right; exact B'].
Qed.

Lemma chunkLoop_filled (doc : DocMetadata) (chunkSize overlap : nat)
      (sentences : list string) :
  Forall (fun s => blank s = false) sentences ->
  forall st,
    Filled st ->
    Filled (fold_left (DataProcessor.chunkStep doc chunkSize overlap) sentences st)
    /\ (sentences <> [] ->
        blank (DataProcessor.currentChunk
                 (fold_left (DataProcessor.chunkStep doc chunkSize overlap)
                            sentences st)) = false).
Proof.
  induction 1 as [|s r Bs Br IH]; intros st F; simpl.
  - split; [exact F|]. intros N. contradiction.
  - destruct (chunkStep_filled doc chunkSize overlap st s Bs F) as [F' B'].
    destruct (IH _ F') as [F'' B'']. split; [exact F''|]. intros _.
    destruct r as [|s' r']; [exact B'|]. apply B''. discriminate.
Qed.

Lemma trimStart_length (s : string) : String.length (trimStart s) <= String.length s.
Proof.
  induction s as [|c s IH]; simpl; [lia|].
  destruct (isWhiteSpace c); simpl; lia.
Qed.

Lemma trimEnd_length (s : string) : String.length (trimEnd s) <= String.length s.
Proof.
  induction s as [|c s IH]; simpl; [lia|].
  destruct (trimEnd s); [destruct (isWhiteSpace c)|]; simpl in *; lia.
Qed.

Lemma trim_length (s : string) : String.length (trim s) <= String.length s.
Proof.
  unfold trim. etransitivity; [apply trimEnd_length|apply trimStart_length].
Qed.

End ChunkFacts.

(** X1.  [chunkText] returns no chunk exactly when the text has no
    character other than white space and sentence terminators, whatever the
    chunk size and the overlap. *)
Theorem chunkText_nil_iff_no_content
        (text : string) (doc : DocMetadata) (chunkSize overlap : nat) :
  DataProcessor.chunkText text doc chunkSize overlap = [] <-> hasContent text = false.
Proof.
  rewrite <- sentencesOf_nil_iff.
  unfold DataProcessor.chunkText, DataProcessor.chunkLoop.
  pose proof (ChunkFacts.sentencesOf_not_blank text) as B.
  destruct (DataProcessor.sentencesOf text) as [|s r] eqn:S.
  - simpl. tauto.
  - destruct (ChunkFacts.chunkLoop_filled doc chunkSize overlap (s :: r) B
                (DataProcessor.mkChunkState [] EmptyString 0)) as [_ N].
    { split; [constructor|left; reflexivity]. }
    specialize (N ltac:(discriminate)).
    rewrite trim_length_pos, N. simpl negb. cbv iota.
    unfold DataProcessor.pushChunk. split; [|discriminate].
    intros E. apply app_eq_nil in E. destruct E as [_ E]. discriminate.
Qed.

(** X2.  No chunk of [chunkText] is empty: the content of every chunk has
    at least one character, whatever the text, the chunk size and the
    overlap. *)
Theorem chunkText_no_empty_chunk
        (text : string) (doc : DocMetadata) (chunkSize overlap : nat) :
  Forall (fun c => tc_content c <> EmptyString)
         (DataProcessor.chunkText text doc chunkSize overlap).
Proof.
  unfold DataProcessor.chunkText, DataProcessor.chunkLoop.
  destruct (ChunkFacts.chunkLoop_filled doc chunkSize overlap
              (DataProcessor.sentencesOf text)
              (ChunkFacts.sentencesOf_not_blank text)
              (DataProcessor.mkChunkState [] EmptyString 0)) as [[F _] _].
  { split; [constructor|left; reflexivity]. }
  destruct (0 <? _) eqn:L; [|exact F].
  unfold DataProcessor.pushChunk. apply Forall_app. split; [exact F|].
  constructor; [|constructor]. simpl. intros E. rewrite E in L. discriminate.
Qed.

(** X3.  The chunks of [chunkText] are numbered from 0 in the order they
    are returned, carry the metadata of the document they come from, and
    record a length that is at least the length of their content (the
    length of the buffer before trimming). *)
Theorem chunkText_indices_and_lengths
        (text : string) (doc : DocMetadata) (chunkSize overlap : nat)
        (i : nat) (c : TextChunk) :
  nth_error (DataProcessor.chunkText text doc chunkSize overlap) i = Some c ->
  exists len,
    tc_metadata c = TextMeta doc i len
    /\ String.length (tc_content c) <= len.
Proof.
  intros H.
  assert (B : exists bs,
             DataProcessor.chunkText text doc chunkSize overlap = bufferChunks doc 0 bs).
  { unfold DataProcessor.chunkText, DataProcessor.chunkLoop.
    destruct (chunkLoop_inv doc chunkSize overlap (DataProcessor.sentencesOf text)
                (DataProcessor.mkChunkState [] EmptyString 0) [])
      as (bs & I).
    { split; [reflexivity|]. split.
      - intros j b1 b2 E. destruct j; discriminate.
      - intros pre b E. destruct pre; discriminate. }
    destruct (0 <? _).
    - destruct (pushChunk_buffers doc overlap _ bs I) as [P _]. eauto.
    - destruct I as (Hc & _). eauto. }
  destruct B as (bs & E). rewrite E in H.
  destruct (bufferChunks_nth doc bs 0 i c H) as (b & _ & ->).
  exists (String.length b). split; [reflexivity|]. simpl. apply ChunkFacts.trim_length.
Qed.

Lemma chunkText_indices_and_lengths_witness :
  exists len,
    tc_metadata (mkTextChunk "a. bbbb" (TextMeta NoDoc 1 7)) = TextMeta NoDoc 1 len
    /\ String.length (tc_content (mkTextChunk "a. bbbb" (TextMeta NoDoc 1 7))) <= len.
Proof.
  apply (chunkText_indices_and_lengths Samples.threeSentences NoDoc 6 3 1).
  vm_compute. reflexivity.
Defined.

Module CoverFacts.

Lemma trimStart_split (s : string) : exists w, s = w +++ trimStart s.
Proof.
  induction s as [|c s [w IH]]; simpl.
  - exists EmptyString. reflexivity.
  - destruct (isWhiteSpace c).
    + exists (String c w). simpl. now rewrite <- IH.
    + exists EmptyString. reflexivity.
Qed.

Lemma trimEnd_split (s : string) : exists w, s = trimEnd s +++ w.
Proof.
  induction s as [|c s [w IH]]; simpl.
  - exists EmptyString. reflexivity.
  - destruct (trimEnd s) as [|c' r'] eqn:E.
    + destruct (isWhiteSpace c).
      * exists (String c s). reflexivity.
      * exists s. reflexivity.
    + exists w. simpl. now rewrite IH at 1.
Qed.

Lemma trimStart_starts (s : string) :
  blank s = false -> startsNonWhite (trimStart s) = true.
Proof.
  induction s as [|c s IH]; simpl; [discriminate|].
  destruct (isWhiteSpace c) eqn:W; simpl; [exact IH|].
  intros _. now rewrite W.
Qed.

Lemma trimEnd_starts (s : string) :
  startsNonWhite s = true -> startsNonWhite (trimEnd s) = true.
Proof.
  destruct s as [|c s]; simpl; [discriminate|].
  intros W. destruct (trimEnd s); [|exact W].
  destruct (isWhiteSpace c) eqn:Wc; [discriminate|]. simpl. now rewrite Wc.
Qed.

Lemma trimEnd_ends (s : string) :
  trimEnd s <> EmptyString -> endsNonWhite (trimEnd s) = true.
Proof.
  induction s as [|c s IH]; simpl; [contradiction|].
  destruct (trimEnd s) as [|c' r'] eqn:E.
  - destruct (isWhiteSpace c) eqn:Wc; [contradiction|].
    intros _. simpl. now rewrite Wc.
  - intros _. apply IH. discriminate.
Qed.

Lemma trim_edges (s : string) :
  blank s = false ->
  startsNonWhite (trim s) = true /\ endsNonWhite (trim s) = true.
Proof.
  intros B. unfold trim. split.
  - apply trimEnd_starts, trimStart_starts, B.
  - apply trimEnd_ends. apply (ChunkFacts.trim_not_blank s B).
Qed.

Lemma keepStart (core : string) :
  startsNonWhite core = true ->
  forall p rest, exists p',
    trimStart (p +++ core +++ rest) = p' +++ core +++ rest.
Proof.
  intros S p rest. induction p as [|c p [p' IH]]; simpl.
  - exists EmptyString. destruct core as [|c r]; [discriminate|].
    simpl in *. destruct (isWhiteSpace c); [discriminate|reflexivity].
  - destruct (isWhiteSpace c).
    + exists p'. exact IH.
    + exists (String c p). reflexivity.
Qed.

Lemma trimEnd_cons (c : ascii) (r : string) :
  trimEnd r <> EmptyString -> trimEnd (String c r) = String c (trimEnd r).
Proof.
  intros N. simpl. destruct (trimEnd r); [contradiction|reflexivity].
Qed.

Lemma keepEnd_core (core : string) :
  endsNonWhite core = true ->
  forall q, exists q', trimEnd (core +++ q) = core +++ q'.
Proof.
  induction core as [|c r IH]; [discriminate|].
  intros E q. destruct r as [|c' r'].
  - simpl in *. destruct (trimEnd q) as [|a t].
    + exists EmptyString. destruct (isWhiteSpace c); [discriminate|reflexivity].
    + exists (String a t). reflexivity.
  - destruct (IH E q) as (q' & H). exists q'.
    change (String c (String c' r') +++ q) with (String c (String c' r' +++ q)).
    rewrite trimEnd_cons; rewrite H; [reflexivity|discriminate].
Qed.

Lemma keepEnd (core : string) :
  endsNonWhite core = true ->
  forall p q, exists q', trimEnd (p +++ core +++ q) = p +++ core +++ q'.
Proof.
  intros E p q. destruct (keepEnd_core core E q) as (q' & H). exists q'.
  induction p as [|c p IH]; [exact H|].
  change (String c p +++ core +++ q) with (String c (p +++ core +++ q)).
  rewrite trimEnd_cons; rewrite IH; [reflexivity|].
  destruct p; [|discriminate]. destruct core; discriminate.
Qed.

(** A sentence that occurs in a buffer occurs, trimmed, in the trimmed
    buffer. *)
Lemma occursIn_trim (s b : string) :
  blank s = false -> occursIn s b -> occursIn (trim s) (trim b).
Proof.
  intros B (pre & post & ->).
  destruct (trim_edges s B) as [S E].
  destruct (trimStart_split s) as (w1 & H1).
  destruct (trimEnd_split (trimStart s)) as (w2 & H2). fold (trim s) in H2.
  assert (D : pre +++ s +++ post = (pre +++ w1) +++ trim s +++ (w2 +++ post)).
  { rewrite H1 at 1. rewrite H2 at 1. now rewrite !append_assoc. }
  rewrite D. unfold trim at 2.
  destruct (keepStart (trim s) S (pre +++ w1) (w2 +++ post)) as (p' & ->).
  destruct (keepEnd (trim s) E p' (w2 +++ post)) as (q' & ->).
  exists p', q'. reflexivity.
Qed.

Lemma occursIn_extend (s b post : string) :
  occursIn s b -> occursIn s (b +++ post).
Proof.
  intros (p & q & ->). exists p, (q +++ post). now rewrite !append_assoc.
Qed.

Lemma occursIn_not_blank (s b : string) :
  blank s = false -> occursIn s b -> blank b = false.
Proof.
  intros B (p & q & ->). rewrite !blank_append, B. simpl. apply andb_false_r.
Qed.

Lemma push_kept (doc : DocMetadata) (st : DataProcessor.ChunkState)
      (done : list string) :
  Forall (fun s => blank s = false) done ->
  Kept st done ->
  forall s, In s done ->
            exists c, In c (DataProcessor.pushChunk doc st)
                      /\ occursIn (trim s) (tc_content c).
Proof.
  intros B K s Hs. unfold DataProcessor.pushChunk.
  destruct (K s Hs) as [(c & Hc & O)|O].
  - exists c. split; [apply in_or_app; now left|exact O].
  - eexists. split; [apply in_or_app; right; left; reflexivity|].
    simpl. apply occursIn_trim; [|exact O].
    rewrite Forall_forall in B. apply (B s Hs).
Qed.

Lemma chunkStep_kept (doc : DocMetadata) (chunkSize overlap : nat)
      (st : DataProcessor.ChunkState) (done : list string) (sentence : string) :
  Forall (fun s => blank s = false) done ->
  Kept st done ->
  Kept (DataProcessor.chunkStep doc chunkSize overlap st sentence)
       (done ++ [sentence]).
Proof.
  intros B K s Hs. apply in_app_or in Hs. unfold DataProcessor.chunkStep.
  destruct ((chunkSize <? _) && _); simpl.
  - destruct Hs as [Hs|[<-|[]]].
    + left. apply (push_kept doc st done B K s Hs).
    + right. exists (sliceLast overlap (DataProcessor.currentChunk st)), EmptyString.
      now rewrite append_empty_r.
  - destruct Hs as [Hs|[<-|[]]].
    + destruct (K s Hs) as [C|O]; [left; exact C|right].
      apply occursIn_extend, O.
    + right. exists (DataProcessor.currentChunk st), ". ". reflexivity.
Qed.

Lemma chunkLoop_kept (doc : DocMetadata) (chunkSize overlap : nat)
      (sentences : list string) :
  forall st done,
    Forall (fun s => blank s = false) (done ++ sentences) ->
    Kept st done ->
    Kept (fold_left (DataProcessor.chunkStep doc chunkSize overlap) sentences st)
         (done ++ sentences).
Proof.
  induction sentences as [|s r IH]; intros st done B K; simpl.
  - now rewrite app_nil_r.
  - replace (done ++ s :: r) with ((done ++ [s]) ++ r) in *
      by (now rewrite <- app_assoc).
    apply IH; [exact B|].
    apply chunkStep_kept; [|exact K].
    apply Forall_app in B. destruct B as [B _].
    apply Forall_app in B. tauto.
Qed.

End CoverFacts.

(** X4.  [chunkText] loses no sentence: every sentence of the text, that is
    every piece between sentence terminators that is not white space only,
    occurs, trimmed, in the content of some chunk.  In particular a
    sentence longer than the chunk size is not truncated. *)
Theorem chunkText_keeps_every_sentence
        (text : string) (doc : DocMetadata) (chunkSize overlap : nat)
        (s : string) :
  In s (DataProcessor.sentencesOf text) ->
  exists c, In c (DataProcessor.chunkText text doc chunkSize overlap)
            /\ occursIn (trim s) (tc_content c).
Proof.
  intros Hs.
  pose proof (ChunkFacts.sentencesOf_not_blank text) as B.
  pose proof (CoverFacts.chunkLoop_kept doc chunkSize overlap
                (DataProcessor.sentencesOf text)
                (DataProcessor.mkChunkState [] EmptyString 0) [] B) as K.
  simpl in K. specialize (K ltac:(intros x [])).
  unfold DataProcessor.chunkText, DataProcessor.chunkLoop.
  destruct (0 <? _) eqn:L.
  - apply (CoverFacts.push_kept doc _ _ B K s Hs).
  - destruct (K s Hs) as [C|O]; [exact C|].
    rewrite trim_length_pos in L.
    rewrite Forall_forall in B.
    rewrite (CoverFacts.occursIn_not_blank s _ (B s Hs) O) in L. discriminate.
Qed.

Lemma chunkText_keeps_every_sentence_witness :
  exists c, In c (DataProcessor.chunkText Samples.greeting TextDoc 5 2)
            /\ occursIn (trim " World") (tc_content c).
Proof.
  apply (chunkText_keeps_every_sentence Samples.greeting TextDoc 5 2 " World").
  vm_compute. right. left. reflexivity.
Defined.

(** ** Query classification and computation *)

Module QueryFacts.

Lemma prefix_append (k s t : string) :
  String.prefix k s = true -> String.prefix k (s +++ t) = true.
Proof.
  revert s. induction k as [|a k IH]; intros s H.
  - destruct (s +++ t); reflexivity.
  - destruct s as [|b s]; [discriminate|]. simpl in *.
    destruct (ascii_dec a b); [apply IH, H|discriminate].
Qed.

Lemma includes_append_r (s t k : string) :
  includes s k = true -> includes (s +++ t) k = true.
Proof.
  induction s as [|c s IH]; simpl; intros H.
  - rewrite orb_false_r in H.
    destruct k; [|discriminate]. destruct t; reflexivity.
  - apply orb_prop in H. destruct H as [H|H].
    + apply (prefix_append k (String c s) t) in H. simpl in H.
      rewrite H. reflexivity.
    + rewrite (IH H). apply orb_true_r.
Qed.

Lemma includes_append_l (p s k : string) :
  includes s k = true -> includes (p +++ s) k = true.
Proof.
  intros H. induction p as [|c p IH]; simpl; [exact H|].
  rewrite IH. apply orb_true_r.
Qed.

Lemma includes_within (p s t k : string) :
  includes s k = true -> includes (p +++ s +++ t) k = true.
Proof. intros H. apply includes_append_l, includes_append_r, H. Qed.

Lemma includes_self (s : string) : includes s s = true.
Proof.
  assert (P : String.prefix s s = true).
  { induction s as [|c s IH]; simpl; [reflexivity|].
    destruct (ascii_dec c c); [exact IH|contradiction]. }
  destruct s; simpl in *; [reflexivity|]. now rewrite P.
Qed.

Lemma toLowerCase_append (s t : string) :
  toLowerCase (s +++ t) = toLowerCase s +++ toLowerCase t.
Proof. induction s as [|c s IH]; simpl; [reflexivity|now rewrite IH]. Qed.

Lemma lowerChar_idempotent (c : ascii) : lowerChar (lowerChar c) = lowerChar c.
Proof.
  destruct c as [b0 b1 b2 b3 b4 b5 b6 b7].
  destruct b0, b1, b2, b3, b4, b5, b6, b7; reflexivity.
Qed.

Lemma toLowerCase_idempotent (s : string) :
  toLowerCase (toLowerCase s) = toLowerCase s.
Proof.
  induction s as [|c s IH]; simpl; [reflexivity|].
  now rewrite lowerChar_idempotent, IH.
Qed.

End QueryFacts.

(** X5.  Classification is monotone and blind to case: a query that is
    classified as computational stays computational when any text is put
    before or after it, and a query is classified as its lower-cased form
    is. *)
Theorem detectComputationalQuery_monotone (query : string) :
  DataProcessor.detectComputationalQuery (toLowerCase query)
  = DataProcessor.detectComputationalQuery query
  /\ (DataProcessor.detectComputationalQuery query = true ->
      forall before after,
        DataProcessor.detectComputationalQuery (before +++ query +++ after) = true).
Proof.
  unfold DataProcessor.detectComputationalQuery. split.
  - now rewrite QueryFacts.toLowerCase_idempotent.
  - intros H before after. apply existsb_exists in H.
    destruct H as (k & Hk & I). apply existsb_exists. exists k. split; [exact Hk|].
    rewrite !QueryFacts.toLowerCase_append. apply QueryFacts.includes_within, I.
Qed.

Lemma detectComputationalQuery_monotone_witness :
  DataProcessor.detectComputationalQuery
    ("A question: " +++ Samples.originQuestion +++ " Thank you.") = true.
Proof.
  destruct (detectComputationalQuery_monotone Samples.originQuestion) as [_ M].
  apply M. vm_compute. reflexivity.
Defined.

(** X6.  Rows that do not mention the crop the query names have no effect
    on the answer of [performAgriculturalComputation], wherever they stand
    in the data. *)
Theorem computation_ignores_other_rows
        (query : string) (data extra more : list Row) :
  (forall crop, queryCrop query = Some crop ->
                forallb (fun row => negb (mentions crop row)) extra = true) ->
  DataProcessor.performAgriculturalComputation query (data ++ extra ++ more)
  = DataProcessor.performAgriculturalComputation query (data ++ more).
Proof.
  intros H. unfold DataProcessor.performAgriculturalComputation.
  unfold queryCrop in H.
  destruct (find _ DataProcessor.crops) as [crop|]; [|reflexivity].
  specialize (H crop eq_refl).
  assert (E : filter (DataProcessor.rowMatches crop
                        (find (fun s => includes (toLowerCase query) s)
                              DataProcessor.states)) extra = []).
  { induction extra as [|row r IH]; [reflexivity|]. simpl in *.
    apply andb_prop in H. destruct H as [H1 H2].
    unfold DataProcessor.rowMatches at 1. unfold mentions in H1.
    destruct (includes (DataProcessor.rowText row) crop); [discriminate|].
    simpl. apply IH, H2. }
  rewrite !filter_app, E. reflexivity.
Qed.

Lemma computation_ignores_other_rows_witness :
  DataProcessor.performAgriculturalComputation Samples.riceQuery
    ([Samples.riceRow] ++ [Samples.wheatRow] ++ [])
  = DataProcessor.performAgriculturalComputation Samples.riceQuery
      ([Samples.riceRow] ++ []).
Proof.
  apply (computation_ignores_other_rows Samples.riceQuery
           [Samples.riceRow] [Samples.wheatRow] []).
  intros crop H. vm_compute in H. injection H as <-. vm_compute. reflexivity.
Defined.

(** X7.  The clarifications of [performAgriculturalComputation].  A query
    that names none of the eight crops gets the request to specify a crop,
    whatever the data.  A query that names a crop, on data none of whose
    rows mentions the crop (empty data for one), gets "No data found for"
    the crop, with " in " and the state when the query names a state. *)
Theorem computation_clarifications (query : string) (data : list Row) :
  (queryCrop query = None ->
   DataProcessor.performAgriculturalComputation query data
   = "Please specify a crop for computation (e.g., rice, wheat, maize).")
  /\ (forall crop,
        queryCrop query = Some crop ->
        forallb (fun row => negb (mentions crop row)) data = true ->
        DataProcessor.performAgriculturalComputation query data
        = "No data found for " +++ crop
            +++ match queryState query with
                | Some s => " in " +++ s
                | None => ""
                end +++ ".").
Proof.
  unfold DataProcessor.performAgriculturalComputation, queryCrop, queryState.
  split.
  - intros ->. reflexivity.
  - intros crop -> H.
    assert (E : filter (DataProcessor.rowMatches crop
                          (find (fun s => includes (toLowerCase query) s)
                                DataProcessor.states)) data = []).
    { induction data as [|row r IH]; [reflexivity|]. simpl in *.
      apply andb_prop in H. destruct H as [H1 H2].
      unfold DataProcessor.rowMatches at 1. unfold mentions in H1.
      destruct (includes (DataProcessor.rowText row) crop); [discriminate|].
      simpl. apply IH, H2. }
    rewrite E. reflexivity.
Qed.

Lemma computation_clarifications_witness :
  DataProcessor.performAgriculturalComputation
    "total wheat in kerala" [Samples.riceRow]
  = "No data found for " +++ "wheat"
      +++ match queryState "total wheat in kerala" with
          | Some s => " in " +++ s
          | None => ""
          end +++ ".".
Proof.
  destruct (computation_clarifications "total wheat in kerala" [Samples.riceRow])
    as [_ H].
  apply H; vm_compute; reflexivity.
Defined.

(** ** The computational branch *)

(** X8.  The computational branch opens the file of the datasets whose
    type is exactly "csv" and whose status is "ready", in the order of the
    store, and nothing else leaves the process.  A file whose parser fails
    is skipped: the computation runs on the rows of the parsers that ended,
    and the sources name every ready CSV dataset, the skipped ones too.  A
    file that cannot be opened or read ends the process at once: the files
    after it are not opened and no response is made. *)
Theorem handleComputationalQuery_outcome
        (w : World) (query : string) (log : list Event) :
  let ready := filter isReadyCsv (storedDatasets w) in
  let rows := flat_map (rowsOfDataset w) ready in
  handleComputationalQuery w query log
  = (if unreadableCsv w
     then Exited
     else
       Returned
         match ready, rows with
         | [], _ => mkRAGResponse noDatasetsAnswer [] true None
         | _, [] => mkRAGResponse unableToLoadAnswer (map ds_name ready) true None
         | _, _ =>
             mkRAGResponse
               (DataProcessor.performAgriculturalComputation query rows)
               (map ds_name ready) true
               (Some (ComputationInfo (List.length ready)
                        "agricultural_statistics" (List.length rows)))
         end,
     log ++ map (fun d => EvReadCsv (ds_filePath d))
                (openedUntilFailure w ready)).
Proof.
  cbv zeta. unfold handleComputationalQuery, unreadableCsv.
  destruct (filter isReadyCsv (storedDatasets w)) as [|d ds] eqn:R.
  - run_eff. now rewrite app_nil_r.
  - unfold tryCatch, bind. rewrite loadAll_outcome.
    change ([] ++ flat_map (rowsOfDataset w) (d :: ds))
      with (flat_map (rowsOfDataset w) (d :: ds)).
    destruct (existsb (fileFails w) (d :: ds)); [reflexivity|].
    destruct (flat_map (rowsOfDataset w) (d :: ds)); reflexivity.
Qed.

(** * Further properties of the similarity search *)

Module RankFacts.

Import FloatOrder FloatFacts MemStorage.

Lemma add_nan (x y : float) :
  isNaN (Prim2SF x) = true \/ isNaN (Prim2SF y) = true ->
  isNaN (Prim2SF (x + y)) = true.
Proof.
  rewrite add_spec. unfold SF64add.
  destruct (Prim2SF x) as [sx|sx| |sx mx ex], (Prim2SF y) as [sy|sy| |sy my ey];
    simpl; intros [H|H]; try discriminate; reflexivity.
Qed.

Lemma mul_nan (x y : float) :
  isNaN (Prim2SF x) = true \/ isNaN (Prim2SF y) = true ->
  isNaN (Prim2SF (x * y)) = true.
Proof.
  rewrite mul_spec. unfold SF64mul.
  destruct (Prim2SF x) as [sx|sx| |sx mx ex], (Prim2SF y) as [sy|sy| |sy my ey];
    simpl; intros [H|H]; try discriminate; reflexivity.
Qed.

Lemma div_nan (x y : float) :
  isNaN (Prim2SF x) = true -> (x / y)%float = nan.
Proof.
  intros H. apply SimilarityFacts.nan_of_spec. rewrite div_spec. unfold SF64div.
  destruct (Prim2SF x); try discriminate. reflexivity.
Qed.

Lemma dotFrom_nan (a b : list float) :
  forall i sum,
    isNaN (Prim2SF sum) = true -> isNaN (Prim2SF (dotFrom i a b sum)) = true.
Proof.
  induction a as [|x r IH]; intros i sum H; simpl; [exact H|].
  apply IH, add_nan. now left.
Qed.

(** A vector shorter than the query makes the dot product [NaN]. *)
Lemma dotFrom_short (a b : list float) :
  forall i sum,
    List.length b < i + List.length a -> i <= List.length b ->
    isNaN (Prim2SF (dotFrom i a b sum)) = true.
Proof.
  induction a as [|x r IH]; intros i sum L I; simpl in *; [lia|].
  destruct (Nat.eq_dec i (List.length b)) as [E|N].
  - apply dotFrom_nan, add_nan. right. apply mul_nan. right.
    rewrite nth_overflow by lia. reflexivity.
  - apply IH; lia.
Qed.

Lemma dotFrom_ignores (a b extra : list float) :
  forall i sum,
    i + List.length a <= List.length b ->
    dotFrom i a (b ++ extra) sum = dotFrom i a b sum.
Proof.
  induction a as [|x r IH]; intros i sum L; simpl in *; [reflexivity|].
  rewrite app_nth1 by lia. apply IH. lia.
Qed.

Lemma cosineSimilarity_zero (a b : list float) :
  zeroVector a \/ zeroVector b -> cosineSimilarity a b = nan.
Proof.
  intros Z. unfold cosineSimilarity.
  apply SimilarityFacts.nan_of_spec.
  apply SimilarityFacts.div_by_zero_or_nan.
  - apply SimilarityFacts.magnitudes_product.
    destruct Z as [Z|Z]; [left|right];
      apply SimilarityFacts.magnitude_zeroVector; exact Z.
  - apply SimilarityFacts.dotFrom_zero_or_nan; [exact Z|reflexivity].
Qed.

Lemma cosineSimilarity_short (a b : list float) :
  List.length b < List.length a -> cosineSimilarity a b = nan.
Proof.
  intros L. unfold cosineSimilarity, dotProduct.
  apply div_nan, dotFrom_short; simpl; lia.
Qed.

Lemma sliceTo_map {A B : Type} (f : A -> B) (limit : Z) (l : list A) :
  sliceTo limit (map f l) = map f (sliceTo limit l).
Proof.
  unfold sliceTo. rewrite length_map.
  destruct (0 <=? limit)%Z; apply firstn_map.
Qed.

(** When every similarity is [NaN], so is every comparison: the candidates
    all compare equal and a sort that meets the contract leaves them in
    place. *)
Lemma search_unranked (engine : Engine) (chunks : list Chunk) (q : list float)
      (k : Z) :
  SortContract engine ->
  (forall c, In c (filter hasEmbedding chunks) -> similarityTo q c = nan) ->
  searchChunksByEmbedding engine chunks q k
  = sliceTo k (filter hasEmbedding chunks).
Proof.
  intros K N. unfold searchChunksByEmbedding.
  assert (T : forall x y,
             In x (map (scoreChunk q) (filter hasEmbedding chunks)) ->
             In y (map (scoreChunk q) (filter hasEmbedding chunks)) ->
             sortsEqual compareScores x y = true).
  { intros x y Hx Hy. apply in_map_iff in Hx, Hy.
    destruct Hx as (cx & <- & Hx), Hy as (cy & <- & Hy).
    unfold sortsEqual, sortsBefore, sortsAfter, compareScores, scoreChunk.
    simpl. fold (similarityTo q cx). fold (similarityTo q cy).
    rewrite (N cx Hx), (N cy Hy). reflexivity. }
  rewrite (SortFacts.contract_insertion engine K _ _ _
             (SortFacts.consistent_all_ties _ _ T)).
  rewrite (SortFacts.sort_all_ties _ _ T).
  rewrite sliceTo_map, map_map. simpl. now rewrite map_id.
Qed.

End RankFacts.

(** X9.  A query vector that does not match the stored vectors in length is
    not rejected.  Against a shorter stored vector the similarity is [NaN].
    Against a longer one the components beyond the length of the query are
    left out of the dot product, while they still count in the magnitude
    of the stored vector. *)
Theorem cosineSimilarity_length_mismatch (a b : list float) :
  (List.length b < List.length a -> MemStorage.cosineSimilarity a b = nan)
  /\ (List.length a <= List.length b ->
      forall extra,
        MemStorage.cosineSimilarity a (b ++ extra)
        = (MemStorage.dotProduct a b
           / (MemStorage.magnitude a * MemStorage.magnitude (b ++ extra)))%float).
Proof.
  split.
  - apply RankFacts.cosineSimilarity_short.
  - intros L extra. unfold MemStorage.cosineSimilarity, MemStorage.dotProduct.
    rewrite RankFacts.dotFrom_ignores by (simpl; lia). reflexivity.
Qed.

Lemma cosineSimilarity_length_mismatch_witness :
  MemStorage.cosineSimilarity [1%float; 2%float; 3%float] [1%float; 2%float] = nan
  /\ MemStorage.cosineSimilarity [1%float; 2%float] ([1%float; 2%float] ++ [3%float])
     = (MemStorage.dotProduct [1%float; 2%float] [1%float; 2%float]
        / (MemStorage.magnitude [1%float; 2%float]
           * MemStorage.magnitude ([1%float; 2%float] ++ [3%float])))%float.
Proof.
  destruct (cosineSimilarity_length_mismatch [1%float; 2%float; 3%float]
              [1%float; 2%float]) as [S _].
  destruct (cosineSimilarity_length_mismatch [1%float; 2%float]
              [1%float; 2%float]) as [_ T].
  split; [apply S; simpl; lia|apply T; simpl; lia].
Defined.

(** X10.  A query vector that cannot be ranked gives the stored order back:
    when the query vector is a vector of zeros (the empty vector for one),
    or longer than every stored vector, every similarity is [NaN], the
    candidates all compare equal, and on an engine whose sort meets the
    contract of the standard [searchChunksByEmbedding] returns the first
    [limit] chunks that have an embedding, in insertion order. *)
Theorem searchChunksByEmbedding_unranked
        (engine : Engine) (chunks : list Chunk) (q : list float) (k : Z) :
  SortContract engine ->
  zeroVector q
  \/ (forall c, In c chunks ->
                List.length (MemStorage.embeddingOf c) < List.length q) ->
  MemStorage.searchChunksByEmbedding engine chunks q k
  = MemStorage.sliceTo k (filter MemStorage.hasEmbedding chunks).
Proof.
  intros K H. apply (RankFacts.search_unranked engine chunks q k K). intros c Hc.
  unfold similarityTo. destruct H as [Z|S].
  - apply RankFacts.cosineSimilarity_zero. now left.
  - apply RankFacts.cosineSimilarity_short, S.
    apply filter_In in Hc. tauto.
Qed.

Lemma searchChunksByEmbedding_unranked_witness :
  MemStorage.searchChunksByEmbedding referenceEngine Samples.ranked [] 2
  = MemStorage.sliceTo 2 (filter MemStorage.hasEmbedding Samples.ranked).
Proof.
  apply (searchChunksByEmbedding_unranked referenceEngine Samples.ranked [] 2
           SortFacts.referenceEngine_contract).
  left. constructor.
Defined.

(** X11.  Asking for fewer results gives the head of what asking for more
    gives: for [0 <= k <= k'], the result for the limit [k] is the first
    [k] chunks of the result for the limit [k'], whatever the engine's sort
    does. *)
Theorem searchChunksByEmbedding_prefix
        (engine : Engine) (chunks : list Chunk) (q : list float) (k k' : Z) :
  (0 <= k <= k')%Z ->
  MemStorage.searchChunksByEmbedding engine chunks q k
  = firstn (Z.to_nat k) (MemStorage.searchChunksByEmbedding engine chunks q k').
Proof.
  intros [K K']. unfold MemStorage.searchChunksByEmbedding, MemStorage.sliceTo.
  destruct (Z.leb_spec 0 k); [|lia]. destruct (Z.leb_spec 0 k'); [|lia].
  rewrite firstn_map, firstn_firstn. do 2 f_equal. lia.
Qed.

Lemma searchChunksByEmbedding_prefix_witness :
  MemStorage.searchChunksByEmbedding referenceEngine Samples.ranked
    Samples.alongAxis 1
  = firstn (Z.to_nat 1)
           (MemStorage.searchChunksByEmbedding referenceEngine Samples.ranked
              Samples.alongAxis 3).
Proof.
  apply (searchChunksByEmbedding_prefix referenceEngine Samples.ranked
           Samples.alongAxis 1 3).
  lia.
Defined.

(** * The store *)

Module StoreFacts.

Import FloatFacts.

Section MapFacts.
Context {A : Type} (key : A -> string).

Lemma mapGet_mapSet_same (v : A) (l : list A) :
  mapGet key (key v) (mapSet key v l) = Some v.
Proof.
  unfold mapGet. induction l as [|x r IH]; simpl.
  - now rewrite String.eqb_refl.
  - destruct (String.eqb (key x) (key v)) eqn:E; simpl.
    + now rewrite String.eqb_refl.
    + now rewrite E.
Qed.

Lemma mapGet_mapSet_other (id : string) (v : A) (l : list A) :
  id <> key v -> mapGet key id (mapSet key v l) = mapGet key id l.
Proof.
  intros N. unfold mapGet. induction l as [|x r IH]; simpl.
  - destruct (String.eqb_spec (key v) id); [congruence|reflexivity].
  - destruct (String.eqb_spec (key x) (key v)) as [E|E]; simpl.
    + destruct (String.eqb_spec (key v) id); [congruence|].
      destruct (String.eqb_spec (key x) id); [congruence|reflexivity].
    + destruct (String.eqb (key x) id); [reflexivity|exact IH].
Qed.

Lemma mapSet_In (v x : A) (l : list A) :
  In x (mapSet key v l) -> x = v \/ In x l.
Proof.
  induction l as [|y r IH]; simpl.
  - intros [H|[]]; auto.
  - destruct (String.eqb (key y) (key v)); simpl; intros [H|H]; auto.
    destruct (IH H); auto.
Qed.

Lemma mapSet_In_new (v : A) (l : list A) : In v (mapSet key v l).
Proof.
  induction l as [|y r IH]; simpl; [now left|].
  destruct (String.eqb (key y) (key v)); simpl; auto.
Qed.

Lemma mapSet_fresh (v : A) (l : list A) :
  existsb (String.eqb (key v)) (map key l) = false -> mapSet key v l = l ++ [v].
Proof.
  induction l as [|x r IH]; simpl; [reflexivity|].
  intros H. apply orb_false_elim in H. destruct H as [H1 H2].
  rewrite String.eqb_sym, H1, IH by exact H2. reflexivity.
Qed.

Lemma mapSet_all_fresh (new : list A) :
  forall old,
    distinctFrom (map key old) (map key new) = true ->
    fold_left (fun l v => mapSet key v l) new old = old ++ new.
Proof.
  induction new as [|v r IH]; intros old H; simpl in *.
  - now rewrite app_nil_r.
  - apply andb_prop in H. destruct H as [H1 H2].
    apply negb_true_iff in H1.
    rewrite mapSet_fresh by exact H1.
    rewrite IH; [now rewrite <- app_assoc|].
    now rewrite map_app.
Qed.

Lemma mapSet_all_In (new : list A) :
  forall old x,
    In x (fold_left (fun l v => mapSet key v l) new old) -> In x old \/ In x new.
Proof.
  induction new as [|v r IH]; intros old x H; simpl in *; [now left|].
  destruct (IH _ _ H) as [H'|H']; [|auto].
  destruct (mapSet_In _ _ _ H'); auto.
Qed.
End MapFacts.

Lemma timeKey_not_nan (t : float) : is_nan (timeKey t) = false.
Proof.
  unfold timeKey. destruct (is_nan t) eqn:N; simpl; [reflexivity|].
  destruct (is_zero t); [reflexivity|exact N].
Qed.

Lemma insert_by_time (x : Message) (l : list Message) :
  StronglySorted notAfter l ->
  StronglySorted notAfter (insert Storage.compareTimes x l).
Proof.
  intros S. induction S as [|y r S IH F]; simpl.
  - constructor; constructor.
  - unfold sortsAfter, Storage.compareTimes at 1. rewrite sub_positive.
    destruct (timeKey (msg_createdAt y) <? timeKey (msg_createdAt x))%float eqn:C.
    + constructor; [exact IH|].
      rewrite (SortFacts.insert_perm Storage.compareTimes x r).
      constructor; [|exact F]. apply ltb_leb. exact C.
    + assert (R : notAfter x y).
      { apply leb_total; [apply timeKey_not_nan|apply timeKey_not_nan|exact C]. }
      constructor; [constructor; assumption|].
      constructor; [exact R|].
      rewrite Forall_forall in *. intros z Hz.
      unfold notAfter in *. eapply leb_trans; [exact R|apply (F z Hz)].
Qed.

Lemma sort_by_time (l : list Message) :
  StronglySorted notAfter (insertionSort Storage.compareTimes l).
Proof.
  induction l as [|x r IH]; simpl; [constructor|]. apply insert_by_time, IH.
Qed.

(** The comparator of the messages is consistent on every array: no time,
    once read through [|| 0], is [NaN]. *)
Lemma messages_by_contract (engine : Engine) (l : list Message) :
  SortContract engine ->
  arraySort engine Storage.compareTimes l
  = insertionSort Storage.compareTimes l.
Proof.
  intros K. apply (SortFacts.contract_insertion engine K).
  apply (SortFacts.consistent_ascending
           (fun m => timeKey (msg_createdAt m))).
  apply Forall_forall. intros m _. apply timeKey_not_nan.
Qed.

End StoreFacts.

(** X12.  On an engine whose sort meets the contract of the standard,
    [getMessagesByConversation] returns the messages of the conversation
    asked for and no other, each once, in order of non-decreasing creation
    time, and the messages created at the same time in the order they were
    stored.  This holds for every store: a zero or invalid time counts as
    time 0, so that no two times fail to compare and the comparator is
    consistent. *)
Theorem getMessagesByConversation_in_time_order
        (env : Env) (conversationId : string) (st : Store) :
  SortContract (env_engine env) ->
  let result :=
    Storage.messagesOf (env_engine env) conversationId (st_messages st) in
  Storage.getMessagesByConversation env conversationId st = (Returned result, st)
  /\ Permutation result
                 (filter (Storage.inConversation conversationId) (st_messages st))
  /\ StronglySorted notAfter result
  /\ forall t,
      filter (sameTime t) result
      = filter (sameTime t)
               (filter (Storage.inConversation conversationId) (st_messages st)).
Proof.
  intros K. cbv zeta. split; [reflexivity|]. unfold Storage.messagesOf.
  rewrite (StoreFacts.messages_by_contract _ _ K).
  split; [apply SortFacts.sort_perm|].
  split; [apply StoreFacts.sort_by_time|].
  intros t. apply SearchFacts.sort_filter.
  intros x y Hx Hy. unfold sortsAfter, Storage.compareTimes.
  rewrite FloatFacts.sub_positive.
  apply (FloatFacts.eqb_not_ltb _ _ t Hy Hx).
Qed.

Lemma getMessagesByConversation_in_time_order_witness :
  let result :=
    Storage.messagesOf referenceEngine "c-1" (st_messages twoMessages) in
  Storage.getMessagesByConversation Fixtures.localEnv "c-1" twoMessages
  = (Returned result, twoMessages)
  /\ Permutation result
                 (filter (Storage.inConversation "c-1") (st_messages twoMessages))
  /\ StronglySorted notAfter result
  /\ forall t,
      filter (sameTime t) result
      = filter (sameTime t)
               (filter (Storage.inConversation "c-1") (st_messages twoMessages)).
Proof.
  apply (getMessagesByConversation_in_time_order Fixtures.localEnv "c-1"
           twoMessages).
  apply SortFacts.referenceEngine_contract.
Defined.

Module DatasetFacts.

Import StoreFacts.

Section Keys.
Context {A : Type} (key : A -> string).

Lemma mapGet_key (id : string) (v : A) (l : list A) :
  mapGet key id l = Some v -> key v = id.
Proof.
  unfold mapGet. intros H. apply find_some in H. now apply String.eqb_eq.
Qed.

Lemma mapSet_keys (v x : A) (l : list A) :
  mapGet key (key v) l = Some x -> map key (mapSet key v l) = map key l.
Proof.
  unfold mapGet. induction l as [|y r IH]; simpl; [discriminate|].
  destruct (String.eqb_spec (key y) (key v)) as [E|E]; simpl.
  - intros _. now rewrite E.
  - intros H. now rewrite IH.
Qed.
End Keys.

Lemma updateDatasetStatus_outcome (id status : string) (st : Store) :
  Storage.updateDatasetStatus id status st =
  (Returned tt,
   mkStore (match mapGet ds_id id (st_datasets st) with
            | Some d => mapSet ds_id (withStatus status d) (st_datasets st)
            | None => st_datasets st
            end)
           (st_chunks st) (st_conversations st) (st_messages st)
           (st_uuids st) (st_ticks st) (st_log st)).
Proof.
  unfold Storage.updateDatasetStatus, obind, Storage.getStore.
  destruct (mapGet ds_id id (st_datasets st)); [reflexivity|].
  destruct st; reflexivity.
Qed.

Lemma updated_lookup (id status : string) (ds : list Dataset) :
  mapGet ds_id id
         (match mapGet ds_id id ds with
          | Some d => mapSet ds_id (withStatus status d) ds
          | None => ds
          end)
  = option_map (withStatus status) (mapGet ds_id id ds).
Proof.
  destruct (mapGet ds_id id ds) as [d|] eqn:G; simpl.
  - pose proof (mapGet_key ds_id _ _ _ G) as K.
    replace id with (ds_id (withStatus status d)) at 1 by exact K.
    apply mapGet_mapSet_same.
  - exact G.
Qed.

End DatasetFacts.

(** X13.  [updateDatasetStatus] never raises and changes nothing but the
    status of the dataset named: the dataset keeps its name, type and path
    and its place in the map, every other dataset is as it was, and so are
    the chunks, the conversations and the messages.  For an identifier that
    names no dataset the store is left as it is: no dataset is created. *)
Theorem updateDatasetStatus_changes_status_only (id status : string) (st : Store) :
  exists st',
    Storage.updateDatasetStatus id status st = (Returned tt, st')
    /\ mapGet ds_id id (st_datasets st')
       = option_map (withStatus status) (mapGet ds_id id (st_datasets st))
    /\ (forall other, other <> id ->
          mapGet ds_id other (st_datasets st')
          = mapGet ds_id other (st_datasets st))
    /\ map ds_id (st_datasets st') = map ds_id (st_datasets st)
    /\ (mapGet ds_id id (st_datasets st) = None -> st' = st)
    /\ st_chunks st' = st_chunks st
    /\ st_conversations st' = st_conversations st
    /\ st_messages st' = st_messages st.
Proof.
  eexists. split; [apply DatasetFacts.updateDatasetStatus_outcome|]. simpl.
  split; [apply DatasetFacts.updated_lookup|].
  destruct (mapGet ds_id id (st_datasets st)) as [d|] eqn:G.
  - pose proof (DatasetFacts.mapGet_key ds_id _ _ _ G) as K.
    split.
    { intros other N. apply StoreFacts.mapGet_mapSet_other. simpl. congruence. }
    split.
    { apply (DatasetFacts.mapSet_keys ds_id (withStatus status d) d).
      simpl. now rewrite K. }
    split; [discriminate|]. repeat split.
  - split; [reflexivity|]. split; [reflexivity|].
    split; [intros _; destruct st; reflexivity|]. repeat split.
Qed.

(** * Indexing *)

Module IndexFacts.

Import StoreFacts DatasetFacts.

Lemma storeChunks_outcome (env : Env) (datasetId fileName : string)
      (embeddings : list (list float)) (chunks : list TextChunk) :
  forall index st,
    VectorSearch.storeChunks env datasetId fileName embeddings index chunks st =
    (Returned tt,
     mkStore (st_datasets st)
             (fold_left (fun l c => mapSet ch_id c l)
                        (indexedChunks env datasetId fileName embeddings index
                                       (st_uuids st) chunks)
                        (st_chunks st))
             (st_conversations st) (st_messages st)
             (st_uuids st + List.length chunks) (st_ticks st + List.length chunks)
             (st_log st)).
Proof.
  induction chunks as [|chunk rest IH]; intros index st.
  - destruct st. simpl. now rewrite !Nat.add_0_r.
  - simpl VectorSearch.storeChunks. unfold obind at 1.
    unfold Storage.createChunk, obind, Storage.randomUUID, Storage.newDate,
      Storage.getStore, Storage.setChunks, oret. simpl.
    rewrite IH. simpl.
    replace (S (st_uuids st + List.length rest))
      with (st_uuids st + S (List.length rest)) by lia.
    replace (S (st_ticks st + List.length rest))
      with (st_ticks st + S (List.length rest)) by lia.
    reflexivity.
Qed.

Lemma indexedChunks_ids (env : Env) (datasetId fileName : string)
      (embeddings : list (list float)) (chunks : list TextChunk) :
  forall index u,
    map ch_id (indexedChunks env datasetId fileName embeddings index u chunks)
    = map (env_uuid env) (seq u (List.length chunks)).
Proof.
  induction chunks as [|c r IH]; intros index u; simpl; [reflexivity|].
  now rewrite IH.
Qed.

Lemma indexedChunks_contents (env : Env) (datasetId fileName : string)
      (embeddings : list (list float)) (chunks : list TextChunk) :
  forall index u,
    map ch_content (indexedChunks env datasetId fileName embeddings index u chunks)
    = map tc_content chunks.
Proof.
  induction chunks as [|c r IH]; intros index u; simpl; [reflexivity|].
  now rewrite IH.
Qed.

Lemma indexedChunks_embeddings (env : Env) (datasetId fileName : string)
      (embeddings : list (list float)) (chunks : list TextChunk) :
  forall index u,
    map ch_embedding
        (indexedChunks env datasetId fileName embeddings index u chunks)
    = map (nth_error embeddings) (seq index (List.length chunks)).
Proof.
  induction chunks as [|c r IH]; intros index u; simpl; [reflexivity|].
  now rewrite IH.
Qed.

Lemma fileNameFor_truthy (dataset : option Dataset) :
  truthy (Some (VectorSearch.fileNameFor dataset)) = true.
Proof.
  unfold VectorSearch.fileNameFor, orElse, truthy.
  destruct dataset as [d|]; [|reflexivity].
  destruct (String.eqb (ds_name d) "") eqn:E; [reflexivity|].
  now rewrite E.
Qed.

Lemma indexedChunks_labels (env : Env) (datasetId fileName : string)
      (embeddings : list (list float)) (chunks : list TextChunk) :
  truthy (Some fileName) = true ->
  forall index u c,
    In c (indexedChunks env datasetId fileName embeddings index u chunks) ->
    sourceOf c = fileName /\ ch_datasetId c = nonEmpty (Some datasetId).
Proof.
  intros T. induction chunks as [|x r IH]; intros index u c; simpl; [tauto|].
  intros [<-|H]; [|eapply IH; exact H].
  split; [|reflexivity].
  unfold sourceOf, fileNameOf, VectorSearch.storedMetadata.
  cbn [ch_metadata md_fileName]. rewrite T.
  unfold orElse. unfold truthy in T. apply negb_true_iff in T. now rewrite T.
Qed.

Lemma buildIndexForDataset_outcome (env : Env) (datasetId : string)
      (chunks : list TextChunk) (st : Store) :
  VectorSearch.buildIndexForDataset env datasetId chunks st =
  match env_generateEmbeddings env (map tc_content chunks) with
  | Fulfilled embeddings =>
      (Returned tt,
       snd (Storage.updateDatasetStatus datasetId "ready"
              (snd (VectorSearch.storeChunks env datasetId
                      (VectorSearch.fileNameFor
                         (mapGet ds_id datasetId (st_datasets st)))
                      embeddings 0 chunks st))))
  | Rejected _ =>
      (Thrown "Failed to build index for dataset",
       snd (Storage.updateDatasetStatus datasetId "error" st))
  end.
Proof.
  unfold VectorSearch.buildIndexForDataset.
  cbv beta iota delta [otry obind olift await Storage.getDataset
                       Storage.getStore oret othrow].
  destruct (env_generateEmbeddings env (map tc_content chunks)) as [embeddings|e].
  - rewrite storeChunks_outcome. cbn [snd].
    rewrite updateDatasetStatus_outcome. reflexivity.
  - rewrite updateDatasetStatus_outcome. reflexivity.
Qed.

End IndexFacts.



(** X15.  When the embedding service answers and the identifiers drawn are
    new, [buildIndexForDataset] returns and appends one stored chunk per
    chunk of the file, in the order of the file, after the chunks already
    stored: chunk [i] carries the content of chunk [i] and the [i]-th vector
    of the answer, or no vector at all when the answer has fewer vectors
    than there are chunks.  The status of the dataset, when it exists,
    becomes "ready". *)
Theorem buildIndexForDataset_appends_in_order
        (env : Env) (datasetId : string) (chunks : list TextChunk) (st : Store)
        (embeddings : list (list float)) :
  env_generateEmbeddings env (map tc_content chunks) = Fulfilled embeddings ->
  distinctFrom (map ch_id (st_chunks st))
               (map (env_uuid env) (seq (st_uuids st) (List.length chunks)))
  = true ->
  exists st' stored,
    VectorSearch.buildIndexForDataset env datasetId chunks st = (Returned tt, st')
    /\ st_chunks st' = st_chunks st ++ stored
    /\ map ch_content stored = map tc_content chunks
    /\ map ch_embedding stored
       = map (nth_error embeddings) (seq 0 (List.length chunks))
    /\ Forall (fun c => ch_datasetId c = nonEmpty (Some datasetId)) stored
    /\ mapGet ds_id datasetId (st_datasets st')
       = option_map (withStatus "ready") (mapGet ds_id datasetId (st_datasets st)).
Proof.
  intros E F. rewrite IndexFacts.buildIndexForDataset_outcome, E.
  rewrite IndexFacts.storeChunks_outcome, DatasetFacts.updateDatasetStatus_outcome.
  simpl.
  set (fileName := VectorSearch.fileNameFor _).
  exists
    (mkStore
       (match mapGet ds_id datasetId (st_datasets st) with
        | Some d => mapSet ds_id (withStatus "ready" d) (st_datasets st)
        | None => st_datasets st
        end)
       (fold_left (fun l c => mapSet ch_id c l)
                  (indexedChunks env datasetId fileName embeddings 0
                                 (st_uuids st) chunks)
                  (st_chunks st))
       (st_conversations st) (st_messages st)
       (st_uuids st + List.length chunks) (st_ticks st + List.length chunks)
       (st_log st)),
    (indexedChunks env datasetId fileName embeddings 0 (st_uuids st) chunks).
  split; [reflexivity|]. simpl.
  split.
  { apply StoreFacts.mapSet_all_fresh.
    now rewrite IndexFacts.indexedChunks_ids. }
  split; [apply IndexFacts.indexedChunks_contents|].
  split; [apply IndexFacts.indexedChunks_embeddings|].
  split.
  { apply Forall_forall. intros c H.
    eapply IndexFacts.indexedChunks_labels; [|exact H].
    apply IndexFacts.fileNameFor_truthy. }
  apply DatasetFacts.updated_lookup.
Qed.

Lemma buildIndexForDataset_appends_in_order_witness :
  exists st' stored,
    VectorSearch.buildIndexForDataset Fixtures.localEnv "d-1"
      Fixtures.notesChunks Fixtures.oneDataset = (Returned tt, st')
    /\ st_chunks st' = st_chunks Fixtures.oneDataset ++ stored
    /\ map ch_content stored = map tc_content Fixtures.notesChunks
    /\ map ch_embedding stored
       = map (nth_error [[1%float; 0%float]])
             (seq 0 (List.length Fixtures.notesChunks))
    /\ Forall (fun c => ch_datasetId c = nonEmpty (Some "d-1")) stored
    /\ mapGet ds_id "d-1" (st_datasets st')
       = option_map (withStatus "ready")
                    (mapGet ds_id "d-1" (st_datasets Fixtures.oneDataset)).
Proof.
  apply (buildIndexForDataset_appends_in_order Fixtures.localEnv "d-1"
           Fixtures.notesChunks Fixtures.oneDataset [[1%float; 0%float]]).
  - reflexivity.
  - reflexivity.
Defined.

(** X16.  Whatever the embedding service does, every chunk in the store
    after [buildIndexForDataset] either was there before or belongs to the
    dataset and is labelled, as a source, with the name of the dataset
    ("unknown" when the dataset does not exist or has an empty name): the
    fallback labels "CSV Dataset" and "Unknown source" of [extractSources]
    are never used for a chunk indexed this way. *)
Theorem buildIndexForDataset_labels_chunks
        (env : Env) (datasetId : string) (chunks : list TextChunk) (st : Store) :
  Forall (fun c =>
            In c (st_chunks st)
            \/ (sourceOf c
                = VectorSearch.fileNameFor
                    (mapGet ds_id datasetId (st_datasets st))
                /\ ch_datasetId c = nonEmpty (Some datasetId)))
         (st_chunks
            (snd (VectorSearch.buildIndexForDataset env datasetId chunks st))).
Proof.
  rewrite IndexFacts.buildIndexForDataset_outcome.
  apply Forall_forall. intros c.
  destruct (env_generateEmbeddings env (map tc_content chunks)) as [embeddings|e];
    rewrite DatasetFacts.updateDatasetStatus_outcome; simpl; [|now left].
  rewrite IndexFacts.storeChunks_outcome. simpl. intros H.
  apply StoreFacts.mapSet_all_In in H. destruct H as [H|H]; [now left|right].
  eapply IndexFacts.indexedChunks_labels; [|exact H].
  apply IndexFacts.fileNameFor_truthy.
Qed.

(** * The upload route *)

Module UploadFacts.

Import StoreFacts DatasetFacts IndexFacts.

Lemma uploadFile_outcome (env : Env) (file : Routes.UploadedFile) (st : Store) :
  let name := Routes.uf_originalname file in
  let fileType := JsString.drop 1 (env_extname env name) in
  let id := env_uuid env (st_uuids st) in
  let st1 :=
    mkStore (mapSet ds_id (uploadedDataset env file st "processing")
                    (st_datasets st))
            (st_chunks st) (st_conversations st) (st_messages st)
            (S (st_uuids st)) (S (st_ticks st)) (st_log st) in
  Routes.uploadFile env file st =
  match FileProcessor.processFile env (Routes.uf_path file) fileType with
  | Exited => (Exited, st1)
  | Thrown e => (Returned (Routes.UploadError name e), st1)
  | Returned chunks =>
      match env_generateEmbeddings env (map tc_content chunks) with
      | Fulfilled embeddings =>
          (Returned (Routes.UploadReady id name (List.length chunks)),
           snd (Storage.updateDatasetStatus id "ready"
                  (snd (VectorSearch.storeChunks env id
                          (VectorSearch.fileNameFor
                             (mapGet ds_id id (st_datasets st1)))
                          embeddings 0 chunks st1))))
      | Rejected _ =>
          (Returned (Routes.UploadError name "Failed to build index for dataset"),
           snd (Storage.updateDatasetStatus id "error" st1))
      end
  end.
Proof.
  cbv zeta. unfold Routes.uploadFile.
  cbv beta iota delta [otry obind olift oret Storage.createDataset
                       Storage.randomUUID Storage.newDate Storage.getStore
                       Storage.setDatasets].
  cbn [st_datasets st_chunks st_conversations st_messages st_uuids st_ticks
       st_log ds_id ds_name].
  unfold uploadedDataset.
  destruct (FileProcessor.processFile env (Routes.uf_path file) _)
    as [chunks|e|]; [|reflexivity|reflexivity].
  rewrite buildIndexForDataset_outcome.
  destruct (env_generateEmbeddings env (map tc_content chunks)); reflexivity.
Qed.

Lemma toLowerCase_drop (n : nat) :
  forall s, toLowerCase (JsString.drop n s) = JsString.drop n (toLowerCase s).
Proof.
  induction n as [|n IH]; intros s; [reflexivity|].
  destruct s as [|c r]; simpl; [reflexivity|apply IH].
Qed.

(** Only the reader of CSV files can take the process down. *)
Lemma processFile_exits (env : Env) (file : Routes.UploadedFile) :
  FileProcessor.processFile env (Routes.uf_path file)
    (JsString.drop 1 (env_extname env (Routes.uf_originalname file))) = Exited
  <-> streamFails env file = true.
Proof.
  unfold FileProcessor.processFile, streamFails. cbv zeta.
  destruct (String.eqb (toLowerCase _) "csv").
  - unfold FileProcessor.processCSV.
    destruct (env_readCsv env (Routes.uf_path file)); simpl;
      split; intros H; try discriminate H; reflexivity.
  - simpl. split; [|discriminate].
    destruct (String.eqb (toLowerCase _) "pdf").
    + unfold FileProcessor.processPDF.
      destruct (negb (env_pdfAvailable env)); [discriminate|].
      destruct (env_parsePdf env (Routes.uf_path file)) as [[text pages]|e];
        discriminate.
    + destruct (String.eqb (toLowerCase _) "txt"); [|discriminate].
      unfold FileProcessor.processText.
      destruct (env_readText env (Routes.uf_path file)); discriminate.
Qed.

Lemma uploadFile_returns (env : Env) (file : Routes.UploadedFile) (st : Store) :
  exists out st',
    Routes.uploadFile env file st = (out, st')
    /\ if streamFails env file then out = Exited
       else exists result,
           out = Returned result
           /\ uploadName result = Routes.uf_originalname file.
Proof.
  pose proof (uploadFile_outcome env file st) as H. cbv zeta in H. rewrite H.
  pose proof (processFile_exits env file) as X.
  destruct (FileProcessor.processFile env _ _) as [chunks|e|].
  - assert (F : streamFails env file = false).
    { destruct (streamFails env file); [|reflexivity].
      destruct X as [_ X]. discriminate (X eq_refl). }
    rewrite F.
    destruct (env_generateEmbeddings env (map tc_content chunks));
      eexists; eexists; (split; [reflexivity|]); eexists; split; reflexivity.
  - assert (F : streamFails env file = false).
    { destruct (streamFails env file); [|reflexivity].
      destruct X as [_ X]. discriminate (X eq_refl). }
    rewrite F.
    eexists; eexists; (split; [reflexivity|]); eexists; split; reflexivity.
  - destruct X as [X _]. rewrite (X eq_refl).
    eexists; eexists; split; reflexivity.
Qed.

Lemma uploadFiles_returns (env : Env) (files : list Routes.UploadedFile) :
  forall results st,
  exists out st',
    Routes.uploadFiles env files results st = (out, st')
    /\ if existsb (streamFails env) files then out = Exited
       else exists added,
           out = Returned (results ++ added)
           /\ map uploadName added = map Routes.uf_originalname files.
Proof.
  induction files as [|file rest IH]; intros results st.
  - exists (Returned results), st. simpl. split; [reflexivity|].
    exists []. now rewrite app_nil_r.
  - destruct (uploadFile_returns env file st) as (out1 & st1 & E & N).
    simpl. unfold obind. rewrite E.
    destruct (streamFails env file).
    + subst out1. simpl. eexists; eexists; split; reflexivity.
    + destruct N as (result & -> & N). simpl.
      destruct (IH (results ++ [result]) st1) as (out & st' & E' & N').
      exists out, st'. split; [exact E'|].
      destruct (existsb (streamFails env) rest); [exact N'|].
      destruct N' as (added & -> & N').
      exists (result :: added). split.
      * now rewrite <- app_assoc.
      * simpl. now rewrite N, N'.
Qed.

End UploadFacts.

(** X17.  What the upload route does with one file, case by case.  It
    always records a dataset for the file and never raises.  When the file
    is read as a CSV file and cannot be opened or read, the process exits
    (the ['error'] of the file stream has no listener) with the dataset in
    status "processing"; no other file does that.  When the file cannot be
    processed for another reason the result is an error carrying the
    message of the failure, no chunk is stored, and the dataset is left in
    status "processing".  When the file is processed and the embedding
    service fails, the result is the error "Failed to build index for
    dataset", no chunk is stored and the dataset is in status "error".
    Otherwise the result is "ready" with the number of chunks of the file,
    and the dataset is in status "ready". *)
Theorem uploadFile_dataset_status
        (env : Env) (file : Routes.UploadedFile) (st : Store) :
  let name := Routes.uf_originalname file in
  let fileType := JsString.drop 1 (env_extname env name) in
  let id := env_uuid env (st_uuids st) in
  exists out st',
    Routes.uploadFile env file st = (out, st')
    /\ (forall e, out <> Thrown e)
    /\ (out = Exited <-> streamFails env file = true)
    /\ match FileProcessor.processFile env (Routes.uf_path file) fileType with
       | Exited =>
           out = Exited
           /\ mapGet ds_id id (st_datasets st')
              = Some (uploadedDataset env file st "processing")
           /\ st_chunks st' = st_chunks st
       | Thrown e =>
           out = Returned (Routes.UploadError name e)
           /\ mapGet ds_id id (st_datasets st')
              = Some (uploadedDataset env file st "processing")
           /\ st_chunks st' = st_chunks st
       | Returned chunks =>
           match env_generateEmbeddings env (map tc_content chunks) with
           | Rejected _ =>
               out
               = Returned
                   (Routes.UploadError name "Failed to build index for dataset")
               /\ mapGet ds_id id (st_datasets st')
                  = Some (uploadedDataset env file st "error")
               /\ st_chunks st' = st_chunks st
           | Fulfilled _ =>
               out = Returned (Routes.UploadReady id name (List.length chunks))
               /\ mapGet ds_id id (st_datasets st')
                  = Some (uploadedDataset env file st "ready")
           end
       end.
Proof.
  cbv zeta.
  pose proof (UploadFacts.uploadFile_outcome env file st) as H. cbv zeta in H.
  rewrite H. clear H.
  pose proof (UploadFacts.processFile_exits env file) as X.
  assert (G : forall status rest u t,
             mapGet ds_id (env_uuid env (st_uuids st))
                    (st_datasets
                       (snd (Storage.updateDatasetStatus
                               (env_uuid env (st_uuids st)) status
                               (mkStore
                                  (mapSet ds_id
                                     (uploadedDataset env file st "processing")
                                     (st_datasets st))
                                  rest (st_conversations st) (st_messages st)
                                  u t (st_log st)))))
             = Some (uploadedDataset env file st status)).
  { intros status rest u t. rewrite DatasetFacts.updateDatasetStatus_outcome.
    cbn [snd st_datasets]. rewrite DatasetFacts.updated_lookup.
    change (env_uuid env (st_uuids st))
      with (ds_id (uploadedDataset env file st "processing")) at 1.
    rewrite StoreFacts.mapGet_mapSet_same. reflexivity. }
  assert (P : mapGet ds_id (env_uuid env (st_uuids st))
                     (mapSet ds_id (uploadedDataset env file st "processing")
                             (st_datasets st))
              = Some (uploadedDataset env file st "processing")).
  { change (env_uuid env (st_uuids st))
      with (ds_id (uploadedDataset env file st "processing")).
    apply StoreFacts.mapGet_mapSet_same. }
  destruct (FileProcessor.processFile env _ _) as [chunks|e|].
  - assert (F : streamFails env file = false).
    { destruct (streamFails env file); [|reflexivity].
      destruct X as [_ X]. discriminate (X eq_refl). }
    rewrite F.
    destruct (env_generateEmbeddings env (map tc_content chunks))
      as [embeddings|e].
    + eexists; eexists. split; [reflexivity|].
      split; [discriminate|]. split; [split; discriminate|].
      split; [reflexivity|].
      rewrite IndexFacts.storeChunks_outcome. cbn [snd]. apply G.
    + eexists; eexists. split; [reflexivity|].
      split; [discriminate|]. split; [split; discriminate|].
      split; [reflexivity|]. split; [apply G|].
      rewrite DatasetFacts.updateDatasetStatus_outcome. reflexivity.
  - assert (F : streamFails env file = false).
    { destruct (streamFails env file); [|reflexivity].
      destruct X as [_ X]. discriminate (X eq_refl). }
    rewrite F.
    eexists; eexists. split; [reflexivity|].
    split; [discriminate|]. split; [split; discriminate|].
    split; [reflexivity|]. split; [exact P|reflexivity].
  - destruct X as [X _]. rewrite (X eq_refl).
    eexists; eexists. split; [reflexivity|].
    split; [discriminate|]. split; [split; reflexivity|].
    split; [reflexivity|]. split; [exact P|reflexivity].
Qed.

(** X18.  The upload filter lets image files through (.jpg, .jpeg, .png, in
    any letter case), and no reader exists for them: such a file always
    gives the error "Unsupported file type: " followed by its extension as
    written, stores no chunk, and leaves behind a dataset that stays in
    status "processing". *)
Theorem upload_of_image_stays_processing
        (env : Env) (file : Routes.UploadedFile) (st : Store) :
  let name := Routes.uf_originalname file in
  In (toLowerCase (env_extname env name)) [".jpg"; ".jpeg"; ".png"] ->
  Routes.fileFilter env name = true
  /\ exists st',
      Routes.uploadFile env file st
      = (Returned (Routes.UploadError name
                     ("Unsupported file type: "
                        +++ JsString.drop 1 (env_extname env name))), st')
      /\ mapGet ds_id (env_uuid env (st_uuids st)) (st_datasets st')
         = Some (uploadedDataset env file st "processing")
      /\ st_chunks st' = st_chunks st.
Proof.
  cbv zeta. intros I.
  assert (F : Routes.fileFilter env (Routes.uf_originalname file) = true).
  { unfold Routes.fileFilter.
    destruct I as [<-|[<-|[<-|[]]]]; reflexivity. }
  split; [exact F|].
  assert (U : FileProcessor.processFile env (Routes.uf_path file)
                (JsString.drop 1 (env_extname env (Routes.uf_originalname file)))
              = Thrown ("Unsupported file type: "
                          +++ JsString.drop 1
                                (env_extname env (Routes.uf_originalname file)))).
  { unfold FileProcessor.processFile. cbv zeta.
    rewrite UploadFacts.toLowerCase_drop.
    destruct I as [<-|[<-|[<-|[]]]]; reflexivity. }
  pose proof (UploadFacts.uploadFile_outcome env file st) as H. cbv zeta in H.
  rewrite U in H. eexists. split; [exact H|]. split; [|reflexivity].
  cbn [st_datasets].
  change (env_uuid env (st_uuids st))
    with (ds_id (uploadedDataset env file st "processing")).
  apply StoreFacts.mapGet_mapSet_same.
Qed.

Lemma upload_of_image_stays_processing_witness :
  Routes.fileFilter Fixtures.localEnv "field.JPG" = true
  /\ exists st',
      Routes.uploadFile Fixtures.localEnv Fixtures.photoFile Fixtures.emptyStore
      = (Returned (Routes.UploadError "field.JPG" "Unsupported file type: JPG"),
         st')
      /\ mapGet ds_id "id-0" (st_datasets st')
         = Some (mkDataset "id-0" "field.JPG" "JPG" "uploads/77b0" "processing")
      /\ st_chunks st' = [].
Proof.
  apply (upload_of_image_stays_processing Fixtures.localEnv Fixtures.photoFile
           Fixtures.emptyStore).
  left. reflexivity.
Defined.

(** X19.  The upload route never raises and never answers with its
    failure response.  Without files it answers "bad request" and leaves
    the store alone.  Otherwise, when one of the files is read as a CSV
    file and cannot be opened or read, the process exits and the route does
    not answer; in every other case it answers with exactly one result per
    file, in the order of the files and under their names, whatever failed
    while the files were processed. *)
Theorem upload_one_result_per_file
        (env : Env) (files : list Routes.UploadedFile) (st : Store) :
  exists out st',
    Routes.upload env files st = (out, st')
    /\ (forall e, out <> Thrown e)
    /\ (forall details, out <> Returned (Routes.UploadFailed details))
    /\ match files with
       | [] => out = Returned Routes.UploadBadRequest /\ st' = st
       | _ :: _ =>
           if existsb (streamFails env) files then out = Exited
           else exists results,
               out = Returned (Routes.UploadOk results)
               /\ map uploadName results = map Routes.uf_originalname files
       end.
Proof.
  destruct files as [|file rest].
  - exists (Returned Routes.UploadBadRequest), st. repeat split; discriminate.
  - destruct (UploadFacts.uploadFiles_returns env (file :: rest) [] st)
      as (out & st' & E & N).
    unfold Routes.upload, otry, obind. rewrite E.
    destruct (existsb (streamFails env) (file :: rest)).
    + subst out. exists Exited, st'. repeat split; discriminate.
    + destruct N as (added & -> & N). simpl.
      exists (Returned (Routes.UploadOk added)), st'.
      split; [reflexivity|]. split; [discriminate|]. split; [discriminate|].
      exists added. split; [reflexivity|exact N].
Qed.

(** * The chat route *)

Module ChatFacts.

Import StoreFacts.

Lemma parseQuery_returned (env : Env) (body : Http.ChatBody)
      (v : Routes.QueryRequest) :
  Routes.parseQuery env body = Returned v ->
  acceptedBody body
  /\ Http.cb_message body = Http.Text (Routes.qr_message v)
  /\ Routes.qr_message v <> ""
  /\ Routes.qr_conversationId v = Http.textOf (Http.cb_conversationId body)
  /\ Routes.qr_model v = requestedModel body
  /\ Routes.qr_language v = requestedLanguage body.
Proof.
  unfold Routes.parseQuery, acceptedBody.
  destruct body as [message conversationId model language|]; [|discriminate].
  destruct message as [|message|]; try discriminate.
  destruct message as [|c r]; [discriminate|].
  destruct conversationId, model, language; try discriminate;
    intros H; injection H as <-; simpl;
    (split; [split; [eexists; split; [reflexivity|discriminate]|];
             repeat split; discriminate|]);
    repeat split; discriminate.
Qed.

Lemma parseQuery_thrown (env : Env) (body : Http.ChatBody) (e : string) :
  Routes.parseQuery env body = Thrown e ->
  e = env_zodMessage env body /\ ~ acceptedBody body.
Proof.
  unfold Routes.parseQuery, acceptedBody.
  destruct body as [message conversationId model language|].
  - destruct message as [|message|].
    + intros H. injection H as <-. split; [reflexivity|].
      intros ((m & M & _) & _). discriminate M.
    + destruct message as [|c r].
      * intros H. injection H as <-. split; [reflexivity|].
        intros ((m & M & N) & _). simpl in M. injection M as <-. now apply N.
      * destruct conversationId, model, language; try discriminate;
          intros H; injection H as <-; (split; [reflexivity|]);
          simpl; intros (_ & C & Mo & La); congruence.
    + intros H. injection H as <-. split; [reflexivity|].
      intros ((m & M & _) & _). discriminate M.
  - intros H. injection H as <-. split; [reflexivity|].
    intros ((m & M & _) & _). discriminate M.
Qed.

Lemma parseQuery_settles (env : Env) (body : Http.ChatBody) :
  Routes.parseQuery env body <> Exited.
Proof.
  unfold Routes.parseQuery.
  destruct body as [message conversationId model language|]; [|discriminate].
  destruct message as [|message|]; try discriminate.
  destruct (_ && _); discriminate.
Qed.

(** The store after the conversation of a request has been settled. *)
Lemma chat_outcome (env : Env) (body : Http.ChatBody) (st : Store)
      (v : Routes.QueryRequest) :
  Routes.parseQuery env body = Returned v ->
  exists conversationId conversations u t,
    let question :=
      mkMessage (env_uuid env u) (nonEmpty (Some conversationId)) "user"
                (Routes.qr_message v) None (env_now env t) in
    let asked := mapSet msg_id question (st_messages st) in
    (if truthy (Routes.qr_conversationId v)
     then Routes.qr_conversationId v = Some conversationId
          /\ conversations = st_conversations st
     else conversationId = env_uuid env (st_uuids st)
          /\ conversations
             = mapSet cv_id
                 (mkConversation conversationId
                    (nonEmpty (Some (String.substring 0 50 (Routes.qr_message v)
                                       +++ "...")))
                    (env_now env (st_ticks st)))
                 (st_conversations st))
    /\ Routes.chat env body st =
       match processQuery (worldOf env st) (Routes.qr_message v)
                          (Routes.qr_model v) (Routes.qr_language v) (st_log st)
       with
       | (Returned r, log) =>
           (Returned (Routes.ChatOk conversationId (answer r) (sources r)
                        (isComputation r) (metadata r)),
            mkStore (st_datasets st) (st_chunks st) conversations
                    (mapSet msg_id
                       (mkMessage (env_uuid env (S u))
                          (nonEmpty (Some conversationId)) "assistant" (answer r)
                          (Some (AssistantMetadata (sources r) (isComputation r)
                                   (metadata r)))
                          (env_now env (S t)))
                       asked)
                    (S (S u)) (S (S t)) log)
       | (Thrown e, log) =>
           (Returned (Routes.ChatFailed e),
            mkStore (st_datasets st) (st_chunks st) conversations asked
                    (S u) (S t) log)
       | (Exited, log) =>
           (Exited,
            mkStore (st_datasets st) (st_chunks st) conversations asked
                    (S u) (S t) log)
       end.
Proof.
  intros P. unfold Routes.chat.
  cbv beta iota delta [otry obind olift oret]. rewrite P.
  destruct (truthy (Routes.qr_conversationId v)) eqn:T.
  - destruct (Routes.qr_conversationId v) as [c|] eqn:C; [|discriminate].
    exists c, (st_conversations st), (st_uuids st), (st_ticks st).
    cbv zeta. split; [split; reflexivity|].
    assert (O : orElse (Some c) "" = c).
    { unfold orElse. simpl in T. apply negb_true_iff in T. now rewrite T. }
    rewrite O.
    cbv beta iota delta [Storage.createMessage obind oret Storage.randomUUID
                         Storage.newDate Storage.getStore Storage.setMessages
                         Routes.runQuery].
    cbn [st_datasets st_chunks st_conversations st_messages st_uuids st_ticks
         st_log].
    change (worldOf env (mkStore (st_datasets st) (st_chunks st)
                           (st_conversations st)
                           (mapSet msg_id _ (st_messages st))
                           (S (st_uuids st)) (S (st_ticks st)) (st_log st)))
      with (worldOf env st).
    destruct (processQuery (worldOf env st) _ _ _ _) as [[r|e|] log]; reflexivity.
  - exists (env_uuid env (st_uuids st)),
      (mapSet cv_id
         (mkConversation (env_uuid env (st_uuids st))
            (nonEmpty (Some (String.substring 0 50 (Routes.qr_message v)
                               +++ "...")))
            (env_now env (st_ticks st)))
         (st_conversations st)),
      (S (st_uuids st)), (S (st_ticks st)).
    cbv zeta. split; [split; reflexivity|].
    cbv beta iota delta [Storage.createMessage Storage.createConversation
                         obind oret Storage.randomUUID
                         Storage.newDate Storage.getStore Storage.setMessages
                         Storage.setConversations Routes.runQuery].
    cbn [st_datasets st_chunks st_conversations st_messages st_uuids st_ticks
         st_log cv_id].
    change (worldOf env (mkStore (st_datasets st) (st_chunks st) _ _ _ _
                           (st_log st)))
      with (worldOf env st).
    destruct (processQuery (worldOf env st) _ _ _ _) as [[r|e|] log]; reflexivity.
Qed.

Lemma processQuery_thrown (w : World) (query model language : string)
      (log log' : list Event) (e : string) :
  processQuery w query model language log = (Thrown e, log') ->
  e = "Failed to process query".
Proof.
  unfold processQuery, tryCatch.
  destruct (if DataProcessor.detectComputationalQuery query then _ else _)
    as [[r|e'|] l]; unfold throw; intros H; try discriminate.
  now injection H as <- _.
Qed.

Lemma processQuery_exited (w : World) (query model language : string)
      (log : list Event) :
  fst (processQuery w query model language log) = Exited
  <-> DataProcessor.detectComputationalQuery query = true
      /\ unreadableCsv w = true.
Proof.
  unfold processQuery, tryCatch.
  destruct (DataProcessor.detectComputationalQuery query).
  - destruct (handleComputationalQuery_ends w query log) as (log' & R & X).
    destruct (unreadableCsv w).
    + rewrite (X eq_refl). simpl. now split.
    + destruct (R eq_refl) as (r & E & _). rewrite E. simpl.
      split; [discriminate|]. intros [_ H]. discriminate.
  - split; [|intros [H _]; discriminate].
    rewrite handleRAGQuery_outcome.
    destruct (generateEmbedding w query) as [v|e]; [|discriminate].
    destruct (MemStorage.searchChunksByEmbedding (engine w) (storedChunks w) v 5)
      as [|c cs]; [discriminate|].
    cbv zeta. destruct (post w model _); [discriminate|].
    destruct (String.eqb (apiKey w) ""); discriminate.
Qed.

End ChatFacts.

(** X20.  The chat route never raises.  It answers every request except
    one kind: a request the schema accepts whose message is a computational
    query, on a store with a ready CSV dataset whose file cannot be opened
    or read; then the process exits and nothing is answered.  When the
    answer is a failure there are two cases only.  Either the schema
    rejects the body (it is not an object, the message is missing, not a
    string or empty, or the conversation, the model or the language is
    there and is not a string): the details are the message of the schema
    error and the store is untouched, so no conversation is opened.  Or the
    query itself failed: the details are "Failed to process query", the
    question of the user has been stored and is left without an answer
    (every message added is a user message), and the chunks and the datasets
    are as before. *)
Theorem chat_failure_cases (env : Env) (body : Http.ChatBody) (st : Store) :
  exists out st',
    Routes.chat env body st = (out, st')
    /\ (forall e, out <> Thrown e)
    /\ (out = Exited <->
        acceptedBody body
        /\ exists message,
            Http.cb_message body = Http.Text message
            /\ DataProcessor.detectComputationalQuery message = true
            /\ unreadableCsv (worldOf env st) = true)
    /\ (~ acceptedBody body ->
        out = Returned (Routes.ChatFailed (env_zodMessage env body)) /\ st' = st)
    /\ forall details,
        out = Returned (Routes.ChatFailed details) ->
        (details = env_zodMessage env body /\ ~ acceptedBody body /\ st' = st)
        \/ (details = "Failed to process query"
            /\ acceptedBody body
            /\ (exists message question,
                   Http.cb_message body = Http.Text message
                   /\ In question (st_messages st')
                   /\ questionOf message question)
            /\ Forall (fun m => In m (st_messages st) \/ msg_role m = "user")
                      (st_messages st')
            /\ st_chunks st' = st_chunks st
            /\ st_datasets st' = st_datasets st).
Proof.
  destruct (Routes.parseQuery env body) as [v|e|] eqn:P.
  - destruct (ChatFacts.parseQuery_returned env body v P) as (A & M & N & _).
    destruct (ChatFacts.chat_outcome env body st v P)
      as (cid & convs & u & t & _ & E). cbv zeta in E.
    pose proof (ChatFacts.processQuery_exited (worldOf env st)
                  (Routes.qr_message v) (Routes.qr_model v)
                  (Routes.qr_language v) (st_log st)) as X.
    destruct (processQuery (worldOf env st) _ _ _ _) as [[r|e|] log] eqn:Q.
    + eexists; eexists. split; [exact E|]. split; [discriminate|]. split.
      { split; [discriminate|]. intros (_ & m & Hm & D & U).
        rewrite M in Hm. injection Hm as <-.
        destruct X as [_ X]. discriminate (X (conj D U)). }
      split; [intros H; contradiction|]. intros details H. discriminate.
    + eexists; eexists. split; [exact E|]. split; [discriminate|]. split.
      { split; [discriminate|]. intros (_ & m & Hm & D & U).
        rewrite M in Hm. injection Hm as <-.
        destruct X as [_ X]. discriminate (X (conj D U)). }
      split; [intros H; contradiction|].
      intros details H. injection H as <-. right.
      split; [eapply ChatFacts.processQuery_thrown; exact Q|].
      split; [exact A|].
      cbn [st_messages st_chunks st_datasets].
      split.
      { eexists; eexists. split; [exact M|].
        split; [apply StoreFacts.mapSet_In_new|]. repeat split. }
      split; [|split; reflexivity].
      apply Forall_forall. intros m H.
      apply StoreFacts.mapSet_In in H. destruct H as [->|H]; auto.
    + eexists; eexists. split; [exact E|]. split; [discriminate|]. split.
      { split; [|reflexivity]. intros _. split; [exact A|].
        destruct X as [X _]. destruct (X eq_refl) as [D U].
        exists (Routes.qr_message v). auto. }
      split; [intros H; contradiction|]. intros details H. discriminate.
  - destruct (ChatFacts.parseQuery_thrown env body e P) as (-> & B).
    exists (Returned (Routes.ChatFailed (env_zodMessage env body))), st. split.
    + unfold Routes.chat, otry, obind, olift. rewrite P. reflexivity.
    + split; [discriminate|]. split.
      { split; [discriminate|]. intros [A _]. contradiction. }
      split; [auto|]. intros details H. injection H as <-. left. auto.
  - now destruct (ChatFacts.parseQuery_settles env body).
Qed.

(** X21.  When the chat route answers a request, the answer, the sources
    and the metadata are those [processQuery] returns for the message on
    the chunks and datasets of the store, with the model and the language of
    the request or else the defaults "gemma-2b-it" and "english"; the answer
    has been stored as an assistant message of the conversation answered
    for; the conversation is the one named in the request, or a new one
    whose title is the first 50 characters of the message followed by
    "..."; the chunks and the datasets are not touched. *)
Theorem chat_success_stores_answer
        (env : Env) (body : Http.ChatBody) (st st' : Store)
        (conversationId : string) (r : RAGResponse) :
  Routes.chat env body st
  = (Returned (Routes.ChatOk conversationId (answer r) (sources r)
                 (isComputation r) (metadata r)), st') ->
  exists message,
    Http.cb_message body = Http.Text message
    /\ message <> ""
    /\ processQuery (worldOf env st) message (requestedModel body)
                    (requestedLanguage body) (st_log st)
       = (Returned r, st_log st')
    /\ (exists m, In m (st_messages st') /\ answerOf r conversationId m)
    /\ (if truthy (Http.textOf (Http.cb_conversationId body))
        then Http.cb_conversationId body = Http.Text conversationId
             /\ st_conversations st' = st_conversations st
        else conversationId = env_uuid env (st_uuids st)
             /\ exists c, In c (st_conversations st')
                          /\ cv_id c = conversationId
                          /\ cv_title c
                             = Some (String.substring 0 50 message +++ "..."))
    /\ st_chunks st' = st_chunks st
    /\ st_datasets st' = st_datasets st.
Proof.
  intros H.
  destruct (Routes.parseQuery env body) as [v|e|] eqn:P.
  - destruct (ChatFacts.parseQuery_returned env body v P)
      as (_ & M & N & C & Mo & La).
    destruct (ChatFacts.chat_outcome env body st v P)
      as (cid & convs & u & t & K & E). cbv zeta in E.
    rewrite E in H. clear E. rewrite Mo, La in H.
    destruct (processQuery (worldOf env st) _ _ _ _) as [[r'|e|] log] eqn:Q;
      try discriminate.
    injection H as -> Ha Hs Hi Hm <-.
    assert (R : r' = r).
    { destruct r', r. simpl in *. congruence. }
    subst r'.
    exists (Routes.qr_message v). split; [exact M|]. split; [exact N|].
    cbn [st_log st_messages st_conversations st_chunks st_datasets].
    split; [exact Q|].
    split.
    { eexists. split; [apply StoreFacts.mapSet_In_new|]. repeat split. }
    split; [|split; reflexivity].
    rewrite <- C.
    destruct (truthy (Routes.qr_conversationId v)).
    + destruct K as (K & ->). split; [|reflexivity].
      rewrite C in K. destruct (Http.cb_conversationId body); simpl in K;
        try discriminate. now injection K as ->.
    + destruct K as (-> & ->). split; [reflexivity|].
      eexists. split; [apply StoreFacts.mapSet_In_new|]. split; [reflexivity|].
      cbn [cv_title]. unfold nonEmpty.
      destruct (String.substring 0 50 (Routes.qr_message v)); reflexivity.
  - unfold Routes.chat, otry, obind, olift in H. rewrite P in H. discriminate.
  - now destruct (ChatFacts.parseQuery_settles env body).
Qed.

Lemma chat_success_stores_answer_witness :
  exists message,
    Http.cb_message totalRiceBody = Http.Text message
    /\ message <> ""
    /\ processQuery (worldOf Fixtures.localEnv Fixtures.emptyStore) message
                    (requestedModel totalRiceBody)
                    (requestedLanguage totalRiceBody)
                    (st_log Fixtures.emptyStore)
       = (Returned (mkRAGResponse noDatasetsAnswer [] true None),
          st_log (snd (Routes.chat Fixtures.localEnv totalRiceBody
                         Fixtures.emptyStore)))
    /\ (exists m,
           In m (st_messages (snd (Routes.chat Fixtures.localEnv totalRiceBody
                                     Fixtures.emptyStore)))
           /\ answerOf (mkRAGResponse noDatasetsAnswer [] true None) "id-0" m)
    /\ (if truthy (Http.textOf (Http.cb_conversationId totalRiceBody))
        then Http.cb_conversationId totalRiceBody = Http.Text "id-0"
             /\ st_conversations
                  (snd (Routes.chat Fixtures.localEnv totalRiceBody
                          Fixtures.emptyStore))
                = st_conversations Fixtures.emptyStore
        else "id-0" = env_uuid Fixtures.localEnv (st_uuids Fixtures.emptyStore)
             /\ exists c,
                 In c (st_conversations
                         (snd (Routes.chat Fixtures.localEnv totalRiceBody
                                 Fixtures.emptyStore)))
                 /\ cv_id c = "id-0"
                 /\ cv_title c
                    = Some (String.substring 0 50 message +++ "..."))
    /\ st_chunks (snd (Routes.chat Fixtures.localEnv totalRiceBody
                         Fixtures.emptyStore))
       = st_chunks Fixtures.emptyStore
    /\ st_datasets (snd (Routes.chat Fixtures.localEnv totalRiceBody
                           Fixtures.emptyStore))
       = st_datasets Fixtures.emptyStore.
Proof.
  apply (chat_success_stores_answer Fixtures.localEnv totalRiceBody
           Fixtures.emptyStore
           (snd (Routes.chat Fixtures.localEnv totalRiceBody Fixtures.emptyStore))
           "id-0" (mkRAGResponse noDatasetsAnswer [] true None)).
  vm_compute. reflexivity.
Defined.

(** * The prompt and the cleaning of the reply *)

Module PromptFacts.

Import QueryFacts CoverFacts.

Lemma includes_join (sep : string) (l : list string) (s : string) :
  In s l -> includes (join sep l) s = true.
Proof.
  unfold join. induction l as [|x r IH]; [contradiction|].
  intros [->|H].
  - destruct r as [|y r]; simpl String.concat; [apply includes_self|].
    apply includes_append_r, includes_self.
  - destruct r as [|y r]; [contradiction|].
    change (String.concat sep (x :: y :: r))
      with (x +++ sep +++ String.concat sep (y :: r)).
    do 2 apply includes_append_l. apply IH, H.
Qed.

Lemma prompt_includes_query (query context language : string) :
  includes (createRAGPrompt query context language) query = true.
Proof.
  unfold createRAGPrompt. cbv zeta.
  do 5 apply includes_append_l. apply includes_append_r, includes_self.
Qed.

Lemma prompt_includes_context (query context language s : string) :
  includes context s = true ->
  includes (createRAGPrompt query context language) s = true.
Proof.
  intros H. unfold createRAGPrompt. cbv zeta.
  do 3 apply includes_append_l. apply includes_append_r, H.
Qed.

Lemma prompt_includes_language (query context language : string) :
  String.eqb language "english" = false ->
  includes (createRAGPrompt query context language)
           ("Please respond in " +++ language +++ ". ") = true.
Proof.
  intros H. unfold createRAGPrompt. rewrite H. cbv zeta.
  apply includes_append_l, includes_append_r, includes_self.
Qed.

Lemma trimStart_fixed (s : string) : startsNonWhite s = true -> trimStart s = s.
Proof.
  destruct s as [|c r]; simpl; [reflexivity|].
  intros H. apply negb_true_iff in H. now rewrite H.
Qed.

Lemma trimEnd_fixed (s : string) : endsNonWhite s = true -> trimEnd s = s.
Proof.
  induction s as [|c r IH]; [reflexivity|].
  destruct r as [|c' r'].
  - simpl. intros H. apply negb_true_iff in H. now rewrite H.
  - intros H. change (endsNonWhite (String c' r') = true) in H.
    rewrite trimEnd_cons; rewrite IH by exact H; [reflexivity|discriminate].
Qed.

Lemma trim_idempotent (s : string) : trim (trim s) = trim s.
Proof.
  destruct (blank s) eqn:B.
  - assert (E : trim s = EmptyString).
    { unfold trim. now rewrite (trimStart_blank s B). }
    rewrite E. reflexivity.
  - destruct (trim_edges s B) as [S E].
    unfold trim at 1. rewrite (trimStart_fixed _ S). apply trimEnd_fixed, E.
Qed.

Lemma occursIn_trans (a b c : string) :
  occursIn a b -> occursIn b c -> occursIn a c.
Proof.
  intros (p1 & q1 & ->) (p2 & q2 & ->).
  exists (p2 +++ p1), (q1 +++ q2). now rewrite !append_assoc.
Qed.

Lemma occursIn_trim_self (s : string) : occursIn (trim s) s.
Proof.
  destruct (trimStart_split s) as (w1 & H1).
  destruct (trimEnd_split (trimStart s)) as (w2 & H2). fold (trim s) in H2.
  exists w1, w2. now rewrite <- H2.
Qed.

Lemma occursIn_drop (n : nat) : forall s, occursIn (JsString.drop n s) s.
Proof.
  induction n as [|n IH]; intros s.
  - exists EmptyString, EmptyString. simpl. now rewrite append_empty_r.
  - destruct s as [|c r]; simpl.
    + exists EmptyString, EmptyString. reflexivity.
    + destruct (IH r) as (p & q & H). exists (String c p), q. simpl.
      now rewrite <- H.
Qed.

Lemma strip_prefixes (response : string) (prefixes : list string) :
  forall cleaned,
    occursIn cleaned response -> trim cleaned = cleaned ->
    let result :=
      fold_left
        (fun cleanedResponse prefix =>
           if startsWith cleanedResponse prefix
           then trim (JsString.drop (String.length prefix) cleanedResponse)
           else cleanedResponse)
        prefixes cleaned in
    occursIn result response /\ trim result = result.
Proof.
  induction prefixes as [|p r IH]; intros cleaned O T; simpl; [now split|].
  destruct (startsWith cleaned p); [|apply IH; assumption].
  apply IH; [|apply trim_idempotent].
  eapply occursIn_trans; [apply occursIn_trim_self|].
  eapply occursIn_trans; [apply occursIn_drop|exact O].
Qed.

End PromptFacts.

(** X22.  What a conversational query asks of the outside: it asks for the
    embedding of the query once, and then posts at most one request to the
    inference endpoint, none when the embedding fails or nothing is
    retrieved.  The request posted names the model asked for, and its prompt
    contains the query, the content of every retrieved chunk and, for a
    language other than "english", the instruction to respond in that
    language. *)
Theorem conversational_query_requests
        (w : World) (query model language : string) (log : list Event) :
  exists posts,
    snd (handleRAGQuery w query model language log)
    = log ++ EvEmbed query :: posts
    /\ (posts = []
        \/ exists prompt v,
            posts = [EvPost model prompt]
            /\ generateEmbedding w query = Fulfilled v
            /\ MemStorage.searchChunksByEmbedding (engine w) (storedChunks w) v 5 <> []
            /\ includes prompt query = true
            /\ Forall (fun c => includes prompt (ch_content c) = true)
                      (MemStorage.searchChunksByEmbedding (engine w) (storedChunks w) v 5)
            /\ (String.eqb language "english" = false ->
                includes prompt ("Please respond in " +++ language +++ ". ")
                = true)).
Proof.
  rewrite handleRAGQuery_outcome.
  destruct (generateEmbedding w query) as [v|e].
  - destruct (MemStorage.searchChunksByEmbedding (engine w) (storedChunks w) v 5)
      as [|c cs] eqn:S.
    + exists []. split; [reflexivity|now left].
    + cbv zeta. eexists. split.
      { cbn [snd]. rewrite <- app_assoc. reflexivity. }
      right. eexists; eexists. split; [reflexivity|]. split; [reflexivity|].
      rewrite S. split; [discriminate|].
      split; [apply PromptFacts.prompt_includes_query|].
      split; [|apply PromptFacts.prompt_includes_language].
      apply Forall_forall. intros x H.
      apply PromptFacts.prompt_includes_context.
      unfold contextOf. apply PromptFacts.includes_join.
      apply in_map, H.
  - exists []. split; [reflexivity|now left].
Qed.

(** X23.  [postProcessResponse] only takes away: what it returns is a
    contiguous part of the response and has no white space at either end;
    a response that, once trimmed, starts with none of the prefixes
    "Answer:", "Response:" and "A:" is returned trimmed and otherwise
    unchanged. *)
Theorem postProcessResponse_part_of_response (response : string) :
  occursIn (postProcessResponse response) response
  /\ trim (postProcessResponse response) = postProcessResponse response
  /\ (Forall (fun p => startsWith (trim response) p = false) unwantedPrefixes ->
      postProcessResponse response = trim response).
Proof.
  pose proof (PromptFacts.strip_prefixes response unwantedPrefixes
                (trim response) (PromptFacts.occursIn_trim_self response)
                (PromptFacts.trim_idempotent response)) as H.
  cbv zeta in H. destruct H as [O T].
  split; [exact O|]. split; [exact T|].
  unfold postProcessResponse. generalize (trim response) as cleaned.
  generalize unwantedPrefixes as prefixes.
  induction prefixes as [|p r IH]; intros cleaned F; [reflexivity|].
  inversion F as [|? ? Hp Hr]; subst. simpl. rewrite Hp. apply IH, Hr.
Qed.

Module FallbackFacts.

Import QueryFacts.

Lemma fallback_in_answers (prompt : string) :
  In (generateFallbackResponse prompt) fallbackAnswers.
Proof.
  unfold generateFallbackResponse, fallbackAnswers.
  destruct (_ || _); [now left|].
  destruct (_ || _); [right; now left|right; right; now left].
Qed.

Lemma fallback_clean (prompt : string) :
  postProcessResponse (generateFallbackResponse prompt)
  = generateFallbackResponse prompt.
Proof.
  pose proof (fallback_in_answers prompt) as H.
  destruct H as [<-|[<-|[<-|[]]]]; vm_compute; reflexivity.
Qed.

Lemma prompt_lower_includes (query context language k : string) :
  includes (toLowerCase query) k = true ->
  includes (toLowerCase (createRAGPrompt query context language)) k = true.
Proof.
  intros H. unfold createRAGPrompt. cbv zeta. rewrite !toLowerCase_append.
  do 5 apply includes_append_l. apply includes_append_r, H.
Qed.

End FallbackFacts.

(** X24.  Without an API key, a conversational query whose retrieval found
    chunks is answered even when the inference endpoint fails: the answer
    is one of the three fixed sentences of [generateFallbackResponse],
    returned as it is (the cleaning of the reply leaves each of them
    unchanged), with the sources of the retrieved chunks.  The sentence is
    chosen on the whole prompt, so a query that mentions "crop" or "farming"
    never gets the third, general sentence. *)
Theorem fallback_answer_without_key
        (w : World) (query model language : string) (log : list Event)
        (v : list float) (e : string) :
  apiKey w = "" ->
  generateEmbedding w query = Fulfilled v ->
  MemStorage.searchChunksByEmbedding (engine w) (storedChunks w) v 5 <> [] ->
  post w model
       (createRAGPrompt query
          (contextOf (MemStorage.searchChunksByEmbedding (engine w) (storedChunks w) v 5))
          language)
  = Rejected e ->
  exists r,
    fst (handleRAGQuery w query model language log) = Returned r
    /\ In (answer r) fallbackAnswers
    /\ sources r
       = extractSources (MemStorage.searchChunksByEmbedding (engine w) (storedChunks w) v 5)
    /\ isComputation r = false
    /\ (includes (toLowerCase query) "crop" = true
        \/ includes (toLowerCase query) "farming" = true ->
        answer r <> nth 2 fallbackAnswers "").
Proof.
  intros K E S P. rewrite handleRAGQuery_outcome, E.
  destruct (MemStorage.searchChunksByEmbedding (engine w) (storedChunks w) v 5)
    as [|c cs]; [contradiction|].
  cbv zeta. rewrite P, K. simpl String.eqb. cbv iota.
  eexists. split; [reflexivity|]. cbn [answer sources isComputation].
  rewrite FallbackFacts.fallback_clean.
  split; [apply FallbackFacts.fallback_in_answers|].
  split; [reflexivity|]. split; [reflexivity|].
  intros M.
  assert (L : includes
                (toLowerCase (createRAGPrompt query (contextOf (c :: cs)) language))
                "crop"
              || includes
                   (toLowerCase
                      (createRAGPrompt query (contextOf (c :: cs)) language))
                   "farming" = true).
  { apply orb_true_iff.
    destruct M as [M|M]; [left|right];
      apply FallbackFacts.prompt_lower_includes, M. }
  unfold generateFallbackResponse. rewrite L. clear L.
  destruct (_ || _); intros Q; vm_compute in Q; discriminate Q.
Qed.

Lemma fallback_answer_without_key_witness :
  exists r,
    fst (handleRAGQuery (worldOf Fixtures.localEnv wheatStore) cropQuestion
           "gemma-2b-it" "english" [])
    = Returned r
    /\ In (answer r) fallbackAnswers
    /\ sources r
       = extractSources
           (MemStorage.searchChunksByEmbedding
              (engine (worldOf Fixtures.localEnv wheatStore))
              (storedChunks (worldOf Fixtures.localEnv wheatStore))
              [1%float; 0%float] 5)
    /\ isComputation r = false
    /\ (includes (toLowerCase cropQuestion) "crop" = true
        \/ includes (toLowerCase cropQuestion) "farming" = true ->
        answer r <> nth 2 fallbackAnswers "").
Proof.
  apply (fallback_answer_without_key (worldOf Fixtures.localEnv wheatStore)
           cropQuestion "gemma-2b-it" "english" [] [1%float; 0%float]
           "Request failed with status code 401").
  - reflexivity.
  - reflexivity.
  - vm_compute. discriminate.
  - reflexivity.
Defined.

(** * The development embedding service *)

Module HashFacts.

Import SimpleEmbedding.

Local Open Scope Z_scope.

Lemma toInt32_range (z : Z) : -2147483648 <= toInt32 z < 2147483648.
Proof.
  unfold toInt32.
  pose proof (Z.mod_pos_bound (z + 2147483648) 4294967296). lia.
Qed.

Lemma toInt32_decomp (z : Z) : exists k, toInt32 z = z + k * 4294967296.
Proof.
  exists (- ((z + 2147483648) / 4294967296)). unfold toInt32.
  pose proof (Z.div_mod (z + 2147483648) 4294967296). lia.
Qed.

Lemma toInt32_shift (z k : Z) : toInt32 (z + k * 4294967296) = toInt32 z.
Proof.
  unfold toInt32.
  replace (z + k * 4294967296 + 2147483648)
    with (z + 2147483648 + k * 4294967296) by ring.
  now rewrite Z_mod_plus_full.
Qed.

Lemma hashStep_polynomial (p : Z) (c : ascii) :
  hashStep (toInt32 p) c = toInt32 (31 * p + Z.of_nat (nat_of_ascii c)).
Proof.
  unfold hashStep. cbv zeta. rewrite Z.land_diag, Z.shiftl_mul_pow2 by lia.
  destruct (toInt32_decomp p) as [k0 E0].
  destruct (toInt32_decomp (toInt32 p)) as [k1 E1].
  destruct (toInt32_decomp (toInt32 (toInt32 p) * 2 ^ 5)) as [k2 E2].
  rewrite E2, E1, E0.
  replace ((p + k0 * 4294967296 + k1 * 4294967296) * 2 ^ 5 + k2 * 4294967296
           - (p + k0 * 4294967296) + Z.of_nat (nat_of_ascii c))
    with (31 * p + Z.of_nat (nat_of_ascii c)
          + (31 * k0 + 32 * k1 + k2) * 4294967296) by ring.
  apply toInt32_shift.
Qed.

Lemma hashFrom_polynomial (str : string) :
  forall p, hashFrom (toInt32 p) str = toInt32 (polynomialFrom p str).
Proof.
  induction str as [|c rest IH]; intros p; simpl; [reflexivity|].
  rewrite hashStep_polynomial. apply IH.
Qed.

End HashFacts.

(** X25.  [simpleHash] is the polynomial hash of the character codes in
    base 31, reduced to a signed 32-bit integer: the shift, the subtraction
    and the masking of each turn of the loop amount to one multiplication by
    31 modulo 2^32.  The result always lies in [-2^31, 2^31). *)
Theorem simpleHash_polynomial (str : string) :
  SimpleEmbedding.simpleHash str
  = SimpleEmbedding.toInt32 (polynomialFrom 0%Z str)
  /\ (-2147483648 <= SimpleEmbedding.simpleHash str < 2147483648)%Z.
Proof.
  assert (E : SimpleEmbedding.simpleHash str
              = SimpleEmbedding.toInt32 (polynomialFrom 0%Z str)).
  { unfold SimpleEmbedding.simpleHash.
    change 0%Z with (SimpleEmbedding.toInt32 0%Z) at 1.
    apply HashFacts.hashFrom_polynomial. }
  split; [exact E|]. rewrite E. apply HashFacts.toInt32_range.
Qed.

(** X26.  [addChunkToIndex] asks for the embedding of the content first.
    When that fails it raises "Failed to add chunk to index" and the store
    is untouched.  Otherwise it returns the stored chunk, which carries the
    content, the embedding and the metadata given; looking its identifier up
    in the store gives that chunk, every other identifier gives what it gave
    before, and the datasets are untouched. *)
Theorem addChunkToIndex_outcome
        (env : Env) (content datasetId : string) (metadata : option Metadata)
        (st : Store) :
  match env_generateEmbedding env content with
  | Rejected _ =>
      VectorSearch.addChunkToIndex env content datasetId metadata st
      = (Thrown "Failed to add chunk to index", st)
  | Fulfilled embedding =>
      exists st',
        let chunk :=
          mkChunk (env_uuid env (st_uuids st)) (nonEmpty (Some datasetId))
                  content (Some embedding) metadata in
        VectorSearch.addChunkToIndex env content datasetId metadata st
        = (Returned chunk, st')
        /\ mapGet ch_id (ch_id chunk) (st_chunks st') = Some chunk
        /\ (forall other, other <> ch_id chunk ->
              mapGet ch_id other (st_chunks st')
              = mapGet ch_id other (st_chunks st))
        /\ st_datasets st' = st_datasets st
  end.
Proof.
  unfold VectorSearch.addChunkToIndex.
  cbv beta iota delta [otry obind olift await].
  destruct (env_generateEmbedding env content) as [embedding|e];
    [|reflexivity].
  cbv beta iota delta [Storage.createChunk obind oret Storage.randomUUID
                       Storage.newDate Storage.getStore Storage.setChunks].
  cbn [st_datasets st_chunks st_conversations st_messages st_uuids st_ticks
       st_log].
  eexists. cbv zeta. split; [reflexivity|]. cbn [st_chunks st_datasets ch_id].
  split.
  { apply (StoreFacts.mapGet_mapSet_same ch_id
             (mkChunk (env_uuid env (st_uuids st)) (nonEmpty (Some datasetId))
                      content (Some embedding) metadata)). }
  split; [|reflexivity].
  intros other N. apply StoreFacts.mapGet_mapSet_other. exact N.
Qed.
